(** * TScraper: the network collectors and discovery orchestrator of
    [scraper.ts], embedded in Rocq.

    The scraper drives a headless browser through Puppeteer.  The pure
    parts (URL classifiers, resource policy, the injected DOM scan) are
    embedded as functions.  The asynchronous orchestration is embedded in
    a state-and-exception monad over an explicit model of the browser:
    every awaited driver call asks an oracle (the [World]) what the browser
    answers, how long it takes and which network events the page emits
    while the call is pending. *)

From Stdlib Require Import ZArith NArith.
From stdpp Require Import base tactics option list strings.

Local Open Scope N_scope.

(** ** JavaScript strings

    A JavaScript string is a sequence of UTF-16 code units. *)

Abbreviation jsstring := (list N).

Definition js (s : string) : jsstring :=
  map Ascii.N_of_ascii (String.list_ascii_of_string s).

(** ** Regular expressions

    The fragment of ECMAScript patterns that [scraper.ts] uses: pattern
    characters, concatenation, disjunction and the [$] assertion, always
    under the [i] flag and never under [u], [m], [g] or [y]. *)

Inductive regex : Type :=
| REmpty
| RChar (p : N)
| RSeq (r1 r2 : regex)
| RAlt (r1 r2 : regex)
| REnd.

(** Upper-casing of the ASCII letters. *)
Definition upper_ascii (c : N) : N :=
  if (97 <=? c) && (c <=? 122) then c - 32 else c.

(** Character comparison under [/i] (without [/u]) against an ASCII pattern
    character [p].  ECMA-262 compares [Canonicalize(c)] with
    [Canonicalize(p)]; [Canonicalize] upper-cases, but never maps a code
    unit [>= 128] to one [< 128].  Hence a non-ASCII code unit never
    matches an ASCII pattern character, and an ASCII one matches up to
    ASCII case. *)
Definition canon_eq (p c : N) : bool :=
  (c <? 128) && (upper_ascii c =? upper_ascii p).

(** Backtracking matcher: [rmatch r s k] matches [r] at the front of [s] and
    hands what is left to the continuation [k].  [s] always is a suffix of
    the whole input, so [$] (no [m] flag) holds exactly when [s] is empty. *)
Fixpoint rmatch (r : regex) (s : jsstring) (k : jsstring -> bool) : bool :=
  match r with
  | REmpty => k s
  | RChar p =>
      match s with
      | c :: s' => canon_eq p c && k s'
      | [] => false
      end
  | RSeq r1 r2 => rmatch r1 s (fun s' => rmatch r2 s' k)
  | RAlt r1 r2 => rmatch r1 s k || rmatch r2 s k
  | REnd =>
      match s with
      | [] => k []
      | _ :: _ => false
      end
  end.

(** [RegExp.prototype.test]: a match may start at any index, the end of the
    input included. *)
Fixpoint regex_test (r : regex) (s : jsstring) : bool :=
  rmatch r s (fun _ => true) ||
  match s with
  | [] => false
  | _ :: s' => regex_test r s'
  end.

(** A run of pattern characters. *)
Fixpoint lit (w : jsstring) : regex :=
  match w with
  | [] => REmpty
  | p :: w' => RSeq (RChar p) (lit w')
  end.

(** [(\?|$)] *)
Definition query_or_end : regex := RAlt (RChar 63) REnd.

(** [/\.m3u8(\?|$)/i] *)
Definition re_m3u8 : regex := RSeq (lit (js ".m3u8")) query_or_end.

(** [/\.(vtt|srt)(\?|$)/i] *)
Definition re_subtitle : regex :=
  RSeq (RChar 46) (RSeq (RAlt (lit (js "vtt")) (lit (js "srt"))) query_or_end).

(** ** URL classifier and resource policy *)

Definition isM3U8 (url : jsstring) : bool := regex_test re_m3u8 url.

Definition isSubtitle (url : jsstring) : bool := regex_test re_subtitle url.

Definition isHeavyResource (type : jsstring) : bool :=
  bool_decide (type ∈ [js "image"; js "stylesheet"; js "font"; js "media"]).

(** ** The classifiers as the specification words them

    "True iff the URL path ends in [.m3u8], optionally followed by a query
    string, case-insensitive": the query string starts at the first [?]. *)

Fixpoint before_query (u : jsstring) : jsstring :=
  match u with
  | [] => []
  | c :: u' => if c =? 63 then [] else c :: before_query u'
  end.

Fixpoint ci_eqb (w s : jsstring) : bool :=
  match w, s with
  | [], [] => true
  | p :: w', c :: s' => canon_eq p c && ci_eqb w' s'
  | _, _ => false
  end.

Definition ends_with_ci (suffix s : jsstring) : bool :=
  ci_eqb suffix (drop (length s - length suffix)%nat s).

Definition spec_isManifestURL (u : jsstring) : bool :=
  ends_with_ci (js ".m3u8") (before_query u).

Definition spec_isSubtitleURL (u : jsstring) : bool :=
  ends_with_ci (js ".vtt") (before_query u) ||
  ends_with_ci (js ".srt") (before_query u).

(** ** JavaScript [Set<string>]

    A [Set] keeps its elements in insertion order and [Array.from] lists
    them in that order; [add] of an element already present changes
    nothing. *)

Definition set_add (u : jsstring) (s : list jsstring) : list jsstring :=
  if bool_decide (u ∈ s) then s else s ++ [u].

Definition set_add_all (us : list jsstring) (s : list jsstring) : list jsstring :=
  foldl (fun acc u => set_add u acc) s us.

(** ** Network events *)

Record HTTPRequest : Type := {
  req_url : jsstring;
  req_resourceType : jsstring;
}.

(** The response handler runs inside [try { ... } catch {}]: [None] stands
    for an accessor that throws ([res.url()], resp. [res.request()] or
    the request's [url()]). *)
Record HTTPResponse : Type := {
  res_url : option jsstring;
  res_request_url : option jsstring;
}.

Inductive NetEvent : Type :=
| EvRequest (req : HTTPRequest)
| EvResponse (res : HTTPResponse).

(** ** Documents and frames

    A document is the list of its elements in document order; the content
    of an [iframe] is the document of another frame, not part of this
    list.  Names are those of an HTML document (lower case).  [src] is the
    reflected property, as the browser resolves it. *)

Record Element : Type := {
  localName : jsstring;
  attributes : list (jsstring * jsstring);
  src : jsstring;
}.

Record Frame : Type := {
  frame_id : nat;
  document : list Element;
}.

Record Page : Type := {
  mainFrame : Frame;
  childFrames : list Frame;
}.

(** [page.frames()]: the main frame first, then every nested frame. *)
Definition frames (p : Page) : list Frame := mainFrame p :: childFrames p.

Definition getAttribute (name : jsstring) (el : Element) : option jsstring :=
  snd <$> find (fun kv => bool_decide (fst kv = name)) (attributes el).

(** JavaScript [a || b] on values that are a string or [null]. *)
Definition js_or (a b : option jsstring) : option jsstring :=
  match a with
  | Some (_ :: _) => a
  | _ => b
  end.

(** White space and line terminators of ECMA-262, which [trim] strips. *)
Definition is_space (c : N) : bool :=
  bool_decide (c ∈ [9; 10; 11; 12; 13; 32; 160; 5760; 8232; 8233; 8239; 8287;
                     12288; 65279])
  || ((8192 <=? c) && (c <=? 8202)).

Fixpoint trim_start (s : jsstring) : jsstring :=
  match s with
  | [] => []
  | c :: s' => if is_space c then trim_start s' else s
  end.

Definition trim (s : jsstring) : jsstring :=
  rev (trim_start (rev (trim_start s))).

(** [track[kind='subtitles'][src]] *)
Definition is_subtitle_track (el : Element) : bool :=
  bool_decide (localName el = js "track")
  && bool_decide (getAttribute (js "kind") el = Some (js "subtitles"))
  && bool_decide (is_Some (getAttribute (js "src") el)).

(** [[data-track],[data-subtitle]] *)
Definition has_data_track (el : Element) : bool :=
  bool_decide (is_Some (getAttribute (js "data-track") el))
  || bool_decide (is_Some (getAttribute (js "data-subtitle") el)).

Definition data_track_value (el : Element) : jsstring :=
  trim (default [] (js_or (js_or (getAttribute (js "data-track") el)
                                 (getAttribute (js "data-subtitle") el))
                          (Some []))).

(** The script that [scrapeProviderWithSubtitles] hands to [page.evaluate],
    run on a [document]. *)
Definition dom_subtitle_script (doc : list Element) : list jsstring :=
  let urls : list jsstring := [] in
  let urls :=
    foldl (fun urls t => let u := src t in
                         if bool_decide (u = []) then urls else set_add u urls)
          urls (filter (fun el => is_subtitle_track el = true) doc) in
  let urls :=
    foldl (fun urls el => let u := data_track_value el in
                          if bool_decide (u = []) then urls else set_add u urls)
          urls (filter (fun el => has_data_track el = true) doc) in
  urls.

(** ** The browser as an oracle

    The [n]-th awaited operation of a call receives the [n]-th reply: the
    network events the page emits while the operation is pending, the time
    it takes beyond any timer it waits for, whether the driver rejects it,
    the page as it stands, and whether a selector lookup finds an
    element. *)

Record Reply : Type := {
  traffic : list NetEvent;
  lag : N;
  rejects : bool;
  page_state : Page;
  found : bool;
}.

Definition World : Type := nat -> Reply.

Inductive DriverOp : Type :=
| OpLaunch (headless : bool) (args : list string)
| OpNewPage
| OpSetViewport (width height deviceScaleFactor : N)
| OpSetUserAgent (ua : string)
| OpSetDefaultNavigationTimeout (ms : N)
| OpSetDefaultTimeout (ms : N)
| OpSetRequestInterception (on : bool)
| OpGoto (url : jsstring) (waitUntil : string) (timeout : N)
| OpQuery (frame : nat) (sel : string)
| OpClick (frame : nat) (sel : string) (delay : N)
| OpEvaluateAutoplay (frame : nat)
| OpEvaluateDomSubs
| OpClose.

(** What a call does, in order. *)
Inductive Action : Type :=
| ACall (op : DriverOp)
| ADelay (ms : N)
| AFrames
| AAddM3U8 (url : jsstring)
| AAddSub (url : jsstring)
| AAbort (url : jsstring)
| AContinue (url : jsstring).

(** The variables of one scrape call ([browser], the two sets, whether the
    collectors are attached), the clock, the number of replies consumed
    and the log of actions. *)
Record St : Type := {
  tick : nat;
  clock : Z;
  browser : bool;
  attached : bool;
  m3u8Urls : list jsstring;
  subUrls : list jsstring;
  log : list Action;
}.

Definition do_log (a : Action) (st : St) : St :=
  {| tick := tick st; clock := clock st; browser := browser st;
     attached := attached st; m3u8Urls := m3u8Urls st; subUrls := subUrls st;
     log := log st ++ [a] |}.

Definition add_m3u8 (url : jsstring) (st : St) : St :=
  {| tick := tick st; clock := clock st; browser := browser st;
     attached := attached st; m3u8Urls := set_add url (m3u8Urls st);
     subUrls := subUrls st; log := log st ++ [AAddM3U8 url] |}.

Definition add_sub (url : jsstring) (st : St) : St :=
  {| tick := tick st; clock := clock st; browser := browser st;
     attached := attached st; m3u8Urls := m3u8Urls st;
     subUrls := set_add url (subUrls st); log := log st ++ [AAddSub url] |}.

Definition pass (elapsed : Z) (st : St) : St :=
  {| tick := S (tick st); clock := (clock st + elapsed)%Z; browser := browser st;
     attached := attached st; m3u8Urls := m3u8Urls st; subUrls := subUrls st;
     log := log st |}.

Definition set_browser (st : St) : St :=
  {| tick := tick st; clock := clock st; browser := true;
     attached := attached st; m3u8Urls := m3u8Urls st; subUrls := subUrls st;
     log := log st |}.

Definition set_attached (st : St) : St :=
  {| tick := tick st; clock := clock st; browser := browser st;
     attached := true; m3u8Urls := m3u8Urls st; subUrls := subUrls st;
     log := log st |}.

(** [let browser = null; const m3u8Urls = new Set(); const subUrls = new
    Set()] at time [t0]. *)
Definition fresh (t0 : Z) : St :=
  {| tick := 0; clock := t0; browser := false; attached := false;
     m3u8Urls := []; subUrls := []; log := [] |}.

(** ** The traffic collector *)

Definition classify (url : jsstring) (st : St) : St :=
  let st := if isM3U8 url then add_m3u8 url st else st in
  if isSubtitle url then add_sub url st else st.

(** The ["request"] handler.  [.catch(() => {})] discards a rejection of
    [abort()] or [continue()]. *)
Definition on_request (req : HTTPRequest) (st : St) : St :=
  let url := req_url req in
  let st := classify url st in
  if isHeavyResource (req_resourceType req)
  then do_log (AAbort url) st
  else do_log (AContinue url) st.

(** The ["response"] handler: what was added before an accessor throws
    stays. *)
Definition on_response (res : HTTPResponse) (st : St) : St :=
  match res_url res with
  | None => st
  | Some url =>
      let st := classify url st in
      match res_request_url res with
      | None => st
      | Some reqUrl => classify reqUrl st
      end
  end.

Definition handle (e : NetEvent) (st : St) : St :=
  match e with
  | EvRequest req => on_request req st
  | EvResponse res => on_response res st
  end.

(** Events reach the handlers once [attachNetworkCollectors] has run. *)
Definition deliver (evs : list NetEvent) (st : St) : St :=
  if attached st then foldl (fun st e => handle e st) st evs else st.

(** ** The monad of a scrape call

    A computation reads the world, updates the state and returns, throws
    (the rejected driver operation is the exception), or runs out of the
    fuel given to its polling loop. *)

Inductive result (A : Type) : Type :=
| Returns (a : A)
| Throws (op : DriverOp)
| OutOfFuel.

Arguments Returns {A} a.
Arguments Throws {A} op.
Arguments OutOfFuel {A}.

Definition M (A : Type) : Type := World -> St -> result A * St.

Definition ret {A} (a : A) : M A := fun _ st => (Returns a, st).

Definition bind {A B} (m : M A) (k : A -> M B) : M B :=
  fun w st =>
    match m w st with
    | (Returns a, st') => k a w st'
    | (Throws op, st') => (Throws op, st')
    | (OutOfFuel, st') => (OutOfFuel, st')
    end.

Notation "'let*' x ':=' m 'in' k" := (bind m (fun x => k))
  (at level 10, x name, m at level 200, k at level 200, only parsing).
Notation "m >> k" := (bind m (fun _ => k))
  (at level 100, k at level 200, right associativity, only parsing).

(** [try { m } catch { h }] *)
Definition try_catch {A} (m : M A) (h : M A) : M A :=
  fun w st =>
    match m w st with
    | (Throws _, st') => h w st'
    | r => r
    end.

(** [try { m } finally { c }]: [c] runs however [m] ends, and an exception
    of [c] replaces the outcome of [m]. *)
Definition try_finally {A} (m : M A) (c : M unit) : M A :=
  fun w st =>
    match m w st with
    | (OutOfFuel, st') => (OutOfFuel, st')
    | (r, st') =>
        match c w st' with
        | (Returns _, st'') => (r, st'')
        | (Throws op, st'') => (Throws op, st'')
        | (OutOfFuel, st'') => (OutOfFuel, st'')
        end
    end.

Definition gets {A} (f : St -> A) : M A := fun _ st => (Returns (f st), st).

Definition modify (f : St -> St) : M unit := fun _ st => (Returns tt, f st).

(** An awaited driver call: it is logged, takes its time, the page's
    traffic reaches the handlers meanwhile, and then it answers or
    rejects. *)
Definition await_call (op : DriverOp) : M Reply :=
  fun w st =>
    let r := w (tick st) in
    let st' := deliver (traffic r) (pass (Z.of_N (lag r)) (do_log (ACall op) st)) in
    (if rejects r then Throws op else Returns r, st').

(** [const delay = (ms) => new Promise((res) => setTimeout(res, ms))]: the
    timer fires no sooner than after [ms] milliseconds and never
    rejects. *)
Definition delay (ms : N) : M unit :=
  fun w st =>
    let r := w (tick st) in
    (Returns tt,
     deliver (traffic r) (pass (Z.of_N ms + Z.of_N (lag r)) (do_log (ADelay ms) st))).

(** [Date.now()] *)
Definition Date_now : M Z := gets clock.

(** [page.frames()], synchronous. *)
Definition page_frames : M (list Frame) :=
  fun w st => (Returns (frames (page_state (w (tick st)))), do_log AFrames st).

Fixpoint for_each {A} (l : list A) (body : A -> M unit) : M unit :=
  match l with
  | [] => ret tt
  | x :: l' => body x >> for_each l' body
  end.

(** ** [scraper.ts] *)

Definition attachNetworkCollectors : M unit := modify set_attached.

Definition userAgent : string :=
  "Mozilla/5.0 (Windows NT 10.0; Win64; x64) AppleWebKit/537.36 (KHTML, like Gecko) Chrome/124.0.0.0 Safari/537.36".

Definition createPage : M unit :=
  await_call OpNewPage >>
  await_call (OpSetViewport 1366 768 1) >>
  await_call (OpSetUserAgent userAgent) >>
  await_call (OpSetDefaultNavigationTimeout 30000) >>
  await_call (OpSetDefaultTimeout 30000) >>
  await_call (OpSetRequestInterception true) >>
  ret tt.

(** Whether a frame that was enumerated earlier is still in the page. *)
Definition attached_frame (p : Page) (frame : Frame) : bool :=
  bool_decide (frame_id frame ∈ map frame_id (frames p)).

(** [frame.$(sel).catch(() => null)].  Puppeteer's [Frame.$] checks the
    frame before it starts the lookup: on a frame that has left the page
    it throws at once, before there is a promise.  No [.catch] is attached
    then, no call reaches the driver, and the exception leaves the caller.
    On an attached frame the lookup is awaited, and [.catch] turns its
    rejection into [null]. *)
Definition frame_query (frame : Frame) (sel : string) : M bool :=
  fun w st =>
    if attached_frame (page_state (w (tick st))) frame
    then try_catch (let* r := await_call (OpQuery (frame_id frame) sel) in ret (found r))
                   (ret false) w st
    else (Throws (OpQuery (frame_id frame) sel), st).

Fixpoint tryClickSelectors (frame : Frame) (selectors : list string) : M bool :=
  match selectors with
  | [] => ret false
  | sel :: rest =>
      let* el := frame_query frame sel in
      if negb el then tryClickSelectors frame rest
      else
        let* clicked :=
          try_catch (await_call (OpClick (frame_id frame) sel 50) >> ret true)
                    (ret false) in
        if clicked then ret true else tryClickSelectors frame rest
  end.

Definition closeSelectors : list string :=
  [ "[class*=close]";
    ".vjs-modal-dialog-close-button";
    ".jw-icon-close";
    ".x-close,.btn-close";
    "[aria-label*=Close i]" ]%string.

Definition tryCloseOverlays (frame : Frame) : M unit :=
  tryClickSelectors frame closeSelectors >> ret tt.

(** [frame.evaluate] of the autoplay script.  Like [Frame.$] it throws at
    once on a frame that has left the page, without a call to the driver. *)
Definition frame_evaluate_autoplay (frame : Frame) : M Reply :=
  fun w st =>
    if attached_frame (page_state (w (tick st))) frame
    then await_call (OpEvaluateAutoplay (frame_id frame)) w st
    else (Throws (OpEvaluateAutoplay (frame_id frame)), st).

(** Here [try ... catch] encloses the call itself: what it throws at once
    is handled like its rejection. *)
Definition tryAutoplay (frame : Frame) : M unit :=
  try_catch (frame_evaluate_autoplay frame >> ret tt) (ret tt).

Definition playSelectors : list string :=
  [ "button[aria-label*=Play i]";
    ".vjs-big-play-button";
    "button.jw-icon.jw-icon-display";
    "button[title*=Play i]";
    "[class*=play]";
    "button, .btn, [role=button]" ]%string.

Definition tryPlay (frame : Frame) : M unit :=
  tryClickSelectors frame playSelectors >>
  tryAutoplay frame.

Definition tryInteractAllFrames : M unit :=
  let* fs := page_frames in
  for_each fs (fun f => tryCloseOverlays f >> tryPlay f).

Definition launchArgs : list string :=
  [ "--no-sandbox";
    "--disable-setuid-sandbox";
    "--autoplay-policy=no-user-gesture-required";
    "--mute-audio";
    "--ignore-certificate-errors";
    "--allow-running-insecure-content" ]%string.

Definition PASSIVE_WAIT_MS : N := 6000.
Definition CLICK_WAIT_MS : N := 8000.

Definition launch : M unit :=
  await_call (OpLaunch true launchArgs) >> modify set_browser.

Definition goto (targetUrl : jsstring) : M unit :=
  await_call (OpGoto targetUrl "domcontentloaded" 30000) >> ret tt.

(** [while (Date.now() - start < 5000) { if (m3u8Urls.size > 0) break;
    await delay(250); }], with one unit of fuel per iteration. *)
Fixpoint poll (fuel : nat) (start : Z) : M unit :=
  match fuel with
  | O => fun _ st => (OutOfFuel, st)
  | S fuel' =>
      let* now := Date_now in
      if (now - start <? 5000)%Z then
        let* size := gets (fun st => length (m3u8Urls st)) in
        if (0 <? size)%nat then ret tt
        else delay 250 >> poll fuel' start
      else ret tt
  end.

(** [finally { try { await browser?.close(); } catch {} }] *)
Definition teardown : M unit :=
  try_catch
    (let* b := gets browser in
     if b then await_call OpClose >> ret tt else ret tt)
    (ret tt).

(** The [try] block of [scrapeProvider]. *)
Definition scrapeProvider_try (fuel : nat) (targetUrl : jsstring) : M (list jsstring) :=
  launch >>
  createPage >>
  attachNetworkCollectors >>
  goto targetUrl >>
  delay PASSIVE_WAIT_MS >>
  let* size := gets (fun st => length (m3u8Urls st)) in
  if (0 <? size)%nat then gets m3u8Urls
  else
    tryInteractAllFrames >>
    delay CLICK_WAIT_MS >>
    let* size := gets (fun st => length (m3u8Urls st)) in
    if (0 <? size)%nat then gets m3u8Urls
    else
      tryInteractAllFrames >>
      let* start := Date_now in
      poll fuel start >>
      gets m3u8Urls.

Definition scrapeProvider (fuel : nat) (targetUrl : jsstring) : M (list jsstring) :=
  try_finally (scrapeProvider_try fuel targetUrl) teardown.

Record Subtitle : Type := {
  url : jsstring;
  label : option jsstring;
  lang : option jsstring;
}.

Record ScrapeResult : Type := {
  urls : list jsstring;
  subtitles : list Subtitle;
}.

(** [page.evaluate(script)] runs the script in the page's main frame. *)
Definition evaluate_dom_subtitles : M (list jsstring) :=
  let* r := await_call OpEvaluateDomSubs in
  ret (dom_subtitle_script (document (mainFrame (page_state r)))).

(** The [try] block of [scrapeProviderWithSubtitles]. *)
Definition scrapeProviderWithSubtitles_try (fuel : nat) (targetUrl : jsstring)
  : M ScrapeResult :=
  launch >>
  createPage >>
  attachNetworkCollectors >>
  goto targetUrl >>
  delay PASSIVE_WAIT_MS >>
  let* domSubs := evaluate_dom_subtitles in
  for_each domSubs (fun u => modify (add_sub u)) >>
  let* size := gets (fun st => length (m3u8Urls st)) in
  (if (size =? 0)%nat then
     tryInteractAllFrames >>
     delay CLICK_WAIT_MS
   else ret tt) >>
  let* size := gets (fun st => length (m3u8Urls st)) in
  (if (size =? 0)%nat then
     tryInteractAllFrames >>
     let* start := Date_now in
     poll fuel start
   else ret tt) >>
  let* subs := gets (fun st =>
                  map (fun u => {| url := u; label := None; lang := None |})
                      (subUrls st)) in
  let* m := gets m3u8Urls in
  ret {| urls := m; subtitles := subs |}.

Definition scrapeProviderWithSubtitles (fuel : nat) (targetUrl : jsstring)
  : M ScrapeResult :=
  try_finally (scrapeProviderWithSubtitles_try fuel targetUrl) teardown.

(** ** Concrete pages and worlds *)

Definition empty_page : Page :=
  {| mainFrame := {| frame_id := 0; document := [] |}; childFrames := [] |}.

Definition reply_on (p : Page) (evs : list NetEvent) (fails : bool) : Reply :=
  {| traffic := evs; lag := 0; rejects := fails; page_state := p; found := false |}.

(** A page on which nothing ever happens. *)
Definition world_silent : World := fun _ => reply_on empty_page [] false.

Definition manifest_request : HTTPRequest :=
  {| req_url := js "http://x/a.m3u8"; req_resourceType := js "media" |}.

(** A page that requests its manifest while it loads (reply 7 answers
    [page.goto]). *)
Definition world_autoplay : World :=
  fun n => if (n =? 7)%nat then reply_on empty_page [EvRequest manifest_request] false
           else reply_on empty_page [] false.

(** A page on which the injected subtitle scan is rejected (reply 9 answers
    [page.evaluate]). *)
Definition world_eval_fails : World :=
  fun n => reply_on empty_page [] (n =? 9)%nat.

Definition track_element (u : jsstring) : Element :=
  {| localName := js "track";
     attributes := [(js "kind", js "subtitles"); (js "src", u)];
     src := u |}.

(** A page whose only subtitle track sits in a nested frame. *)
Definition page_iframe_track : Page :=
  {| mainFrame := {| frame_id := 0; document := [] |};
     childFrames :=
       [ {| frame_id := 1; document := [track_element (js "http://x/cap.vtt")] |} ] |}.

Definition world_iframe_track : World := fun _ => reply_on page_iframe_track [] false.

(** The same track in the main frame. *)
Definition page_main_track : Page :=
  {| mainFrame := {| frame_id := 0; document := [track_element (js "http://x/cap.vtt")] |};
     childFrames := [] |}.

Definition world_main_track : World := fun _ => reply_on page_main_track [] false.

(** ** Vocabulary of the properties *)

(** What [classify] writes to the log. *)
Definition recorded (url : jsstring) : list Action :=
  (if isM3U8 url then [AAddM3U8 url] else []) ++
  (if isSubtitle url then [AAddSub url] else []).

(** What the request handler does with the request. *)
Definition decision (req : HTTPRequest) : Action :=
  if isHeavyResource (req_resourceType req)
  then AAbort (req_url req) else AContinue (req_url req).

(** The driver operations outside any [try ... catch]: launch, the session
    bootstrap and the navigation. *)
Definition fatal (op : DriverOp) : bool :=
  match op with
  | OpLaunch _ _ | OpNewPage | OpSetViewport _ _ _ | OpSetUserAgent _
  | OpSetDefaultNavigationTimeout _ | OpSetDefaultTimeout _
  | OpSetRequestInterception _ | OpGoto _ _ _ => true
  | _ => false
  end.

(** The actions of the traffic handlers. *)
Definition handler_action (a : Action) : bool :=
  match a with
  | AAddM3U8 _ | AAddSub _ | AAbort _ | AContinue _ => true
  | _ => false
  end.

(** The actions of the interaction engine. *)
Definition interaction (a : Action) : bool :=
  match a with
  | AFrames
  | ACall (OpQuery _ _) | ACall (OpClick _ _ _) | ACall (OpEvaluateAutoplay _) => true
  | _ => false
  end.

(** The stages of the escalation: the waits and the interaction rounds. *)
Definition stage (a : Action) : bool :=
  match a with
  | ADelay _ | AFrames => true
  | _ => false
  end.

Definition stages (l : list Action) : list Action :=
  filter (fun a => stage a = true) l.

(** The two sets as the insertions of a log build them. *)
Definition replay_m3u8 (l : list Action) (s : list jsstring) : list jsstring :=
  foldl (fun s a => match a with AAddM3U8 u => set_add u s | _ => s end) s l.

Definition replay_sub (l : list Action) (s : list jsstring) : list jsstring :=
  foldl (fun s a => match a with AAddSub u => set_add u s | _ => s end) s l.

(** The URLs a network event shows to the handlers. *)
Definition event_urls (e : NetEvent) : list jsstring :=
  match e with
  | EvRequest req => [req_url req]
  | EvResponse res =>
      match res_url res with
      | None => []
      | Some u => u :: match res_request_url res with None => [] | Some v => [v] end
      end
  end.

(** The stages of a call, named: what follows the launch up to the end of
    the passive wait, and the escalation after it. *)
Definition navigate (targetUrl : jsstring) : M unit :=
  createPage >>
  attachNetworkCollectors >>
  goto targetUrl >>
  delay PASSIVE_WAIT_MS.

Definition session_start (targetUrl : jsstring) : M unit :=
  launch >> navigate targetUrl.

Definition escalate (fuel : nat) : M (list jsstring) :=
  let* size := gets (fun st => length (m3u8Urls st)) in
  if (0 <? size)%nat then gets m3u8Urls
  else
    tryInteractAllFrames >>
    delay CLICK_WAIT_MS >>
    let* size := gets (fun st => length (m3u8Urls st)) in
    if (0 <? size)%nat then gets m3u8Urls
    else
      tryInteractAllFrames >>
      let* start := Date_now in
      poll fuel start >>
      gets m3u8Urls.

Definition escalate_with_subtitles (fuel : nat) : M ScrapeResult :=
  let* domSubs := evaluate_dom_subtitles in
  for_each domSubs (fun u => modify (add_sub u)) >>
  let* size := gets (fun st => length (m3u8Urls st)) in
  (if (size =? 0)%nat then
     tryInteractAllFrames >>
     delay CLICK_WAIT_MS
   else ret tt) >>
  let* size := gets (fun st => length (m3u8Urls st)) in
  (if (size =? 0)%nat then
     tryInteractAllFrames >>
     let* start := Date_now in
     poll fuel start
   else ret tt) >>
  let* subs := gets (fun st =>
                  map (fun u => {| url := u; label := None; lang := None |})
                      (subUrls st)) in
  let* m := gets m3u8Urls in
  ret {| urls := m; subtitles := subs |}.

(** The log grows by actions in [P]. *)
Definition log_grows (P : Action -> Prop) (st st' : St) : Prop :=
  exists l, log st' = log st ++ l /\ Forall P l.

(** The log grows, and its insertions are all that happened to the sets. *)
Definition sets_from_log (st st' : St) : Prop :=
  exists l, log st' = log st ++ l /\
            m3u8Urls st' = replay_m3u8 l (m3u8Urls st) /\
            subUrls st' = replay_sub l (subUrls st).

(** A world whose traffic shows no manifest URL. *)
Definition no_manifest_traffic (w : World) : Prop :=
  forall n e u, e ∈ traffic (w n) -> u ∈ event_urls e -> isM3U8 u = false.

(** Where a subtitle URL can come from in a world: the traffic, or the
    scan of a main frame's document. *)
Definition seen_on_network (w : World) (u : jsstring) : Prop :=
  exists n e, e ∈ traffic (w n) /\ u ∈ event_urls e /\ isSubtitle u = true.

Definition found_in_main_document (w : World) (u : jsstring) : Prop :=
  exists n, u ∈ dom_subtitle_script (document (mainFrame (page_state (w n)))).

(** Relations between the state before and after a step. *)
Definition stays_empty (st st' : St) : Prop :=
  m3u8Urls st = [] -> m3u8Urls st' = [].

Definition browser_kept (st st' : St) : Prop :=
  browser st = true -> browser st' = true.

Definition subtitle_origin (w : World) (st st' : St) : Prop :=
  forall u, u ∈ subUrls st' ->
            u ∈ subUrls st \/ seen_on_network w u \/ found_in_main_document w u.

Definition both (R1 R2 : St -> St -> Prop) (st st' : St) : Prop :=
  R1 st st' /\ R2 st st'.

(** [m] only ever inserts into the two sets: what it appends to the log
    accounts for the sets it leaves, and the sets at any point of that log
    are a prefix, in insertion order, of the sets at any later point. *)
Definition append_only {A} (m : M A) : Prop :=
  forall w st,
    let st' := snd (m w st) in
    exists l,
      log st' = log st ++ l /\
      m3u8Urls st' = replay_m3u8 l (m3u8Urls st) /\
      subUrls st' = replay_sub l (subUrls st) /\
      forall l1 l2 l3, l = l1 ++ l2 ++ l3 ->
        replay_m3u8 l1 (m3u8Urls st) `prefix_of` replay_m3u8 (l1 ++ l2) (m3u8Urls st) /\
        replay_sub l1 (subUrls st) `prefix_of` replay_sub (l1 ++ l2) (subUrls st) /\
        (length (replay_m3u8 l1 (m3u8Urls st))
         <= length (replay_m3u8 (l1 ++ l2) (m3u8Urls st)))%nat /\
        (length (replay_sub l1 (subUrls st))
         <= length (replay_sub (l1 ++ l2) (subUrls st)))%nat.

(** How a call that launched a session ends: with the outcome of its [try]
    block, which is not an exception of [browser.close()], and with
    exactly one [browser.close()] in the log, after which only the traffic
    handlers act. *)
Definition torn_down {A} (call : result A * St) (tried : result A) : Prop :=
  fst call = tried /\
  fst call <> OutOfFuel /\
  fst call <> Throws OpClose /\
  exists l1 l2,
    log (snd call) = l1 ++ ACall OpClose :: l2 /\
    (ACall OpClose ∉ l1) /\
    Forall (fun a => handler_action a = true) l2.

(** How a computation may end: by returning, by an exception in [E], or
    without fuel if [F]. *)
Definition outcome_ok {A} (E : DriverOp -> Prop) (F : Prop) (r : result A) : Prop :=
  match r with
  | Returns _ => True
  | Throws op => E op
  | OutOfFuel => F
  end.

(** [keeps w R E F m]: in the world [w] and from every state, [m] ends as
    [E] and [F] allow, in a state related to the initial one by [R]. *)
Definition keeps {A} (w : World) (R : St -> St -> Prop)
    (E : DriverOp -> Prop) (F : Prop) (m : M A) : Prop :=
  forall st, R st (snd (m w st)) /\ outcome_ok E F (fst (m w st)).

(** [R] is a preorder that the primitive steps whose action is in [C]
    respect. *)
Class Stable (w : World) (C : Action -> Prop) (R : St -> St -> Prop) : Prop := {
  stable_refl : forall st, R st st;
  stable_trans : forall st1 st2 st3, R st1 st2 -> R st2 st3 -> R st1 st3;
  stable_call : forall op st, C (ACall op) -> R st (snd (await_call op w st));
  stable_delay : forall ms st, C (ADelay ms) -> R st (snd (delay ms w st));
  stable_frames : forall st, C AFrames -> R st (do_log AFrames st);
  stable_attach : forall st, R st (set_attached st);
  stable_browser : forall st, R st (set_browser st);
}.

(** ** Vocabulary of further properties *)

(** The driver calls of a log, in order. *)
Definition call_of (a : Action) : option DriverOp :=
  match a with
  | ACall op => Some op
  | _ => None
  end.

Definition calls (l : list Action) : list DriverOp := omap call_of l.

(** The selectors that a log looks up, and the frames in which it injects
    the autoplay script. *)
Definition queried (op : DriverOp) : option string :=
  match op with
  | OpQuery _ sel => Some sel
  | _ => None
  end.

Definition autoplayed (op : DriverOp) : option nat :=
  match op with
  | OpEvaluateAutoplay f => Some f
  | _ => None
  end.

(** The frames in which a log injects the autoplay script, in order. *)
Definition injections (l : list Action) : list nat := omap autoplayed (calls l).

(** The calls of [tryClickSelectors] in a frame. *)
Definition click_call (f : nat) (op : DriverOp) : Prop :=
  match op with
  | OpQuery f' _ => f' = f
  | OpClick f' _ d => f' = f /\ d = 50
  | _ => False
  end.

(** [u] is in an event of the traffic of a reply [n] with [lo <= n < hi]. *)
Definition shown (w : World) (lo hi : nat) (u : jsstring) : Prop :=
  exists n e, (lo <= n < hi)%nat /\ e ∈ traffic (w n) /\ u ∈ event_urls e.

(** Launch, bootstrap and registration of the handlers. *)
Definition bootstrap : M unit :=
  launch >> createPage >> attachNetworkCollectors.

(** What follows the subtitle scan in [scrapeProviderWithSubtitles]. *)
Definition escalate_after_scan (fuel : nat) : M ScrapeResult :=
  let* size := gets (fun st => length (m3u8Urls st)) in
  (if (size =? 0)%nat then
     tryInteractAllFrames >>
     delay CLICK_WAIT_MS
   else ret tt) >>
  let* size := gets (fun st => length (m3u8Urls st)) in
  (if (size =? 0)%nat then
     tryInteractAllFrames >>
     let* start := Date_now in
     poll fuel start
   else ret tt) >>
  let* subs := gets (fun st =>
                  map (fun u => {| url := u; label := None; lang := None |})
                      (subUrls st)) in
  let* m := gets m3u8Urls in
  ret {| urls := m; subtitles := subs |}.

(** One step of a scan that collects the non-empty values of [f]. *)
Definition collect_step {A} (f : A -> jsstring) (urls : list jsstring) (x : A)
  : list jsstring :=
  let u := f x in if bool_decide (u = []) then urls else set_add u urls.

(** The sets record the traffic exactly: nothing leaves them, what enters
    them is a classified URL of the traffic in between (or, for the
    subtitle set, a URL in [D]), and once the handlers are attached every
    classified URL of the traffic enters. *)
Definition records_exactly (w : World) (D : jsstring -> Prop) (st st' : St) : Prop :=
  (tick st <= tick st')%nat /\
  (attached st = true -> attached st' = true) /\
  (forall u, u ∈ m3u8Urls st -> u ∈ m3u8Urls st') /\
  (forall u, u ∈ subUrls st -> u ∈ subUrls st') /\
  (forall u, u ∈ m3u8Urls st' ->
             u ∈ m3u8Urls st \/ (isM3U8 u = true /\ shown w (tick st) (tick st') u)) /\
  (forall u, u ∈ subUrls st' ->
             u ∈ subUrls st \/ (isSubtitle u = true /\ shown w (tick st) (tick st') u)
             \/ D u) /\
  (attached st = true ->
   forall u, shown w (tick st) (tick st') u ->
             (isM3U8 u = true -> u ∈ m3u8Urls st') /\
             (isSubtitle u = true -> u ∈ subUrls st')).

(** Neither set holds an element twice. *)
Definition no_duplicates (st st' : St) : Prop :=
  (NoDup (m3u8Urls st) -> NoDup (m3u8Urls st')) /\
  (NoDup (subUrls st) -> NoDup (subUrls st')).

(** Time and replies only go forward. *)
Definition later (st st' : St) : Prop :=
  (clock st <= clock st')%Z /\ (tick st <= tick st')%nat.

(** A world in which no browser can be launched. *)
Definition world_no_browser : World := fun _ => reply_on empty_page [] true.

(** A world in which the navigation is rejected (reply 7 answers
    [page.goto]). *)
Definition world_unreachable : World :=
  fun n => reply_on empty_page [] (n =? 7)%nat.

(** A page with a subtitle request while it loads and a track in its main
    frame. *)
Definition subtitle_request : HTTPRequest :=
  {| req_url := js "http://x/en.vtt"; req_resourceType := js "xhr" |}.

Definition world_subtitles : World :=
  fun n => if (n =? 7)%nat
           then reply_on page_main_track
                  [EvRequest subtitle_request; EvRequest manifest_request] false
           else reply_on page_main_track [] false.

(** A page that requests its manifest during every reply, the bootstrap
    included. *)
Definition world_eager : World :=
  fun _ => reply_on empty_page [EvRequest manifest_request] false.

(** No frame ever leaves the page: a frame of one reply is still there at
    every later reply. *)
Definition frames_stay (w : World) : Prop :=
  forall n m f, (n <= m)%nat -> f ∈ frames (page_state (w n)) ->
                attached_frame (page_state (w m)) f = true.

(** A page without manifest that removes its nested frame: the frame is
    there during the load and the passive wait and when the interaction
    round begins (reply 9), and gone from reply 10 on. *)
Definition world_iframe_removed : World :=
  fun n => reply_on (if (n <? 10)%nat then page_iframe_track else empty_page) [] false.

(** The driver calls of launch and bootstrap. *)
Definition bootstrap_calls : list Action :=
  [ ACall (OpLaunch true launchArgs);
    ACall OpNewPage;
    ACall (OpSetViewport 1366 768 1);
    ACall (OpSetUserAgent userAgent);
    ACall (OpSetDefaultNavigationTimeout 30000);
    ACall (OpSetDefaultTimeout 30000);
    ACall (OpSetRequestInterception true) ].

(** * Properties *)

(** ** The classifiers *)

Section Regex.

Lemma canon_eq_query c : canon_eq 63 c = true <-> c = 63.
Proof.
  unfold canon_eq, upper_ascii.
  change ((97 <=? 63) && (63 <=? 122)) with false; cbv iota.
  rewrite andb_true_iff, N.ltb_lt, N.eqb_eq.
  destruct (N.leb_spec 97 c), (N.leb_spec c 122); simpl; lia.
Qed.

Lemma rmatch_lit w : forall s k,
  rmatch (lit w) s k = true <->
  exists s1 s2, s = s1 ++ s2 /\ ci_eqb w s1 = true /\ k s2 = true.
Proof.
  induction w as [|p w IH]; intros s k; simpl.
  - split.
    + intros Hk. exists [], s. auto.
    + intros (s1 & s2 & -> & H1 & H2). destruct s1; [assumption | discriminate].
  - destruct s as [|c s].
    + split; [discriminate |].
      intros (s1 & s2 & Hs & H1 & _). destruct s1; discriminate.
    + rewrite andb_true_iff, IH. split.
      * intros (Hc & s1 & s2 & -> & H1 & H2).
        exists (c :: s1), s2. simpl. rewrite Hc, H1. auto.
      * intros (s1 & s2 & Hs & H1 & H2).
        destruct s1 as [|c' s1]; [discriminate |].
        simpl in Hs. injection Hs as -> ->.
        simpl in H1. apply andb_true_iff in H1 as [Hc H1]. eauto 6.
Qed.

Lemma rmatch_query_or_end s :
  rmatch query_or_end s (fun _ => true) = true <->
  s = [] \/ exists s', s = 63 :: s'.
Proof.
  unfold query_or_end. simpl. destruct s as [|c s]; simpl.
  - split; auto.
  - rewrite orb_false_r, andb_true_r, canon_eq_query. split.
    + intros ->. right. eauto.
    + intros [? | [s' Hs]]; [discriminate | congruence].
Qed.

Lemma regex_test_spec r s :
  regex_test r s = true <->
  exists p q, s = p ++ q /\ rmatch r q (fun _ => true) = true.
Proof.
  induction s as [|c s IH]; simpl.
  - rewrite orb_false_r. split.
    + intros H. exists [], []. auto.
    + intros (p & q & Hs & H). symmetry in Hs.
      apply app_eq_nil in Hs as [-> ->]. assumption.
  - rewrite orb_true_iff, IH. split.
    + intros [H | (p & q & -> & H)].
      * exists [], (c :: s). auto.
      * exists (c :: p), q. auto.
    + intros (p & q & Hs & H). destruct p as [|c' p]; simpl in Hs.
      * left. subst q. assumption.
      * right. injection Hs as -> ->. eauto.
Qed.

Lemma ci_eqb_length w : forall s, ci_eqb w s = true -> length s = length w.
Proof.
  induction w as [|p w IH]; intros [|c s]; simpl; try discriminate; auto.
  intros H. apply andb_true_iff in H as [_ H]. f_equal. auto.
Qed.

Lemma ends_with_ci_spec w s :
  ends_with_ci w s = true <-> exists a b, s = a ++ b /\ ci_eqb w b = true.
Proof.
  unfold ends_with_ci. split.
  - intros H. exists (take (length s - length w) s), (drop (length s - length w) s).
    split; [symmetry; apply take_drop | assumption].
  - intros (a & b & -> & H).
    pose proof (ci_eqb_length _ _ H) as Hl.
    rewrite length_app, Hl.
    replace (length a + length w - length w)%nat with (length a) by lia.
    rewrite drop_app_length. assumption.
Qed.

(** A literal followed by [(\?|$)]: some part of the input that stops at
    its end or just before a [?] ends with the literal. *)
Lemma test_lit_query_or_end w u :
  regex_test (RSeq (lit w) query_or_end) u = true <->
  exists p q, u = p ++ q /\ ends_with_ci w p = true /\
              (q = [] \/ exists q', q = 63 :: q').
Proof.
  rewrite regex_test_spec. split.
  - intros (p & q & -> & H). simpl in H.
    apply rmatch_lit in H as (s1 & s2 & -> & H1 & H2).
    apply rmatch_query_or_end in H2.
    exists (p ++ s1), s2. rewrite <- (assoc_L (++)). split; [reflexivity |].
    split; [| assumption]. apply ends_with_ci_spec. eauto.
  - intros (p & q & -> & H & Hq).
    apply ends_with_ci_spec in H as (a & b & -> & Hb).
    exists a, (b ++ q). rewrite <- (assoc_L (++)). split; [reflexivity |].
    simpl. apply rmatch_lit. exists b, q. split; [reflexivity |].
    split; [assumption |]. apply rmatch_query_or_end. assumption.
Qed.

Lemma regex_test_alt r r1 r2 :
  (forall s, rmatch r s (fun _ => true) =
             rmatch r1 s (fun _ => true) || rmatch r2 s (fun _ => true)) ->
  forall s, regex_test r s = regex_test r1 s || regex_test r2 s.
Proof.
  intros H. induction s as [|c s IH]; simpl; rewrite H.
  - destruct (rmatch r1 _ _), (rmatch r2 _ _); reflexivity.
  - rewrite IH.
    destruct (rmatch r1 _ _), (rmatch r2 _ _), (regex_test r1 s), (regex_test r2 s);
      reflexivity.
Qed.

Lemma isSubtitle_alt u :
  isSubtitle u =
  regex_test (RSeq (lit (js ".vtt")) query_or_end) u
  || regex_test (RSeq (lit (js ".srt")) query_or_end) u.
Proof.
  unfold isSubtitle. apply regex_test_alt. intros [|c s]; [reflexivity |].
  cbn [rmatch re_subtitle js lit map String.list_ascii_of_string].
  rewrite <- andb_orb_distrib_r. reflexivity.
Qed.

Lemma before_query_split u :
  exists q, u = before_query u ++ q /\ (q = [] \/ exists q', q = 63 :: q').
Proof.
  induction u as [|c u (q & IH & Hq)]; simpl.
  - exists []. auto.
  - destruct (N.eqb_spec c 63) as [-> | Hc].
    + exists (63 :: u). split; [reflexivity |]. right. eauto.
    + exists q. split; [simpl; congruence | assumption].
Qed.

End Regex.

(** C2 (as the claim states it, refuted): [isM3U8] accepts a URL whose
    path, the part before the query string, does not end in [.m3u8]. *)
Lemma isM3U8_not_path_suffix :
  isM3U8 (js "http://x/a.srt?f=.m3u8") = true /\
  spec_isManifestURL (js "http://x/a.srt?f=.m3u8") = false /\
  before_query (js "http://x/a.srt?f=.m3u8") = js "http://x/a.srt".
Proof. repeat split; reflexivity. Qed.

(** C2 (amended): [isM3U8 u] holds exactly when the whole of [u], or a part
    of [u] that stops just before some [?] (not only the first), ends in
    [.m3u8] up to ASCII case.  It holds whenever the part before the first
    [?] does, it holds of ["http://x/a.M3U8?t=1"] and not of
    ["http://x/a.m3u8x"]. *)
Theorem isM3U8_characterisation :
  (forall u, isM3U8 u = true <->
             exists p q, u = p ++ q /\ ends_with_ci (js ".m3u8") p = true /\
                         (q = [] \/ exists q', q = 63 :: q'))
  /\ (forall u, implb (spec_isManifestURL u) (isM3U8 u) = true)
  /\ isM3U8 (js "http://x/a.M3U8?t=1") = true
  /\ isM3U8 (js "http://x/a.m3u8x") = false.
Proof.
  split; [| split; [| split; reflexivity]].
  - intros u. apply test_lit_query_or_end.
  - intros u. destruct (spec_isManifestURL u) eqn:Hs; [simpl | reflexivity].
    apply test_lit_query_or_end.
    destruct (before_query_split u) as (q & Hu & Hq).
    exists (before_query u), q. auto.
Qed.

(** C8 (as the claim states it, refuted): [isSubtitle] accepts a URL whose
    path ends in neither [.vtt] nor [.srt]. *)
Lemma isSubtitle_not_path_suffix :
  isSubtitle (js "http://x/a.m3u8?f=.srt") = true /\
  spec_isSubtitleURL (js "http://x/a.m3u8?f=.srt") = false /\
  before_query (js "http://x/a.m3u8?f=.srt") = js "http://x/a.m3u8".
Proof. repeat split; reflexivity. Qed.

(** C8 (amended): [isSubtitle u] holds exactly when the whole of [u], or a
    part of [u] that stops just before some [?] (not only the first), ends
    in [.vtt] or [.srt] up to ASCII case.  It holds whenever the part
    before the first [?] does, it holds of ["http://x/s.srt"] and not of
    ["http://x/s.srts"]. *)
Theorem isSubtitle_characterisation :
  (forall u, isSubtitle u = true <->
             exists p q, u = p ++ q /\
                         (ends_with_ci (js ".vtt") p = true \/
                          ends_with_ci (js ".srt") p = true) /\
                         (q = [] \/ exists q', q = 63 :: q'))
  /\ (forall u, implb (spec_isSubtitleURL u) (isSubtitle u) = true)
  /\ isSubtitle (js "http://x/s.srt") = true
  /\ isSubtitle (js "http://x/s.srts") = false.
Proof.
  assert (Hchar : forall u, isSubtitle u = true <->
             exists p q, u = p ++ q /\
                         (ends_with_ci (js ".vtt") p = true \/
                          ends_with_ci (js ".srt") p = true) /\
                         (q = [] \/ exists q', q = 63 :: q')).
  { intros u. rewrite isSubtitle_alt, orb_true_iff, !test_lit_query_or_end. split.
    - intros [(p & q & Hu & H & Hq) | (p & q & Hu & H & Hq)]; exists p, q; auto.
    - intros (p & q & Hu & [H | H] & Hq); [left | right]; exists p, q; auto. }
  split; [exact Hchar | split; [| split; reflexivity]].
  intros u. destruct (spec_isSubtitleURL u) eqn:Hs; [simpl | reflexivity].
  apply Hchar. unfold spec_isSubtitleURL in Hs. apply orb_true_iff in Hs.
  destruct (before_query_split u) as (q & Hu & Hq).
  exists (before_query u), q. auto.
Qed.

(** ** Sets in insertion order *)

Lemma elem_of_set_add u v s : v ∈ set_add u s <-> v = u \/ v ∈ s.
Proof.
  unfold set_add. case_bool_decide as Hu.
  - split; [auto | intros [-> | ?]; assumption].
  - rewrite elem_of_app, list_elem_of_singleton. tauto.
Qed.

Lemma set_add_prefix u s : s `prefix_of` set_add u s.
Proof.
  unfold set_add. case_bool_decide; [reflexivity | apply prefix_app_r; reflexivity].
Qed.

Lemma set_add_NoDup u s : NoDup s -> NoDup (set_add u s).
Proof.
  unfold set_add. intros Hs. case_bool_decide as Hu; [assumption |].
  apply NoDup_app. split; [assumption |]. split; [| apply NoDup_singleton].
  intros x Hx Hx'. apply list_elem_of_singleton in Hx'. subst x. contradiction.
Qed.

Lemma set_add_idempotent u s : set_add u (set_add u s) = set_add u s.
Proof.
  unfold set_add at 1. rewrite bool_decide_eq_true_2; [reflexivity |].
  apply elem_of_set_add. auto.
Qed.

(** ** The request handler *)

Lemma classify_log url st : log (classify url st) = log st ++ recorded url.
Proof.
  unfold classify, recorded.
  destruct (isM3U8 url), (isSubtitle url); simpl;
    rewrite <- ?(assoc_L (++)), ?app_nil_r; reflexivity.
Qed.

Lemma classify_m3u8 url st :
  m3u8Urls (classify url st) =
  if isM3U8 url then set_add url (m3u8Urls st) else m3u8Urls st.
Proof. unfold classify. destruct (isM3U8 url), (isSubtitle url); reflexivity. Qed.

Lemma classify_sub url st :
  subUrls (classify url st) =
  if isSubtitle url then set_add url (subUrls st) else subUrls st.
Proof. unfold classify. destruct (isM3U8 url), (isSubtitle url); reflexivity. Qed.

Lemma on_request_log req st :
  log (on_request req st) = log st ++ recorded (req_url req) ++ [decision req].
Proof.
  unfold on_request, decision.
  destruct (isHeavyResource (req_resourceType req)); simpl;
    rewrite classify_log, <- (assoc_L (++)); reflexivity.
Qed.

Lemma on_request_m3u8 req st :
  m3u8Urls (on_request req st) = m3u8Urls (classify (req_url req) st).
Proof. unfold on_request. destruct (isHeavyResource _); reflexivity. Qed.

Lemma on_request_sub req st :
  subUrls (on_request req st) = subUrls (classify (req_url req) st).
Proof. unfold on_request. destruct (isHeavyResource _); reflexivity. Qed.

Lemma isHeavyResource_spec type :
  isHeavyResource type = true <->
  type = js "image" \/ type = js "stylesheet" \/ type = js "font" \/ type = js "media".
Proof.
  unfold isHeavyResource. rewrite bool_decide_eq_true.
  rewrite !elem_of_cons, elem_of_nil. tauto.
Qed.

(** C1: the request handler first records the URL (in the manifest set if
    it classifies as a manifest, in the subtitle set if it classifies as a
    subtitle) and only then decides: the log of one invocation is the
    insertions followed by exactly one decision, which is an abort for the
    heavy types [image], [stylesheet], [font] and [media] and a continue
    for every other type.  Whatever the decision, a classified URL is in
    its set afterwards. *)
Theorem request_recorded_before_decision (req : HTTPRequest) (st : St) :
  let url := req_url req in
  let st' := handle (EvRequest req) st in
  log st' = log st ++ recorded url ++ [decision req]
  /\ (if isM3U8 url then url ∈ m3u8Urls st' else m3u8Urls st' = m3u8Urls st)
  /\ (if isSubtitle url then url ∈ subUrls st' else subUrls st' = subUrls st)
  /\ (decision req = AAbort url <->
      req_resourceType req ∈ [js "image"; js "stylesheet"; js "font"; js "media"])
  /\ (decision req = AContinue url <->
      req_resourceType req ∉ [js "image"; js "stylesheet"; js "font"; js "media"]).
Proof.
  simpl. split; [apply on_request_log |].
  rewrite on_request_m3u8, on_request_sub, classify_m3u8, classify_sub.
  split; [| split].
  - destruct (isM3U8 _); [apply elem_of_set_add; auto | reflexivity].
  - destruct (isSubtitle _); [apply elem_of_set_add; auto | reflexivity].
  - unfold decision, isHeavyResource. case_bool_decide as Hh; split.
    + split; [intros _; assumption | reflexivity].
    + split; [discriminate | intros H; contradiction].
    + split; [discriminate | intros H; contradiction].
    + split; [intros _; assumption | reflexivity].
Qed.

(** C9: the classifiers overlap.  ["http://x/a.srt?f=.m3u8"] is both a
    manifest URL and a subtitle URL for them, and the request handler puts
    a request for it in both sets, whatever its resource type. *)
Theorem classifiers_overlap :
  let u := js "http://x/a.srt?f=.m3u8" in
  isM3U8 u = true /\ isSubtitle u = true /\
  forall (type : jsstring) (st : St),
    let st' := on_request {| req_url := u; req_resourceType := type |} st in
    u ∈ m3u8Urls st' /\ u ∈ subUrls st'.
Proof.
  split; [reflexivity | split; [reflexivity |]].
  intros type st. simpl.
  rewrite on_request_m3u8, on_request_sub, classify_m3u8, classify_sub.
  cbn [req_url].
  change (isM3U8 (js "http://x/a.srt?f=.m3u8")) with true.
  change (isSubtitle (js "http://x/a.srt?f=.m3u8")) with true.
  split; apply elem_of_set_add; auto.
Qed.

(** ** What the handlers leave alone *)

Lemma classify_frame url st :
  tick (classify url st) = tick st /\ clock (classify url st) = clock st /\
  browser (classify url st) = browser st /\ attached (classify url st) = attached st.
Proof. unfold classify. destruct (isM3U8 url), (isSubtitle url); simpl; auto. Qed.

Lemma handle_frame e st :
  tick (handle e st) = tick st /\ clock (handle e st) = clock st /\
  browser (handle e st) = browser st /\ attached (handle e st) = attached st.
Proof.
  destruct e as [req | res]; simpl.
  - unfold on_request. destruct (isHeavyResource _); simpl; apply classify_frame.
  - unfold on_response. destruct (res_url res) as [u |]; [| auto].
    destruct (res_request_url res) as [v |]; [| apply classify_frame].
    destruct (classify_frame v (classify u st)) as (-> & -> & -> & ->).
    apply classify_frame.
Qed.

Lemma deliver_frame evs st :
  tick (deliver evs st) = tick st /\ clock (deliver evs st) = clock st /\
  browser (deliver evs st) = browser st /\ attached (deliver evs st) = attached st.
Proof.
  unfold deliver. destruct (attached st) eqn:Ha; [| rewrite Ha; auto].
  rewrite <- Ha. clear Ha. revert st.
  induction evs as [|e evs IH]; intros st; simpl; [auto |].
  destruct (IH (handle e st)) as (-> & -> & -> & ->). apply handle_frame.
Qed.

(** ** A program logic for scrape calls *)

Lemma bind_returns {A B} (m : M A) (k : A -> M B) w st a st' :
  m w st = (Returns a, st') -> bind m k w st = k a w st'.
Proof. intros H. unfold bind. rewrite H. reflexivity. Qed.

Lemma bind_throws {A B} (m : M A) (k : A -> M B) w st op st' :
  m w st = (Throws op, st') -> bind m k w st = (Throws op, st').
Proof. intros H. unfold bind. rewrite H. reflexivity. Qed.

Lemma poll_S fuel start w st :
  poll (S fuel) start w st =
  if (clock st - start <? 5000)%Z then
    if (0 <? length (m3u8Urls st))%nat then (Returns tt, st)
    else poll fuel start w (snd (delay 250 w st))
  else (Returns tt, st).
Proof.
  cbn [poll]. unfold bind at 1. cbn [Date_now gets].
  destruct (clock st - start <? 5000)%Z; [| reflexivity].
  unfold bind at 1. cbn [gets].
  destruct (0 <? length (m3u8Urls st))%nat; reflexivity.
Qed.

Lemma delay_clock ms w st :
  clock (snd (delay ms w st)) =
  (clock st + (Z.of_N ms + Z.of_N (lag (w (tick st)))))%Z.
Proof.
  unfold delay. cbn [snd].
  destruct (deliver_frame (traffic (w (tick st)))
              (pass (Z.of_N ms + Z.of_N (lag (w (tick st)))) (do_log (ADelay ms) st)))
    as (_ & -> & _). reflexivity.
Qed.

Lemma bind_assoc {A B D} (m : M A) (f : A -> M B) (g : B -> M D) w st :
  bind (bind m f) g w st = bind m (fun x => bind (f x) g) w st.
Proof. unfold bind. destruct (m w st) as [[a | op |] st1]; reflexivity. Qed.

Lemma bind_cong {A B} (m : M A) (k k' : A -> M B) w st :
  (forall a st', k a w st' = k' a w st') -> bind m k w st = bind m k' w st.
Proof.
  intros H. unfold bind. destruct (m w st) as [[a | op |] st1]; [apply H | reflexivity ..].
Qed.

(** The [try] blocks, stage by stage. *)
Lemma scrapeProvider_try_split fuel targetUrl w st :
  scrapeProvider_try fuel targetUrl w st =
  (launch >> navigate targetUrl >> escalate fuel) w st.
Proof.
  unfold scrapeProvider_try, navigate, escalate.
  apply bind_cong; intros _ st1. rewrite bind_assoc.
  apply bind_cong; intros _ st2. rewrite bind_assoc.
  apply bind_cong; intros _ st3. rewrite bind_assoc.
  reflexivity.
Qed.

Lemma scrapeProviderWithSubtitles_try_split fuel targetUrl w st :
  scrapeProviderWithSubtitles_try fuel targetUrl w st =
  (launch >> navigate targetUrl >> escalate_with_subtitles fuel) w st.
Proof.
  unfold scrapeProviderWithSubtitles_try, navigate, escalate_with_subtitles.
  apply bind_cong; intros _ st1. rewrite bind_assoc.
  apply bind_cong; intros _ st2. rewrite bind_assoc.
  apply bind_cong; intros _ st3. rewrite bind_assoc.
  reflexivity.
Qed.

Section Logic.

Context (w : World) (C : Action -> Prop) (R : St -> St -> Prop) `{!Stable w C R}.
Context (F : Prop).

Hypothesis C_fatal : forall op, fatal op = true -> C (ACall op).
Hypothesis C_interaction : forall op, interaction (ACall op) = true -> C (ACall op).
Hypothesis C_frames : C AFrames.
Hypothesis C_evaluate : C (ACall OpEvaluateDomSubs).
Hypothesis C_close : C (ACall OpClose).
Hypothesis C_delay : forall ms, C (ADelay ms).

Lemma keeps_ret {A} E (a : A) : keeps w R E F (ret a).
Proof. intros st. split; [apply stable_refl | exact I]. Qed.

Lemma keeps_bind {A B} E (m : M A) (k : A -> M B) :
  keeps w R E F m -> (forall a, keeps w R E F (k a)) -> keeps w R E F (bind m k).
Proof.
  intros Hm Hk st. specialize (Hm st). unfold bind.
  destruct (m w st) as [[a | op |] st1]; cbn [fst snd] in Hm |- *; [| exact Hm ..].
  destruct (Hk a st1) as [H1 H2].
  split; [eapply stable_trans; [apply Hm | exact H1] | exact H2].
Qed.

Lemma keeps_bind_val {A B} E (V : A -> Prop) (m : M A) (k : A -> M B) :
  (forall st a st', m w st = (Returns a, st') -> V a) ->
  keeps w R E F m -> (forall a, V a -> keeps w R E F (k a)) ->
  keeps w R E F (bind m k).
Proof.
  intros HV Hm Hk st. specialize (Hm st). specialize (HV st). unfold bind.
  destruct (m w st) as [[a | op |] st1]; cbn [fst snd] in Hm |- *; [| exact Hm ..].
  destruct (Hk a (HV _ _ eq_refl) st1) as [H1 H2].
  split; [eapply stable_trans; [apply Hm | exact H1] | exact H2].
Qed.

Lemma keeps_weaken {A} (E E' : DriverOp -> Prop) (m : M A) :
  (forall op, E op -> E' op) -> keeps w R E F m -> keeps w R E' F m.
Proof.
  intros HE Hm st. destruct (Hm st) as [H1 H2]. split; [exact H1 |].
  destruct (fst (m w st)); simpl in *; auto.
Qed.

Lemma keeps_try_catch {A} E E' (m h : M A) :
  keeps w R E' F m -> keeps w R E F h -> keeps w R E F (try_catch m h).
Proof.
  intros Hm Hh st. specialize (Hm st). unfold try_catch.
  destruct (m w st) as [[a | op |] st1]; cbn [fst snd] in Hm |- *.
  - split; [apply Hm | exact I].
  - destruct (Hh st1) as [H1 H2].
    split; [eapply stable_trans; [apply Hm | exact H1] | exact H2].
  - exact Hm.
Qed.

Lemma keeps_try_finally {A} E (m : M A) (c : M unit) :
  keeps w R E F m -> keeps w R E F c -> keeps w R E F (try_finally m c).
Proof.
  intros Hm Hc st. specialize (Hm st). unfold try_finally.
  destruct (m w st) as [[a | op |] st1]; cbn [fst snd] in Hm |- *; [| | exact Hm];
    specialize (Hc st1); destruct (c w st1) as [[[] | op' |] st2];
    cbn [fst snd] in Hc |- *;
    (split; [eapply stable_trans; [apply Hm | apply Hc] |]);
    solve [exact I | apply Hm | apply Hc].
Qed.

Lemma keeps_gets {A} E (f : St -> A) : keeps w R E F (gets f).
Proof. intros st. split; [apply stable_refl | exact I]. Qed.

Lemma keeps_modify E (f : St -> St) :
  (forall st, R st (f st)) -> keeps w R E F (modify f).
Proof. intros Hf st. split; [apply Hf | exact I]. Qed.

Lemma keeps_ext {A} E (m m' : M A) :
  (forall st, m w st = m' w st) -> keeps w R E F m' -> keeps w R E F m.
Proof. intros Heq Hm st. rewrite Heq. apply Hm. Qed.

Lemma keeps_await_call (E : DriverOp -> Prop) op :
  E op -> C (ACall op) -> keeps w R E F (await_call op).
Proof.
  intros HE Hop st. split; [apply stable_call, Hop |].
  unfold await_call. cbn [fst]. destruct (rejects _); [exact HE | exact I].
Qed.

Lemma keeps_delay E ms : keeps w R E F (delay ms).
Proof. intros st. split; [apply stable_delay, C_delay | exact I]. Qed.

Lemma keeps_page_frames E : keeps w R E F page_frames.
Proof. intros st. split; [apply stable_frames, C_frames | exact I]. Qed.

Lemma keeps_for_each {A} E (l : list A) (body : A -> M unit) :
  (forall x, x ∈ l -> keeps w R E F (body x)) -> keeps w R E F (for_each l body).
Proof.
  induction l as [|x l IH]; intros Hb; cbn [for_each].
  - apply keeps_ret.
  - apply keeps_bind; [apply Hb; left |].
    intros _. apply IH. intros y Hy. apply Hb. right. exact Hy.
Qed.

(** A lookup either goes through the driver, or throws at once in a
    detached frame. *)
Lemma keeps_frame_query (E : DriverOp -> Prop) frame sel :
  E (OpQuery (frame_id frame) sel) -> keeps w R E F (frame_query frame sel).
Proof.
  intros HQ st. unfold frame_query.
  destruct (attached_frame (page_state (w (tick st))) frame).
  - revert st. apply keeps_try_catch with (E' := fun _ => True); [| apply keeps_ret].
    apply keeps_bind; [apply keeps_await_call; [exact I | apply C_interaction; reflexivity] |].
    intros r. apply keeps_ret.
  - cbn [fst snd]. split; [apply stable_refl | exact HQ].
Qed.

Lemma keeps_tryClickSelectors (E : DriverOp -> Prop) frame selectors :
  (forall f sel, E (OpQuery f sel)) ->
  keeps w R E F (tryClickSelectors frame selectors).
Proof.
  intros HQ. induction selectors as [|sel rest IH]; cbn [tryClickSelectors].
  - apply keeps_ret.
  - apply keeps_bind.
    + apply keeps_frame_query, HQ.
    + intros [|]; cbn [negb]; [| exact IH].
      apply keeps_bind.
      * apply keeps_try_catch with (E' := fun _ => True); [| apply keeps_ret].
        apply keeps_bind; [apply keeps_await_call; [exact I | apply C_interaction; reflexivity] |].
        intros r. apply keeps_ret.
      * intros [|]; [apply keeps_ret | exact IH].
Qed.

Lemma keeps_tryCloseOverlays (E : DriverOp -> Prop) frame :
  (forall f sel, E (OpQuery f sel)) -> keeps w R E F (tryCloseOverlays frame).
Proof.
  intros HQ.
  apply keeps_bind; [apply keeps_tryClickSelectors, HQ | intros _; apply keeps_ret].
Qed.

Lemma keeps_tryAutoplay E frame : keeps w R E F (tryAutoplay frame).
Proof.
  apply keeps_try_catch with (E' := fun _ => True); [| apply keeps_ret].
  apply keeps_bind; [| intros r; apply keeps_ret].
  intros st. unfold frame_evaluate_autoplay.
  destruct (attached_frame (page_state (w (tick st))) frame).
  - revert st. apply keeps_await_call; [exact I | apply C_interaction; reflexivity].
  - cbn [fst snd]. split; [apply stable_refl | exact I].
Qed.

Lemma keeps_tryPlay (E : DriverOp -> Prop) frame :
  (forall f sel, E (OpQuery f sel)) -> keeps w R E F (tryPlay frame).
Proof.
  intros HQ.
  apply keeps_bind; [apply keeps_tryClickSelectors, HQ | intros _; apply keeps_tryAutoplay].
Qed.

Lemma keeps_interact_frames (E : DriverOp -> Prop) (fs : list Frame) :
  (forall f sel, E (OpQuery f sel)) ->
  keeps w R E F (for_each fs (fun f => tryCloseOverlays f >> tryPlay f)).
Proof.
  intros HQ. apply keeps_for_each. intros f _.
  apply keeps_bind; [apply keeps_tryCloseOverlays, HQ | intros _; apply keeps_tryPlay, HQ].
Qed.

Lemma keeps_tryInteractAllFrames (E : DriverOp -> Prop) :
  (forall f sel, E (OpQuery f sel)) -> keeps w R E F tryInteractAllFrames.
Proof.
  intros HQ.
  apply keeps_bind; [apply keeps_page_frames | intros fs; apply keeps_interact_frames, HQ].
Qed.

Lemma keeps_teardown E : keeps w R E F teardown.
Proof.
  apply keeps_try_catch with (E' := fun _ => True); [| apply keeps_ret].
  apply keeps_bind; [apply keeps_gets |]. intros [|]; [| apply keeps_ret].
  apply keeps_bind; [| intros r; apply keeps_ret].
  intros st. split; [apply stable_call, C_close |].
  unfold await_call. cbn [fst]. destruct (rejects _); exact I.
Qed.

Lemma keeps_launch (E : DriverOp -> Prop) :
  (forall op, fatal op = true -> E op) -> keeps w R E F launch.
Proof.
  intros HE. apply keeps_bind.
  - apply keeps_await_call; [apply HE; reflexivity | apply C_fatal; reflexivity].
  - intros r. apply keeps_modify, stable_browser.
Qed.

Lemma keeps_createPage (E : DriverOp -> Prop) :
  (forall op, fatal op = true -> E op) -> keeps w R E F createPage.
Proof.
  intros HE. unfold createPage.
  repeat (apply keeps_bind;
          [apply keeps_await_call; [apply HE; reflexivity | apply C_fatal; reflexivity] | intros ?]).
  apply keeps_ret.
Qed.

Lemma keeps_goto (E : DriverOp -> Prop) targetUrl :
  (forall op, fatal op = true -> E op) -> keeps w R E F (goto targetUrl).
Proof.
  intros HE. apply keeps_bind; [| intros r; apply keeps_ret].
  apply keeps_await_call; [apply HE; reflexivity | apply C_fatal; reflexivity].
Qed.

(** The polling loop ends, unless it was given too little fuel: every
    iteration that goes on waits for at least 250 ms. *)
Lemma poll_core fuel : forall start st,
  R st (snd (poll fuel start w st)) /\
  (fst (poll fuel start w st) = Returns tt \/
   (fst (poll fuel start w st) = OutOfFuel /\
    (fuel = 0%nat \/ (clock st - start + 250 * (Z.of_nat fuel - 1) < 5000)%Z))).
Proof.
  induction fuel as [|fuel IH]; intros start st.
  - cbn [poll fst snd]. split; [apply stable_refl | right; auto].
  - rewrite poll_S. destruct (Z.ltb_spec (clock st - start) 5000) as [Hlt | Hge].
    + destruct (0 <? length (m3u8Urls st))%nat.
      * cbn [fst snd]. split; [apply stable_refl | left; reflexivity].
      * destruct (IH start (snd (delay 250 w st))) as [H1 H2].
        split; [eapply stable_trans; [apply stable_delay, C_delay | exact H1] |].
        destruct H2 as [H2 | [H2 H3]]; [left; exact H2 | right].
        split; [exact H2 |]. right. rewrite delay_clock in H3. lia.
    + cbn [fst snd]. split; [apply stable_refl | left; reflexivity].
Qed.

Lemma keeps_poll_now E fuel st :
  F \/ (20 < fuel)%nat ->
  R st (snd (poll fuel (clock st) w st)) /\
  outcome_ok E F (fst (poll fuel (clock st) w st)).
Proof.
  intros HF. destruct (poll_core fuel (clock st) st) as [H1 H2].
  split; [exact H1 |]. destruct H2 as [-> | [-> H3]]; [exact I |].
  cbn [outcome_ok]. destruct HF as [HF | HF]; [exact HF | lia].
Qed.

Lemma keeps_poll_last E fuel :
  F \/ (20 < fuel)%nat ->
  keeps w R E F (let* start := Date_now in poll fuel start).
Proof. intros HF st. apply (keeps_poll_now E fuel st HF). Qed.

Lemma keeps_poll_bind {B} E fuel (k : unit -> M B) :
  F \/ (20 < fuel)%nat -> (forall u, keeps w R E F (k u)) ->
  keeps w R E F (let* start := Date_now in bind (poll fuel start) k).
Proof.
  intros HF Hk st.
  change ((let* start := Date_now in bind (poll fuel start) k) w st)
    with (bind (poll fuel (clock st)) k w st).
  destruct (keeps_poll_now E fuel st HF) as [H1 H2]. unfold bind.
  destruct (poll fuel (clock st) w st) as [[u | op |] st1]; cbn [fst snd] in H1, H2 |- *;
    [| split; assumption ..].
  destruct (Hk u st1) as [H3 H4].
  split; [eapply stable_trans; [exact H1 | exact H3] | exact H4].
Qed.

Lemma keeps_navigate (E : DriverOp -> Prop) targetUrl :
  (forall op, fatal op = true -> E op) -> keeps w R E F (navigate targetUrl).
Proof.
  intros HE. unfold navigate.
  apply keeps_bind; [apply keeps_createPage, HE | intros _].
  apply keeps_bind; [apply keeps_modify, stable_attach | intros _].
  apply keeps_bind; [apply keeps_goto, HE | intros _].
  apply keeps_delay.
Qed.

Lemma keeps_session_start (E : DriverOp -> Prop) targetUrl :
  (forall op, fatal op = true -> E op) -> keeps w R E F (session_start targetUrl).
Proof.
  intros HE. apply keeps_bind; [apply keeps_launch, HE | intros _].
  apply keeps_navigate, HE.
Qed.

Lemma keeps_escalate (E : DriverOp -> Prop) fuel :
  (forall f sel, E (OpQuery f sel)) ->
  F \/ (20 < fuel)%nat -> keeps w R E F (escalate fuel).
Proof.
  intros HQ HF. unfold escalate.
  apply keeps_bind; [apply keeps_gets | intros size].
  destruct (0 <? size)%nat; [apply keeps_gets |].
  apply keeps_bind; [apply keeps_tryInteractAllFrames, HQ | intros _].
  apply keeps_bind; [apply keeps_delay | intros _].
  apply keeps_bind; [apply keeps_gets | intros size'].
  destruct (0 <? size')%nat; [apply keeps_gets |].
  apply keeps_bind; [apply keeps_tryInteractAllFrames, HQ | intros _].
  apply keeps_poll_bind; [exact HF | intros _; apply keeps_gets].
Qed.

(** The subtitle-aware escalation; [R] has to admit the insertion of what
    the scan finds in the main frame's document. *)
Lemma keeps_escalate_with_subtitles (E : DriverOp -> Prop) fuel :
  (forall f sel, E (OpQuery f sel)) ->
  E OpEvaluateDomSubs -> F \/ (20 < fuel)%nat ->
  (forall u st, found_in_main_document w u -> R st (add_sub u st)) ->
  keeps w R E F (escalate_with_subtitles fuel).
Proof.
  intros HQ HE' HF Hdom. unfold escalate_with_subtitles.
  apply keeps_bind_val with
    (V := fun us => exists n,
              us = dom_subtitle_script (document (mainFrame (page_state (w n))))).
  { intros st a st' H. unfold evaluate_dom_subtitles, bind, await_call, ret in H.
    destruct (rejects (w (tick st))); [discriminate |].
    injection H as <- _. eauto. }
  { apply keeps_bind; [apply keeps_await_call; [exact HE' | exact C_evaluate] |].
    intros r. apply keeps_ret. }
  intros domSubs [n ->].
  apply keeps_bind.
  { apply keeps_for_each. intros u Hu. apply keeps_modify. intros st.
    apply Hdom. exists n. exact Hu. }
  intros _.
  apply keeps_bind; [apply keeps_gets | intros size].
  apply keeps_bind.
  { destruct (size =? 0)%nat; [| apply keeps_ret].
    apply keeps_bind; [apply keeps_tryInteractAllFrames, HQ | intros _; apply keeps_delay]. }
  intros _.
  apply keeps_bind; [apply keeps_gets | intros size'].
  apply keeps_bind.
  { destruct (size' =? 0)%nat; [| apply keeps_ret].
    apply keeps_bind; [apply keeps_tryInteractAllFrames, HQ | intros _].
    apply keeps_poll_last, HF. }
  intros _.
  apply keeps_bind; [apply keeps_gets | intros subs].
  apply keeps_bind; [apply keeps_gets | intros m]. apply keeps_ret.
Qed.

Lemma keeps_scrapeProvider_try (E : DriverOp -> Prop) fuel targetUrl :
  (forall op, fatal op = true -> E op) -> (forall f sel, E (OpQuery f sel)) ->
  F \/ (20 < fuel)%nat ->
  keeps w R E F (scrapeProvider_try fuel targetUrl).
Proof.
  intros HE HQ HF.
  apply keeps_ext with (m' := launch >> navigate targetUrl >> escalate fuel);
    [intros st; apply scrapeProvider_try_split |].
  apply keeps_bind; [apply keeps_launch, HE | intros _].
  apply keeps_bind; [apply keeps_navigate, HE | intros _].
  apply keeps_escalate; assumption.
Qed.

Lemma keeps_scrapeProvider (E : DriverOp -> Prop) fuel targetUrl :
  (forall op, fatal op = true -> E op) -> (forall f sel, E (OpQuery f sel)) ->
  F \/ (20 < fuel)%nat ->
  keeps w R E F (scrapeProvider fuel targetUrl).
Proof.
  intros HE HQ HF. apply keeps_try_finally;
    [apply keeps_scrapeProvider_try; assumption | apply keeps_teardown].
Qed.

Lemma keeps_scrapeProviderWithSubtitles_try (E : DriverOp -> Prop) fuel targetUrl :
  (forall op, fatal op = true -> E op) -> (forall f sel, E (OpQuery f sel)) ->
  E OpEvaluateDomSubs -> F \/ (20 < fuel)%nat ->
  (forall u st, found_in_main_document w u -> R st (add_sub u st)) ->
  keeps w R E F (scrapeProviderWithSubtitles_try fuel targetUrl).
Proof.
  intros HE HQ HE' HF Hdom.
  apply keeps_ext
    with (m' := launch >> navigate targetUrl >> escalate_with_subtitles fuel);
    [intros st; apply scrapeProviderWithSubtitles_try_split |].
  apply keeps_bind; [apply keeps_launch, HE | intros _].
  apply keeps_bind; [apply keeps_navigate, HE | intros _].
  apply keeps_escalate_with_subtitles; assumption.
Qed.

Lemma keeps_scrapeProviderWithSubtitles (E : DriverOp -> Prop) fuel targetUrl :
  (forall op, fatal op = true -> E op) -> (forall f sel, E (OpQuery f sel)) ->
  E OpEvaluateDomSubs -> F \/ (20 < fuel)%nat ->
  (forall u st, found_in_main_document w u -> R st (add_sub u st)) ->
  keeps w R E F (scrapeProviderWithSubtitles fuel targetUrl).
Proof.
  intros HE HQ HE' HF Hdom. apply keeps_try_finally;
    [apply keeps_scrapeProviderWithSubtitles_try; assumption | apply keeps_teardown].
Qed.

End Logic.

(** ** Relations that every step respects *)

Section StableIntro.

Context (w : World) (C : Action -> Prop) (R : St -> St -> Prop).

Hypothesis R_refl : forall st, R st st.
Hypothesis R_trans : forall st1 st2 st3, R st1 st2 -> R st2 st3 -> R st1 st3.
Hypothesis R_log : forall a st, C a -> R st (do_log a st).
Hypothesis R_abort : forall u st, R st (do_log (AAbort u) st).
Hypothesis R_continue : forall u st, R st (do_log (AContinue u) st).
Hypothesis R_pass : forall z st, R st (pass z st).
Hypothesis R_add_m3u8 : forall n e u st,
  e ∈ traffic (w n) -> u ∈ event_urls e -> isM3U8 u = true -> R st (add_m3u8 u st).
Hypothesis R_add_sub : forall n e u st,
  e ∈ traffic (w n) -> u ∈ event_urls e -> isSubtitle u = true -> R st (add_sub u st).
Hypothesis R_attach : forall st, R st (set_attached st).
Hypothesis R_browser : forall st, R st (set_browser st).

Lemma classify_respects n e u st :
  e ∈ traffic (w n) -> u ∈ event_urls e -> R st (classify u st).
Proof.
  intros He Hu. unfold classify.
  destruct (isM3U8 u) eqn:Hm, (isSubtitle u) eqn:Hs; eauto.
Qed.

Lemma handle_respects n e st : e ∈ traffic (w n) -> R st (handle e st).
Proof.
  intros He. destruct e as [req | res]; cbn [handle].
  - unfold on_request.
    assert (Hc : R st (classify (req_url req) st)).
    { apply (classify_respects n _ _ _ He). cbn [event_urls]. left. }
    destruct (isHeavyResource _); (eapply R_trans; [exact Hc |]);
      [apply R_abort | apply R_continue].
  - unfold on_response.
    destruct (res_url res) as [u |] eqn:Hu; [| apply R_refl].
    assert (Hc : R st (classify u st)).
    { apply (classify_respects n _ _ _ He). cbn [event_urls]. rewrite Hu. left. }
    destruct (res_request_url res) as [v |] eqn:Hv; [| exact Hc].
    eapply R_trans; [exact Hc |].
    apply (classify_respects n _ _ _ He). cbn [event_urls]. rewrite Hu, Hv.
    right. left.
Qed.

Lemma deliver_respects n evs st :
  (forall e, e ∈ evs -> e ∈ traffic (w n)) -> R st (deliver evs st).
Proof.
  unfold deliver. destruct (attached st); [| intros _; apply R_refl].
  revert st. induction evs as [|e evs IH]; intros st Hin; cbn [foldl].
  - apply R_refl.
  - eapply R_trans; [apply (handle_respects n); apply Hin; left |].
    apply IH. intros e' He'. apply Hin. right. exact He'.
Qed.

Lemma Stable_intro : Stable w C R.
Proof.
  split; try assumption.
  - intros op st HC. unfold await_call. cbn [snd].
    eapply R_trans; [apply R_log, HC |].
    eapply R_trans; [apply R_pass |].
    apply (deliver_respects (tick st)). auto.
  - intros ms st HC. unfold delay. cbn [snd].
    eapply R_trans; [apply R_log, HC |].
    eapply R_trans; [apply R_pass |].
    apply (deliver_respects (tick st)). auto.
  - intros st HC. apply R_log, HC.
Qed.

End StableIntro.

Lemma Stable_both w C1 C2 R1 R2 :
  Stable w C1 R1 -> Stable w C2 R2 ->
  Stable w (fun a => C1 a /\ C2 a) (both R1 R2).
Proof.
  intros H1 H2. split; unfold both.
  - intros st. split; apply stable_refl.
  - intros a b c [? ?] [? ?]. split; eapply stable_trans; eassumption.
  - intros op st [? ?]. split; apply stable_call; assumption.
  - intros ms st [? ?]. split; apply stable_delay; assumption.
  - intros st [? ?]. split; apply stable_frames; assumption.
  - intros st. split; apply stable_attach.
  - intros st. split; apply stable_browser.
Qed.

Lemma Stable_weaken w (C C' : Action -> Prop) R :
  (forall a, C' a -> C a) -> Stable w C R -> Stable w C' R.
Proof.
  intros HC H. split.
  - apply stable_refl.
  - apply stable_trans.
  - intros op st Hc. apply stable_call, HC, Hc.
  - intros ms st Hc. apply stable_delay, HC, Hc.
  - intros st Hc. apply stable_frames, HC, Hc.
  - apply stable_attach.
  - apply stable_browser.
Qed.

Lemma log_grows_same P st st' : log st' = log st -> log_grows P st st'.
Proof. intros H. exists []. rewrite app_nil_r. auto. Qed.

Lemma log_grows_trans P st1 st2 st3 :
  log_grows P st1 st2 -> log_grows P st2 st3 -> log_grows P st1 st3.
Proof.
  intros (l1 & H1 & F1) (l2 & H2 & F2). exists (l1 ++ l2).
  rewrite H2, H1, (assoc_L (++)). split; [reflexivity | apply Forall_app; auto].
Qed.

Lemma log_grows_one (P : Action -> Prop) a st st' :
  log st' = log st ++ [a] -> P a -> log_grows P st st'.
Proof. intros H HP. exists [a]. auto. Qed.

Lemma log_grows_stable w (P : Action -> Prop) :
  (forall a, handler_action a = true -> P a) -> Stable w P (log_grows P).
Proof.
  intros HP. apply Stable_intro.
  - intros st. apply log_grows_same. reflexivity.
  - apply log_grows_trans.
  - intros a st Ha. apply (log_grows_one P a); [reflexivity | exact Ha].
  - intros u st. apply (log_grows_one P (AAbort u)); [reflexivity | apply HP; reflexivity].
  - intros u st. apply (log_grows_one P (AContinue u)); [reflexivity | apply HP; reflexivity].
  - intros z st. apply log_grows_same. reflexivity.
  - intros n e u st _ _ _. apply (log_grows_one P (AAddM3U8 u)); [reflexivity |].
    apply HP. reflexivity.
  - intros n e u st _ _ _. apply (log_grows_one P (AAddSub u)); [reflexivity |].
    apply HP. reflexivity.
  - intros st. apply log_grows_same. reflexivity.
  - intros st. apply log_grows_same. reflexivity.
Qed.

Lemma replay_m3u8_app l1 l2 s :
  replay_m3u8 (l1 ++ l2) s = replay_m3u8 l2 (replay_m3u8 l1 s).
Proof. apply foldl_app. Qed.

Lemma replay_sub_app l1 l2 s :
  replay_sub (l1 ++ l2) s = replay_sub l2 (replay_sub l1 s).
Proof. apply foldl_app. Qed.

Lemma sets_from_log_same st st' :
  log st' = log st -> m3u8Urls st' = m3u8Urls st -> subUrls st' = subUrls st ->
  sets_from_log st st'.
Proof. intros H1 H2 H3. exists []. rewrite app_nil_r. auto. Qed.

Lemma sets_from_log_trans st1 st2 st3 :
  sets_from_log st1 st2 -> sets_from_log st2 st3 -> sets_from_log st1 st3.
Proof.
  intros (l1 & H1 & M1 & S1) (l2 & H2 & M2 & S2). exists (l1 ++ l2).
  rewrite H2, H1, (assoc_L (++)), replay_m3u8_app, replay_sub_app, <- M1, <- S1.
  auto.
Qed.

Lemma sets_from_log_do_log a st :
  handler_action a = false -> sets_from_log st (do_log a st).
Proof.
  intros Ha. exists [a]. split; [reflexivity |].
  destruct a; try discriminate Ha; auto.
Qed.

Lemma sets_from_log_add_sub u st : sets_from_log st (add_sub u st).
Proof. exists [AAddSub u]. auto. Qed.

Lemma sets_from_log_stable w :
  Stable w (fun a => handler_action a = false) sets_from_log.
Proof.
  apply Stable_intro.
  - intros st. apply sets_from_log_same; reflexivity.
  - apply sets_from_log_trans.
  - intros a st Ha. apply sets_from_log_do_log, Ha.
  - intros u st. exists [AAbort u]. auto.
  - intros u st. exists [AContinue u]. auto.
  - intros z st. apply sets_from_log_same; reflexivity.
  - intros n e u st _ _ _. exists [AAddM3U8 u]. auto.
  - intros n e u st _ _ _. apply sets_from_log_add_sub.
  - intros st. apply sets_from_log_same; reflexivity.
  - intros st. apply sets_from_log_same; reflexivity.
Qed.

Lemma stays_empty_stable w :
  no_manifest_traffic w -> Stable w (fun _ => True) stays_empty.
Proof.
  intros Hw. apply Stable_intro; unfold stays_empty; try (intros; assumption).
  - intros st1 st2 st3 H1 H2 H. auto.
  - intros n e u st He Hu Hm. rewrite (Hw n e u He Hu) in Hm. discriminate.
Qed.

Lemma browser_kept_stable w : Stable w (fun _ => True) browser_kept.
Proof.
  apply Stable_intro; unfold browser_kept; try (intros; assumption).
  - intros st1 st2 st3 H1 H2 H. auto.
  - intros st _. reflexivity.
Qed.

Lemma subtitle_origin_stable w : Stable w (fun _ => True) (subtitle_origin w).
Proof.
  apply Stable_intro; unfold subtitle_origin; try (intros; left; assumption).
  - intros st1 st2 st3 H1 H2 u Hu.
    destruct (H2 u Hu) as [H | H]; [apply H1, H | right; exact H].
  - intros n e u st He Hu Hs v Hv. cbn [add_sub subUrls] in Hv.
    apply elem_of_set_add in Hv as [-> | Hv]; [| left; exact Hv].
    right. left. exists n, e. auto.
Qed.

Lemma subtitle_origin_dom w u st :
  found_in_main_document w u -> subtitle_origin w st (add_sub u st).
Proof.
  intros Hu v Hv. cbn [add_sub subUrls] in Hv.
  apply elem_of_set_add in Hv as [-> | Hv]; [right; right; exact Hu | left; exact Hv].
Qed.


(** ** The sets only grow *)

Lemma replay_m3u8_prefix l : forall s, s `prefix_of` replay_m3u8 l s.
Proof.
  induction l as [|a l IH]; intros s; [reflexivity |].
  change (replay_m3u8 (a :: l) s)
    with (replay_m3u8 l (match a with AAddM3U8 u => set_add u s | _ => s end)).
  etrans; [| apply IH]. destruct a; try reflexivity. apply set_add_prefix.
Qed.

Lemma replay_sub_prefix l : forall s, s `prefix_of` replay_sub l s.
Proof.
  induction l as [|a l IH]; intros s; [reflexivity |].
  change (replay_sub (a :: l) s)
    with (replay_sub l (match a with AAddSub u => set_add u s | _ => s end)).
  etrans; [| apply IH]. destruct a; try reflexivity. apply set_add_prefix.
Qed.

Lemma sets_from_log_append_only {A} (m : M A) :
  (forall w st, sets_from_log st (snd (m w st))) -> append_only m.
Proof.
  intros H w st. destruct (H w st) as (l & Hl & Hm & Hs). cbv zeta.
  exists l. split; [exact Hl |]. split; [exact Hm |]. split; [exact Hs |].
  intros l1 l2 l3 _. rewrite replay_m3u8_app, replay_sub_app.
  pose proof (replay_m3u8_prefix l2 (replay_m3u8 l1 (m3u8Urls st))) as P1.
  pose proof (replay_sub_prefix l2 (replay_sub l1 (subUrls st))) as P2.
  split; [exact P1 |]. split; [exact P2 |].
  split; apply prefix_length; assumption.
Qed.

Lemma handle_prefix e st :
  m3u8Urls st `prefix_of` m3u8Urls (handle e st) /\
  subUrls st `prefix_of` subUrls (handle e st).
Proof.
  assert (Hc : forall u st, m3u8Urls st `prefix_of` m3u8Urls (classify u st) /\
                            subUrls st `prefix_of` subUrls (classify u st)).
  { intros u st0. rewrite classify_m3u8, classify_sub.
    destruct (isM3U8 u), (isSubtitle u); split;
      solve [reflexivity | apply set_add_prefix]. }
  destruct e as [req | res]; cbn [handle].
  - rewrite on_request_m3u8, on_request_sub. apply Hc.
  - unfold on_response. destruct (res_url res) as [u |]; [| split; reflexivity].
    destruct (res_request_url res) as [v |]; [| apply Hc].
    destruct (Hc u st) as [H1 H2], (Hc v (classify u st)) as [H3 H4].
    split; etrans; eassumption.
Qed.

(** The side conditions of the program logic: which actions and which
    exceptions a relation has to admit. *)
Ltac keeps_side :=
  try solve [ reflexivity | exact I | discriminate | left; exact I | right; assumption
            | split; [discriminate | exact I]
            | intros; first [ reflexivity | exact I | discriminate | assumption
                            | split; first [ reflexivity | exact I | discriminate ] ]
            | let H := fresh in intros ? H; try split; try exact I;
              intros ?; simplify_eq; discriminate H ].

(** C7: the manifest set and the subtitle set are append-only during a
    scrape call.  A traffic handler leaves each set a prefix of what it
    becomes, and for both entry points, in every world and from every
    state: the insertions that the call logs account for the sets it
    leaves ([replay_m3u8], [replay_sub]), and at any two points of the log
    the earlier sets are prefixes of the later ones, so no element is
    removed or rewritten and the sizes never decrease. *)
Theorem sets_append_only :
  (forall e st, m3u8Urls st `prefix_of` m3u8Urls (handle e st) /\
                subUrls st `prefix_of` subUrls (handle e st))
  /\ (forall fuel targetUrl, append_only (scrapeProvider fuel targetUrl))
  /\ (forall fuel targetUrl, append_only (scrapeProviderWithSubtitles fuel targetUrl)).
Proof.
  split; [exact handle_prefix |].
  split; intros fuel targetUrl; apply sets_from_log_append_only; intros w st.
  - assert (K : keeps w sets_from_log (fun _ => True) True
                  (scrapeProvider fuel targetUrl)).
    { apply (@keeps_scrapeProvider w _ sets_from_log (sets_from_log_stable w));
        keeps_side. }
    apply K.
  - assert (K : keeps w sets_from_log (fun _ => True) True
                  (scrapeProviderWithSubtitles fuel targetUrl)).
    { apply (@keeps_scrapeProviderWithSubtitles w _ sets_from_log
               (sets_from_log_stable w)); keeps_side.
      intros u st' _. apply sets_from_log_add_sub. }
    apply K.
Qed.

(** ** Reading a result backwards *)

Lemma bind_inv {A B} (m : M A) (k : A -> M B) w st b st' :
  bind m k w st = (Returns b, st') ->
  exists a st1, m w st = (Returns a, st1) /\ k a w st1 = (Returns b, st').
Proof.
  unfold bind. destruct (m w st) as [[a | op |] st1]; [eauto | discriminate ..].
Qed.

Lemma try_finally_inv {A} (m : M A) (c : M unit) w st a st' :
  try_finally m c w st = (Returns a, st') ->
  exists st1, m w st = (Returns a, st1) /\ c w st1 = (Returns tt, st').
Proof.
  unfold try_finally. destruct (m w st) as [[a' | op |] st1]; [| | discriminate];
    destruct (c w st1) as [[[] | op' |] st2] eqn:Hc; intros H; try discriminate H.
  injection H as -> ->. eauto.
Qed.

Ltac bind_inv H :=
  let a := fresh "a" in
  let s := fresh "s" in
  let Hm := fresh "Hm" in
  apply bind_inv in H as (a & s & Hm & H).

Lemma escalate_with_subtitles_result fuel w st res st' :
  escalate_with_subtitles fuel w st = (Returns res, st') ->
  urls res = m3u8Urls st' /\
  subtitles res = map (fun u => {| url := u; label := None; lang := None |}) (subUrls st').
Proof.
  intros H. unfold escalate_with_subtitles in H.
  do 6 bind_inv H. unfold bind, gets, ret in H. injection H as <- <-. auto.
Qed.

Lemma evaluate_dom_subtitles_main_frame w st us st' :
  evaluate_dom_subtitles w st = (Returns us, st') ->
  us = dom_subtitle_script (document (mainFrame (page_state (w (tick st))))).
Proof.
  unfold evaluate_dom_subtitles, bind, await_call, ret.
  destruct (rejects (w (tick st))); [discriminate |]. intros H. injection H as <- _.
  reflexivity.
Qed.

(** C10: the subtitle scan reads the document of the main frame and no
    other: what [page.evaluate] returns is the scan of the main frame's
    document, and every subtitle that [scrapeProviderWithSubtitles]
    returns was seen on the network or found by the scan in a main frame's
    document.  A track that only sits in a nested frame is returned only
    if the network shows its URL: the page with the track in an [iframe]
    yields no subtitle, the page with the same track in the main frame
    yields it. *)
Theorem dom_fallback_main_frame_only :
  (forall w st us st',
      evaluate_dom_subtitles w st = (Returns us, st') ->
      us = dom_subtitle_script (document (mainFrame (page_state (w (tick st))))))
  /\ (forall fuel targetUrl w t0 res st',
         scrapeProviderWithSubtitles fuel targetUrl w (fresh t0) = (Returns res, st') ->
         forall s, s ∈ subtitles res ->
                   seen_on_network w (url s) \/ found_in_main_document w (url s))
  /\ fst (scrapeProviderWithSubtitles 21 (js "http://x/") world_iframe_track (fresh 0))
     = Returns {| urls := []; subtitles := [] |}
  /\ fst (scrapeProviderWithSubtitles 21 (js "http://x/") world_main_track (fresh 0))
     = Returns {| urls := [];
                  subtitles := [ {| url := js "http://x/cap.vtt";
                                    label := None; lang := None |} ] |}.
Proof.
  split; [exact evaluate_dom_subtitles_main_frame |].
  split; [| split; vm_compute; reflexivity].
  intros fuel targetUrl w t0 res st' H s Hs.
  apply try_finally_inv in H as (st1 & H & _).
  assert (K : keeps w (subtitle_origin w) (fun _ => True) True
                (scrapeProviderWithSubtitles_try fuel targetUrl)).
  { apply (@keeps_scrapeProviderWithSubtitles_try w _ (subtitle_origin w)
             (subtitle_origin_stable w)); keeps_side.
    intros u st0 Hu. apply subtitle_origin_dom, Hu. }
  destruct (K (fresh t0)) as [Ho _]. rewrite H in Ho. cbn [snd] in Ho.
  rewrite scrapeProviderWithSubtitles_try_split in H.
  do 2 bind_inv H. apply escalate_with_subtitles_result in H as [_ Hsub].
  rewrite Hsub in Hs. apply list_elem_of_fmap in Hs as (u & -> & Hu). cbn [url].
  destruct (Ho u Hu) as [Hin | Hor]; [| exact Hor].
  cbn [fresh subUrls] in Hin. apply elem_of_nil in Hin. contradiction.
Qed.

(** ** Logs of the primitive steps *)

Lemma deliver_traffic_log (w : World) n st :
  log_grows (fun a => handler_action a = true) st (deliver (traffic (w n)) st).
Proof.
  apply (deliver_respects w (log_grows (fun a => handler_action a = true))) with (n := n).
  - intros st0. apply log_grows_same. reflexivity.
  - apply log_grows_trans.
  - intros u st0. apply (log_grows_one _ (AAbort u)); reflexivity.
  - intros u st0. apply (log_grows_one _ (AContinue u)); reflexivity.
  - intros n0 e u st0 _ _ _. apply (log_grows_one _ (AAddM3U8 u)); reflexivity.
  - intros n0 e u st0 _ _ _. apply (log_grows_one _ (AAddSub u)); reflexivity.
  - auto.
Qed.

Lemma await_call_log op w st :
  exists l, log (snd (await_call op w st)) = log st ++ ACall op :: l /\
            Forall (fun a => handler_action a = true) l.
Proof.
  unfold await_call. cbn [snd].
  destruct (deliver_traffic_log w (tick st)
              (pass (Z.of_N (lag (w (tick st)))) (do_log (ACall op) st)))
    as (l & Hl & Fl).
  exists l. rewrite Hl. cbn [pass do_log log]. rewrite <- (assoc_L (++)). auto.
Qed.

Lemma delay_log ms w st :
  exists l, log (snd (delay ms w st)) = log st ++ ADelay ms :: l /\
            Forall (fun a => handler_action a = true) l.
Proof.
  unfold delay. cbn [snd].
  destruct (deliver_traffic_log w (tick st)
              (pass (Z.of_N ms + Z.of_N (lag (w (tick st)))) (do_log (ADelay ms) st)))
    as (l & Hl & Fl).
  exists l. rewrite Hl. cbn [pass do_log log]. rewrite <- (assoc_L (++)). auto.
Qed.

(** ** Teardown *)

Lemma teardown_returns w st : fst (teardown w st) = Returns tt.
Proof.
  unfold teardown, try_catch, bind, gets, await_call, ret.
  destruct (browser st); [| reflexivity].
  destruct (rejects (w (tick st))); reflexivity.
Qed.

Lemma teardown_closes w st :
  browser st = true ->
  exists l, log (snd (teardown w st)) = log st ++ ACall OpClose :: l /\
            Forall (fun a => handler_action a = true) l.
Proof.
  intros Hb. destruct (await_call_log OpClose w st) as (l & Hl & Fl).
  exists l. split; [| exact Fl]. rewrite <- Hl.
  unfold teardown, try_catch, bind, gets, ret. rewrite Hb.
  unfold await_call. destruct (rejects (w (tick st))); reflexivity.
Qed.

Lemma launch_returns w st st1 :
  launch w st = (Returns tt, st1) -> browser st1 = true.
Proof.
  unfold launch, bind, await_call, modify.
  destruct (rejects (w (tick st))); [discriminate |].
  intros H. injection H as <-. reflexivity.
Qed.

Lemma not_close_stable w :
  Stable w (fun a => a <> ACall OpClose /\ True)
         (both (log_grows (fun a => a <> ACall OpClose)) browser_kept).
Proof.
  apply Stable_both; [| apply browser_kept_stable].
  apply log_grows_stable. intros a Ha ->. discriminate Ha.
Qed.

(** A [try] block that launches and then never calls [browser.close()],
    under [finally { teardown }]. *)
Lemma finally_teardown {A} (body rest : M A) w st0 st1 :
  log st0 = [] ->
  body w st0 = (launch >> rest) w st0 ->
  launch w st0 = (Returns tt, st1) ->
  keeps w (both (log_grows (fun a => a <> ACall OpClose)) browser_kept)
        (fun op => op <> OpClose) False rest ->
  torn_down (try_finally body teardown w st0) (fst (body w st0)).
Proof.
  intros Hlog Hbody Hlaunch Hrest.
  pose proof (launch_returns _ _ _ Hlaunch) as Hb1.
  assert (Hl1 : log_grows (fun a => a <> ACall OpClose) st0 st1).
  { destruct (@keeps_launch w _ _ (not_close_stable w) True
                ltac:(keeps_side) (fun _ => True) ltac:(keeps_side) st0) as [[H _] _].
    rewrite Hlaunch in H. exact H. }
  rewrite (bind_returns _ _ _ _ _ _ Hlaunch) in Hbody.
  destruct (Hrest st1) as [[Hl2 Hb2] Hout]. rewrite <- Hbody in Hl2, Hb2, Hout.
  unfold try_finally, torn_down.
  destruct (body w st0) as [r st2]. cbn [fst snd] in Hl2, Hb2, Hout |- *.
  pose proof (teardown_returns w st2) as Ht.
  destruct (teardown_closes w st2 (Hb2 Hb1)) as (l3 & Hl3 & Fl3).
  destruct (teardown w st2) as [rt st3]. cbn [fst snd] in Ht, Hl3. subst rt.
  pose proof (log_grows_trans _ _ _ _ Hl1 Hl2) as (l12 & Hl12 & Fl12).
  rewrite Hlog in Hl12. cbn [app] in Hl12.
  destruct r as [a | op |]; cbn [outcome_ok] in Hout; [| | contradiction]; cbn [fst snd].
  - split; [reflexivity |]. split; [discriminate |]. split; [discriminate |].
    exists l12, l3. rewrite Hl3, Hl12. split; [reflexivity |]. split; [| exact Fl3].
    intros Hin. eapply Forall_forall in Fl12; [| exact Hin]. apply Fl12. reflexivity.
  - split; [reflexivity |]. split; [discriminate |].
    split; [intros H; injection H as ->; apply Hout; reflexivity |].
    exists l12, l3. rewrite Hl3, Hl12. split; [reflexivity |]. split; [| exact Fl3].
    intros Hin. eapply Forall_forall in Fl12; [| exact Hin]. apply Fl12. reflexivity.
Qed.

(** C6: a call that launched a browser session tears it down on every exit
    path.  Whatever the page does and however the [try] block ends (early
    return, return after the full escalation, rejected navigation or any
    other exception), both entry points attempt [browser.close()] exactly
    once, as their last driver call, and end with the outcome of the [try]
    block: a rejection of [browser.close()] is never what the caller
    sees. *)
Theorem session_torn_down fuel targetUrl w t0 st1 :
  (20 < fuel)%nat ->
  launch w (fresh t0) = (Returns tt, st1) ->
  torn_down (scrapeProvider fuel targetUrl w (fresh t0))
            (fst (scrapeProvider_try fuel targetUrl w (fresh t0)))
  /\ torn_down (scrapeProviderWithSubtitles fuel targetUrl w (fresh t0))
               (fst (scrapeProviderWithSubtitles_try fuel targetUrl w (fresh t0))).
Proof.
  intros Hfuel Hlaunch. split.
  - apply finally_teardown with (rest := navigate targetUrl >> escalate fuel) (st1 := st1);
      [reflexivity | apply scrapeProvider_try_split | exact Hlaunch |].
    apply (@keeps_bind w _ _ (not_close_stable w)).
    + apply (@keeps_navigate w _ _ (not_close_stable w)); keeps_side.
    + intros _. apply (@keeps_escalate w _ _ (not_close_stable w)); keeps_side.
  - apply finally_teardown
      with (rest := navigate targetUrl >> escalate_with_subtitles fuel) (st1 := st1);
      [reflexivity | apply scrapeProviderWithSubtitles_try_split | exact Hlaunch |].
    apply (@keeps_bind w _ _ (not_close_stable w)).
    + apply (@keeps_navigate w _ _ (not_close_stable w)); keeps_side.
    + intros _.
      apply (@keeps_escalate_with_subtitles w _ _ (not_close_stable w)); keeps_side.
      intros u st _. split; [| intros Hb; exact Hb].
      apply (log_grows_one _ (AAddSub u)); [reflexivity | discriminate].
Qed.

Lemma session_torn_down_witness :
  torn_down (scrapeProvider 21 (js "http://x/") world_silent (fresh 0))
            (fst (scrapeProvider_try 21 (js "http://x/") world_silent (fresh 0)))
  /\ torn_down (scrapeProviderWithSubtitles 21 (js "http://x/") world_silent (fresh 0))
               (fst (scrapeProviderWithSubtitles_try 21 (js "http://x/") world_silent
                       (fresh 0))).
Proof.
  apply (session_torn_down 21 (js "http://x/") world_silent 0
           (snd (launch world_silent (fresh 0)))); [lia | reflexivity].
Defined.

(** ** The start of a session *)

Lemma no_interaction_stable w :
  Stable w (fun a => interaction a = false) (log_grows (fun a => interaction a = false)).
Proof. apply log_grows_stable. intros a Ha. destruct a; try discriminate Ha; reflexivity. Qed.

Lemma fatal_not_interaction op : fatal op = true -> interaction (ACall op) = false.
Proof. destruct op; intros H; try discriminate H; reflexivity. Qed.

Lemma session_start_browser targetUrl w st0 st1 :
  session_start targetUrl w st0 = (Returns tt, st1) -> browser st1 = true.
Proof.
  intros H. unfold session_start in H. bind_inv H. destruct a.
  apply launch_returns in Hm.
  destruct (@keeps_navigate w _ _ (browser_kept_stable w) True
              ltac:(keeps_side) ltac:(keeps_side) (fun _ => True) targetUrl
              ltac:(keeps_side) s) as [Hb _].
  rewrite H in Hb. apply Hb, Hm.
Qed.

Lemma session_start_no_interaction targetUrl w st0 st1 :
  session_start targetUrl w st0 = (Returns tt, st1) ->
  log_grows (fun a => interaction a = false) st0 st1.
Proof.
  intros H.
  destruct (@keeps_session_start w _ _ (no_interaction_stable w) True
              fatal_not_interaction ltac:(keeps_side) (fun _ => True) targetUrl
              ltac:(keeps_side) st0) as [Hl _].
  rewrite H in Hl. exact Hl.
Qed.

Lemma scrapeProvider_try_from_start fuel targetUrl w st0 st1 :
  session_start targetUrl w st0 = (Returns tt, st1) ->
  scrapeProvider_try fuel targetUrl w st0 = escalate fuel w st1.
Proof.
  intros H. rewrite scrapeProvider_try_split.
  rewrite <- (bind_assoc launch (fun _ => navigate targetUrl) (fun _ => escalate fuel)).
  exact (bind_returns (session_start targetUrl) (fun _ => escalate fuel) w st0 tt st1 H).
Qed.

Lemma escalate_found fuel w st :
  m3u8Urls st <> [] -> escalate fuel w st = (Returns (m3u8Urls st), st).
Proof.
  intros Hne. unfold escalate. unfold bind at 1. cbn [gets].
  destruct (m3u8Urls st) as [|u us] eqn:Hm; [contradiction |].
  cbn [length Nat.ltb Nat.leb]. unfold gets. rewrite Hm. reflexivity.
Qed.

(** C3: if the manifest set is not empty once the passive wait is over,
    [scrapeProvider] returns the manifest URLs accumulated until then, in
    the order of their discovery, and does nothing more than tear the
    session down: no action of the interaction engine ([page.frames()], a
    selector lookup, a click, an autoplay injection) is in the log of the
    call. *)
Theorem early_exit_without_interaction fuel targetUrl w t0 st1 :
  session_start targetUrl w (fresh t0) = (Returns tt, st1) ->
  m3u8Urls st1 <> [] ->
  exists stF l,
    scrapeProvider fuel targetUrl w (fresh t0) = (Returns (m3u8Urls st1), stF) /\
    log stF = log st1 ++ ACall OpClose :: l /\
    Forall (fun a => handler_action a = true) l /\
    Forall (fun a => interaction a = false) (log stF).
Proof.
  intros Hstart Hne.
  pose proof (session_start_browser _ _ _ _ Hstart) as Hb.
  destruct (session_start_no_interaction _ _ _ _ Hstart) as (l1 & Hl1 & Fl1).
  cbn [fresh log app] in Hl1.
  pose proof (scrapeProvider_try_from_start fuel _ _ _ _ Hstart) as Htry.
  rewrite (escalate_found fuel w st1 Hne) in Htry.
  pose proof (teardown_returns w st1) as Ht.
  destruct (teardown_closes w st1 Hb) as (l & Hl & Fl).
  exists (snd (teardown w st1)), l.
  split; [| split; [exact Hl | split; [exact Fl |]]].
  - unfold scrapeProvider, try_finally. rewrite Htry.
    destruct (teardown w st1) as [rt st2]. cbn [fst] in Ht. subst rt. reflexivity.
  - rewrite Hl, Hl1. apply Forall_app. split; [exact Fl1 |].
    constructor; [reflexivity |].
    eapply Forall_impl; [exact Fl |]. intros a Ha. destruct a; try discriminate Ha; reflexivity.
Qed.

Lemma early_exit_without_interaction_witness :
  let st1 := snd (session_start (js "http://x/") world_autoplay (fresh 0)) in
  m3u8Urls st1 = [js "http://x/a.m3u8"] /\
  exists stF l,
    scrapeProvider 21 (js "http://x/") world_autoplay (fresh 0)
    = (Returns (m3u8Urls st1), stF) /\
    log stF = log st1 ++ ACall OpClose :: l /\
    Forall (fun a => handler_action a = true) l /\
    Forall (fun a => interaction a = false) (log stF).
Proof.
  split; [vm_compute; reflexivity |].
  apply (early_exit_without_interaction 21 (js "http://x/") world_autoplay 0
           (snd (session_start (js "http://x/") world_autoplay (fresh 0)))).
  - vm_compute. reflexivity.
  - vm_compute. discriminate.
Defined.

(** ** The full escalation *)

Lemma no_stage_stable w :
  Stable w (fun a => stage a = false) (log_grows (fun a => stage a = false)).
Proof. apply log_grows_stable. intros a Ha. destruct a; try discriminate Ha; reflexivity. Qed.

Lemma stages_app l1 l2 : stages (l1 ++ l2) = stages l1 ++ stages l2.
Proof. apply filter_app. Qed.

Lemma stages_none l : Forall (fun a => stage a = false) l -> stages l = [].
Proof.
  induction 1 as [|a l Ha _ IH]; [reflexivity |].
  unfold stages. rewrite filter_cons_False; [exact IH |]. rewrite Ha. discriminate.
Qed.

Lemma stages_handlers l : Forall (fun a => handler_action a = true) l -> stages l = [].
Proof.
  intros H. apply stages_none. eapply Forall_impl; [exact H |].
  intros a Ha. destruct a; try discriminate Ha; reflexivity.
Qed.

Lemma stages_log_grows st st' :
  log_grows (fun a => stage a = false) st st' -> stages (log st') = stages (log st).
Proof.
  intros (l & -> & Fl). rewrite stages_app, (stages_none l Fl). apply app_nil_r.
Qed.

Lemma delay_stages ms w st :
  stages (log (snd (delay ms w st))) = stages (log st) ++ [ADelay ms].
Proof.
  destruct (delay_log ms w st) as (l & -> & Fl).
  rewrite stages_app. f_equal.
  change (ADelay ms :: l) with ([ADelay ms] ++ l).
  rewrite stages_app, (stages_handlers l Fl). reflexivity.
Qed.

(** The relation of the quiet escalation: no stage is logged and an empty
    manifest set stays empty. *)
Lemma quiet_stable w :
  no_manifest_traffic w ->
  Stable w (fun a => stage a = false /\ True)
         (both (log_grows (fun a => stage a = false)) stays_empty).
Proof.
  intros Hw. apply Stable_both; [apply no_stage_stable | apply stays_empty_stable, Hw].
Qed.

Lemma session_start_stages targetUrl w st0 st1 :
  session_start targetUrl w st0 = (Returns tt, st1) ->
  stages (log st1) = stages (log st0) ++ [ADelay PASSIVE_WAIT_MS].
Proof.
  intros H. unfold session_start, navigate in H.
  bind_inv H. bind_inv H. bind_inv H. bind_inv H.
  pose (S := no_stage_stable w).
  destruct (@keeps_launch w _ _ S True ltac:(keeps_side) (fun _ => True)
              ltac:(keeps_side) st0) as [H1 _].
  destruct (@keeps_createPage w _ _ S True ltac:(keeps_side) (fun _ => True)
              ltac:(keeps_side) s) as [H2 _].
  destruct (@keeps_goto w _ _ S True ltac:(keeps_side) (fun _ => True) targetUrl
              ltac:(keeps_side) s1) as [H4 _].
  rewrite Hm in H1. rewrite Hm0 in H2. rewrite Hm2 in H4. cbn [snd] in H1, H2, H4.
  assert (H3 : log s1 = log s0).
  { unfold attachNetworkCollectors, modify in Hm1. injection Hm1 as _ <-. reflexivity. }
  pose proof (delay_stages PASSIVE_WAIT_MS w s2) as Hd. rewrite H in Hd. cbn [snd] in Hd.
  rewrite Hd, (stages_log_grows _ _ H4), H3, (stages_log_grows _ _ H2),
    (stages_log_grows _ _ H1). reflexivity.
Qed.

Lemma delay_quiet ms w st :
  no_manifest_traffic w ->
  exists st', delay ms w st = (Returns tt, st') /\
              stages (log st') = stages (log st) ++ [ADelay ms] /\
              stays_empty st st' /\ browser_kept st st' /\
              clock st' = (clock st + (Z.of_N ms + Z.of_N (lag (w (tick st)))))%Z.
Proof.
  intros Hw. exists (snd (delay ms w st)).
  split; [reflexivity |]. split; [apply delay_stages |].
  split; [| split; [| apply delay_clock]].
  - apply (@stable_delay w _ _ (stays_empty_stable w Hw)). exact I.
  - apply (@stable_delay w _ _ (browser_kept_stable w)). exact I.
Qed.

(** The polling loop on a page that shows no manifest: it waits [k] times
    250 ms and gives up. *)
Lemma poll_quiet w : no_manifest_traffic w ->
  forall fuel start st,
    m3u8Urls st = [] ->
    (0 < fuel)%nat ->
    (5000 <= clock st - start + 250 * (Z.of_nat fuel - 1))%Z ->
    exists st' k,
      poll fuel start w st = (Returns tt, st') /\
      stages (log st') = stages (log st) ++ replicate k (ADelay 250) /\
      m3u8Urls st' = [] /\ browser_kept st st' /\
      (k = 0%nat \/ (clock st - start + 250 * Z.of_nat k < 5250)%Z) /\
      ((clock st - start < 5000)%Z -> (1 <= k)%nat).
Proof.
  intros Hw. induction fuel as [|fuel IH]; intros start st Hm Hf Hc; [lia |].
  rewrite poll_S. destruct (Z.ltb_spec (clock st - start) 5000) as [Hlt | Hge].
  - rewrite Hm. cbn [length Nat.ltb Nat.leb].
    destruct (delay_quiet 250 w st Hw) as (st1 & Hd & Hs1 & He1 & Hb1 & Hc1).
    rewrite Hd. cbn [snd].
    destruct (IH start st1 (He1 Hm)) as (st' & k & Hp & Hs & Hm' & Hb & Hk & _);
      [lia | lia |].
    exists st', (S k). split; [exact Hp |].
    split; [rewrite Hs, Hs1, <- (assoc_L (++)); reflexivity |].
    split; [exact Hm' |]. split; [intros H; apply Hb, Hb1, H |].
    split; [| lia]. right. destruct Hk as [-> | Hk]; lia.
  - exists st, 0%nat. split; [reflexivity |].
    split; [cbn [replicate]; rewrite app_nil_r; reflexivity |].
    split; [exact Hm |]. split; [intros H; exact H |]. split; [left; reflexivity | lia].
Qed.

(** ** A rejected subtitle scan *)

Lemma scrapeProviderWithSubtitles_try_from_start fuel targetUrl w st0 st1 :
  session_start targetUrl w st0 = (Returns tt, st1) ->
  scrapeProviderWithSubtitles_try fuel targetUrl w st0 =
  escalate_with_subtitles fuel w st1.
Proof.
  intros H. rewrite scrapeProviderWithSubtitles_try_split.
  rewrite <- (bind_assoc launch (fun _ => navigate targetUrl)
                (fun _ => escalate_with_subtitles fuel)).
  exact (bind_returns (session_start targetUrl)
           (fun _ => escalate_with_subtitles fuel) w st0 tt st1 H).
Qed.

Lemma escalate_with_subtitles_rejected fuel w st :
  rejects (w (tick st)) = true ->
  escalate_with_subtitles fuel w st =
  (Throws OpEvaluateDomSubs, snd (await_call OpEvaluateDomSubs w st)).
Proof.
  intros Hr. unfold escalate_with_subtitles.
  apply bind_throws. unfold evaluate_dom_subtitles.
  apply bind_throws. unfold await_call. rewrite Hr. reflexivity.
Qed.

(** C4 (the code against the claim): [page.evaluate] of the subtitle scan
    is awaited outside any [try ... catch].  When the driver rejects it,
    [scrapeProviderWithSubtitles] ends with that exception: after the
    rejected call it only tears the session down, without any interaction
    round or polling, and it returns no result. *)
Theorem dom_fallback_failure_propagates fuel targetUrl w t0 st1 :
  session_start targetUrl w (fresh t0) = (Returns tt, st1) ->
  rejects (w (tick st1)) = true ->
  exists stF l1 l2,
    scrapeProviderWithSubtitles fuel targetUrl w (fresh t0)
    = (Throws OpEvaluateDomSubs, stF) /\
    log stF = log st1 ++ ACall OpEvaluateDomSubs :: l1 ++ ACall OpClose :: l2 /\
    Forall (fun a => handler_action a = true) l1 /\
    Forall (fun a => handler_action a = true) l2.
Proof.
  intros Hstart Hr.
  pose proof (session_start_browser _ _ _ _ Hstart) as Hb.
  pose proof (scrapeProviderWithSubtitles_try_from_start fuel _ _ _ _ Hstart) as Htry.
  rewrite (escalate_with_subtitles_rejected fuel w st1 Hr) in Htry.
  set (st2 := snd (await_call OpEvaluateDomSubs w st1)) in *.
  destruct (await_call_log OpEvaluateDomSubs w st1) as (l1 & Hl1 & Fl1). fold st2 in Hl1.
  assert (Hb2 : browser st2 = true).
  { apply (@stable_call w _ _ (browser_kept_stable w) OpEvaluateDomSubs st1 I Hb). }
  pose proof (teardown_returns w st2) as Ht.
  destruct (teardown_closes w st2 Hb2) as (l2 & Hl2 & Fl2).
  exists (snd (teardown w st2)), l1, l2.
  split; [| split; [| split; assumption]].
  - unfold scrapeProviderWithSubtitles, try_finally. rewrite Htry.
    destruct (teardown w st2) as [rt st3]. cbn [fst] in Ht. subst rt. reflexivity.
  - rewrite Hl2, Hl1, <- (assoc_L (++)). reflexivity.
Qed.

Lemma dom_fallback_failure_propagates_witness :
  exists stF l1 l2,
    scrapeProviderWithSubtitles 21 (js "http://x/") world_eval_fails (fresh 0)
    = (Throws OpEvaluateDomSubs, stF) /\
    log stF = log (snd (session_start (js "http://x/") world_eval_fails (fresh 0)))
              ++ ACall OpEvaluateDomSubs :: l1 ++ ACall OpClose :: l2 /\
    Forall (fun a => handler_action a = true) l1 /\
    Forall (fun a => handler_action a = true) l2.
Proof.
  apply (dom_fallback_failure_propagates 21 (js "http://x/") world_eval_fails 0
           (snd (session_start (js "http://x/") world_eval_fails (fresh 0)))).
  - vm_compute. reflexivity.
  - vm_compute. reflexivity.
Defined.

(** The same page through [scrapeProvider], which has no subtitle scan:
    the call returns. *)
Lemma scrapeProvider_on_world_eval_fails :
  fst (scrapeProvider 21 (js "http://x/") world_eval_fails (fresh 0)) = Returns [].
Proof. vm_compute. reflexivity. Qed.

(** ** Every call ends

    With more than 20 units of fuel the polling loop is never cut short,
    in any world and from any state; a call then returns, or throws the
    rejection of an operation that no [try ... catch] guards, or what a
    lookup throws at once in a frame that has left the page. *)



(** Without a session there is nothing to tear down: a rejected launch is
    what the caller sees, and [browser.close()] is not called. *)
Lemma launch_rejected fuel targetUrl w t0 :
  rejects (w 0%nat) = true ->
  exists stF,
    scrapeProvider fuel targetUrl w (fresh t0) = (Throws (OpLaunch true launchArgs), stF) /\
    log stF = [ACall (OpLaunch true launchArgs)].
Proof.
  intros Hr. eexists.
  unfold scrapeProvider, try_finally, scrapeProvider_try.
  unfold bind at 1. unfold launch. unfold bind at 1. unfold await_call.
  cbn [fresh tick]. rewrite Hr. cbn. split; reflexivity.
Qed.

(** * Further properties *)

(** ** What the handlers record *)

Lemma set_add_present u s : u ∈ s -> set_add u s = s.
Proof. intros H. unfold set_add. rewrite bool_decide_eq_true_2; [reflexivity | exact H]. Qed.

Lemma classify_elem_m3u8 u st v :
  v ∈ m3u8Urls (classify u st) <-> v ∈ m3u8Urls st \/ (v = u /\ isM3U8 u = true).
Proof.
  rewrite classify_m3u8. destruct (isM3U8 u).
  - rewrite elem_of_set_add. tauto.
  - split; [auto | intros [H | [_ H]]; [exact H | discriminate]].
Qed.

Lemma classify_elem_sub u st v :
  v ∈ subUrls (classify u st) <-> v ∈ subUrls st \/ (v = u /\ isSubtitle u = true).
Proof.
  rewrite classify_sub. destruct (isSubtitle u).
  - rewrite elem_of_set_add. tauto.
  - split; [auto | intros [H | [_ H]]; [exact H | discriminate]].
Qed.

Lemma handle_elem_m3u8 e st u :
  u ∈ m3u8Urls (handle e st) <->
  u ∈ m3u8Urls st \/ (u ∈ event_urls e /\ isM3U8 u = true).
Proof.
  destruct e as [req | res]; cbn [handle event_urls].
  - rewrite on_request_m3u8, classify_elem_m3u8, list_elem_of_singleton.
    split; intros [H | [H1 H2]]; auto; subst; auto.
  - unfold on_response. destruct (res_url res) as [a |].
    + destruct (res_request_url res) as [b |].
      * rewrite !classify_elem_m3u8, !elem_of_cons, elem_of_nil.
        split; [intros [[H | [-> H]] | [-> H]] | intros [H | [[-> | [-> | []]] H]]]; auto.
      * rewrite classify_elem_m3u8, list_elem_of_singleton.
        split; intros [H | [H1 H2]]; auto; subst; auto.
    + rewrite elem_of_nil. tauto.
Qed.

Lemma handle_elem_sub e st u :
  u ∈ subUrls (handle e st) <->
  u ∈ subUrls st \/ (u ∈ event_urls e /\ isSubtitle u = true).
Proof.
  destruct e as [req | res]; cbn [handle event_urls].
  - rewrite on_request_sub, classify_elem_sub, list_elem_of_singleton.
    split; intros [H | [H1 H2]]; auto; subst; auto.
  - unfold on_response. destruct (res_url res) as [a |].
    + destruct (res_request_url res) as [b |].
      * rewrite !classify_elem_sub, !elem_of_cons, elem_of_nil.
        split; [intros [[H | [-> H]] | [-> H]] | intros [H | [[-> | [-> | []]] H]]]; auto.
      * rewrite classify_elem_sub, list_elem_of_singleton.
        split; intros [H | [H1 H2]]; auto; subst; auto.
    + rewrite elem_of_nil. tauto.
Qed.

(** X1: what a traffic handler leaves in the sets.  After a request or a
    response event, the manifest set holds what it held before and the
    URLs of the event that [isM3U8] accepts (for a response: its own URL
    and the URL of its request, as far as the accessors did not throw),
    and nothing else; likewise the subtitle set with [isSubtitle]. *)
Theorem handler_records_classified_urls (e : NetEvent) (st : St) (u : jsstring) :
  (u ∈ m3u8Urls (handle e st) <->
   u ∈ m3u8Urls st \/ (u ∈ event_urls e /\ isM3U8 u = true))
  /\ (u ∈ subUrls (handle e st) <->
      u ∈ subUrls st \/ (u ∈ event_urls e /\ isSubtitle u = true)).
Proof. split; [apply handle_elem_m3u8 | apply handle_elem_sub]. Qed.

Lemma classify_present_m3u8 u st :
  (isM3U8 u = true -> u ∈ m3u8Urls st) -> m3u8Urls (classify u st) = m3u8Urls st.
Proof.
  intros H. rewrite classify_m3u8. destruct (isM3U8 u); [| reflexivity].
  apply set_add_present, H. reflexivity.
Qed.

Lemma classify_present_sub u st :
  (isSubtitle u = true -> u ∈ subUrls st) -> subUrls (classify u st) = subUrls st.
Proof.
  intros H. rewrite classify_sub. destruct (isSubtitle u); [| reflexivity].
  apply set_add_present, H. reflexivity.
Qed.

Lemma handle_present e st :
  (forall u, u ∈ event_urls e -> isM3U8 u = true -> u ∈ m3u8Urls st) ->
  (forall u, u ∈ event_urls e -> isSubtitle u = true -> u ∈ subUrls st) ->
  m3u8Urls (handle e st) = m3u8Urls st /\ subUrls (handle e st) = subUrls st.
Proof.
  intros Hm Hs. destruct e as [req | res]; cbn [handle event_urls] in *.
  - rewrite on_request_m3u8, on_request_sub.
    split; [apply classify_present_m3u8 | apply classify_present_sub]; intros H;
      [apply Hm | apply Hs]; auto; left.
  - unfold on_response. destruct (res_url res) as [a |]; [| auto].
    destruct (res_request_url res) as [b |].
    + rewrite classify_present_m3u8, classify_present_sub.
      * split; [apply classify_present_m3u8 | apply classify_present_sub]; intros H;
          [apply Hm | apply Hs]; auto; left.
      * intros H. apply classify_elem_sub. left. apply Hs; [right; left | exact H].
      * intros H. apply classify_elem_m3u8. left. apply Hm; [right; left | exact H].
    + split; [apply classify_present_m3u8 | apply classify_present_sub]; intros H;
        [apply Hm | apply Hs]; auto; left.
Qed.

(** X2: handling is idempotent.  An event that is delivered a second time
    leaves both sets as the first delivery left them, in content and in
    order. *)
Theorem handler_idempotent (e : NetEvent) (st : St) :
  m3u8Urls (handle e (handle e st)) = m3u8Urls (handle e st)
  /\ subUrls (handle e (handle e st)) = subUrls (handle e st).
Proof.
  apply handle_present; intros u Hu Hc.
  - apply handle_elem_m3u8. auto.
  - apply handle_elem_sub. auto.
Qed.

(** X3: the order of two events does not change what the sets hold (it
    can change the order in which [Array.from] lists it). *)
Theorem handlers_commute (e1 e2 : NetEvent) (st : St) (u : jsstring) :
  (u ∈ m3u8Urls (handle e1 (handle e2 st)) <-> u ∈ m3u8Urls (handle e2 (handle e1 st)))
  /\ (u ∈ subUrls (handle e1 (handle e2 st)) <-> u ∈ subUrls (handle e2 (handle e1 st))).
Proof.
  rewrite !handle_elem_m3u8, !handle_elem_sub. tauto.
Qed.

(** ** The subtitle scan *)

Section Collect.

Context {A : Type} (f : A -> jsstring).

Lemma collect_elem (l : list A) : forall (init : list jsstring) (u : jsstring),
  u ∈ foldl (collect_step f) init l <->
  u ∈ init \/ (u <> [] /\ exists x, x ∈ l /\ f x = u).
Proof.
  induction l as [|x l IH]; intros init u; cbn [foldl].
  - split; [auto | intros [H | (_ & x & Hx & _)]; [exact H |]].
    apply elem_of_nil in Hx. contradiction.
  - rewrite IH. unfold collect_step. cbv zeta. case_bool_decide as Hf.
    + split.
      * intros [H | (Hu & y & Hy & Hfy)]; [auto |].
        right. split; [exact Hu |]. exists y. split; [right; exact Hy | exact Hfy].
      * intros [H | (Hu & y & Hy & Hfy)]; [auto |].
        apply elem_of_cons in Hy as [-> | Hy]; [congruence |]. right. eauto.
    + rewrite elem_of_set_add. split.
      * intros [[-> | H] | (Hu & y & Hy & Hfy)]; [| auto |].
        -- right. split; [exact Hf |]. exists x. split; [left | reflexivity].
        -- right. split; [exact Hu |]. exists y. split; [right; exact Hy | exact Hfy].
      * intros [H | (Hu & y & Hy & Hfy)]; [auto |].
        apply elem_of_cons in Hy as [-> | Hy]; [auto |]. right. eauto.
Qed.

Lemma collect_NoDup (l : list A) :
  forall init : list jsstring, NoDup init -> NoDup (foldl (collect_step f) init l).
Proof.
  induction l as [|x l IH]; intros init Hi; cbn [foldl]; [exact Hi |].
  apply IH. unfold collect_step. cbv zeta. case_bool_decide; [exact Hi |].
  apply set_add_NoDup, Hi.
Qed.

End Collect.

(** X4: what the injected subtitle scan returns for a document: without
    duplicates, exactly the non-empty [src] of the elements that match
    [track[kind='subtitles'][src]] and the non-empty trimmed
    [data-track] / [data-subtitle] values of the elements that carry one
    of these attributes. *)
Theorem dom_subtitle_script_spec (doc : list Element) (u : jsstring) :
  (u ∈ dom_subtitle_script doc <->
   u <> [] /\
   ((exists el, el ∈ doc /\ is_subtitle_track el = true /\ src el = u) \/
    (exists el, el ∈ doc /\ has_data_track el = true /\ data_track_value el = u)))
  /\ NoDup (dom_subtitle_script doc).
Proof.
  unfold dom_subtitle_script. cbv zeta.
  change (fun (urls : list jsstring) (t : Element) =>
            if bool_decide (src t = []) then urls else set_add (src t) urls)
    with (collect_step src).
  change (fun (urls : list jsstring) (el : Element) =>
            if bool_decide (data_track_value el = []) then urls
            else set_add (data_track_value el) urls)
    with (collect_step data_track_value).
  split; [| apply collect_NoDup, collect_NoDup, NoDup_nil_2].
  rewrite !collect_elem, elem_of_nil. split.
  - intros [[[] | (Hu & el & Hel & <-)] | (Hu & el & Hel & <-)];
      apply list_elem_of_filter in Hel as [Hp Hel]; (split; [exact Hu |]); eauto 6.
  - intros (Hu & [(el & Hel & Hp & <-) | (el & Hel & Hp & <-)]).
    + left. right. split; [exact Hu |]. exists el.
      split; [apply list_elem_of_filter; auto | reflexivity].
    + right. split; [exact Hu |]. exists el.
      split; [apply list_elem_of_filter; auto | reflexivity].
Qed.

(** ** The interaction engine *)

Lemma calls_app l1 l2 : calls (l1 ++ l2) = calls l1 ++ calls l2.
Proof. apply omap_app. Qed.

Lemma calls_handlers l : Forall (fun a => handler_action a = true) l -> calls l = [].
Proof.
  induction 1 as [|a l Ha _ IH]; [reflexivity |].
  destruct a; try discriminate Ha; exact IH.
Qed.

Lemma calls_step op h l :
  Forall (fun a => handler_action a = true) h ->
  calls (ACall op :: h ++ l) = op :: calls l.
Proof.
  intros Hh. change (calls (ACall op :: h ++ l)) with (op :: calls (h ++ l)).
  rewrite calls_app, (calls_handlers h Hh). reflexivity.
Qed.

Lemma calls_one op h :
  Forall (fun a => handler_action a = true) h -> calls (ACall op :: h) = [op].
Proof.
  intros Hh. change (calls (ACall op :: h)) with (op :: calls h).
  rewrite (calls_handlers h Hh). reflexivity.
Qed.

Lemma await_call_step op w st :
  exists h, Forall (fun a => handler_action a = true) h /\
            log (snd (await_call op w st)) = log st ++ ACall op :: h /\
            tick (snd (await_call op w st)) = S (tick st).
Proof.
  destruct (await_call_log op w st) as (h & Hl & Fh). exists h.
  split; [exact Fh |]. split; [exact Hl |].
  unfold await_call. cbn [snd].
  destruct (deliver_frame (traffic (w (tick st)))
              (pass (Z.of_N (lag (w (tick st)))) (do_log (ACall op) st))) as (-> & _).
  reflexivity.
Qed.

Lemma lookup_step fid sel w st :
  try_catch (let* r := await_call (OpQuery fid sel) in ret (found r)) (ret false) w st =
  (Returns (negb (rejects (w (tick st))) && found (w (tick st))),
   snd (await_call (OpQuery fid sel) w st)).
Proof.
  unfold try_catch, bind, await_call, ret. destruct (rejects (w (tick st))); reflexivity.
Qed.

Lemma frame_query_attached frame sel w st :
  attached_frame (page_state (w (tick st))) frame = true ->
  frame_query frame sel w st =
  (Returns (negb (rejects (w (tick st))) && found (w (tick st))),
   snd (await_call (OpQuery (frame_id frame) sel) w st)).
Proof. intros Ha. unfold frame_query. rewrite Ha. apply lookup_step. Qed.

Lemma frame_query_detached frame sel w st :
  attached_frame (page_state (w (tick st))) frame = false ->
  frame_query frame sel w st = (Throws (OpQuery (frame_id frame) sel), st).
Proof. intros Ha. unfold frame_query. rewrite Ha. reflexivity. Qed.

Lemma click_step fid sel w st :
  try_catch (await_call (OpClick fid sel 50) >> ret true) (ret false) w st =
  (Returns (negb (rejects (w (tick st)))), snd (await_call (OpClick fid sel 50) w st)).
Proof.
  unfold try_catch, bind, await_call, ret. destruct (rejects (w (tick st))); reflexivity.
Qed.

Lemma last_cons_Some {A} (x y : A) l : last l = Some y -> last (x :: l) = Some y.
Proof. intros H. rewrite last_cons, H. reflexivity. Qed.

Lemma queried_query f sel l : omap queried (OpQuery f sel :: l) = sel :: omap queried l.
Proof. reflexivity. Qed.

Lemma queried_click f sel d l : omap queried (OpClick f sel d :: l) = omap queried l.
Proof. reflexivity. Qed.

(** A run of [tryClickSelectors], whatever its outcome. *)
Lemma tryClickSelectors_run (frame : Frame) (selectors : list string) (w : World) :
  forall st, exists r st' l,
    tryClickSelectors frame selectors w st = (r, st') /\
    log st' = log st ++ l /\
    Forall (click_call (frame_id frame)) (calls l) /\
    omap queried (calls l) `prefix_of` selectors /\
    tick st' = (tick st + length (calls l))%nat /\
    (length (calls l) <= 2 * length selectors)%nat /\
    match r with
    | Returns b =>
        (selectors <> [] ->
         attached_frame (page_state (w (tick st))) frame = true /\
         (1 <= length (calls l))%nat) /\
        (b = false -> omap queried (calls l) = selectors) /\
        (b = true ->
         exists sel, last (calls l) = Some (OpClick (frame_id frame) sel 50) /\
                     last (omap queried (calls l)) = Some sel /\
                     rejects (w (pred (tick st'))) = false)
    | Throws op =>
        attached_frame (page_state (w (tick st'))) frame = false /\
        exists sel, op = OpQuery (frame_id frame) sel /\
                    omap queried (calls l) ++ [sel] `prefix_of` selectors
    | OutOfFuel => False
    end.
Proof.
  induction selectors as [|sel rest IH]; intros st.
  - exists (Returns false), st, []. cbn [tryClickSelectors ret].
    rewrite app_nil_r.
    split; [reflexivity |]. split; [reflexivity |]. split; [constructor |].
    split; [reflexivity |]. split; [cbn; lia |]. split; [cbn; lia |].
    split; [intros H; contradiction |]. split; [reflexivity | discriminate].
  - cbn [tryClickSelectors].
    destruct (attached_frame (page_state (w (tick st))) frame) eqn:Ha.
    2:{ exists (Throws (OpQuery (frame_id frame) sel)), st, [].
        rewrite (bind_throws _ _ _ _ _ _ (frame_query_detached frame sel w st Ha)).
        rewrite app_nil_r.
        split; [reflexivity |]. split; [reflexivity |]. split; [constructor |].
        split; [apply prefix_nil |]. split; [cbn; lia |]. split; [cbn; lia |].
        split; [exact Ha |]. exists sel. split; [reflexivity |].
        apply prefix_cons, prefix_nil. }
    rewrite (bind_returns _ _ _ _ _ _ (frame_query_attached frame sel w st Ha)).
    destruct (await_call_step (OpQuery (frame_id frame) sel) w st) as (h1 & Fh1 & Hl1 & Ht1).
    set (st1 := snd (await_call (OpQuery (frame_id frame) sel) w st)) in *.
    destruct (negb (rejects (w (tick st))) && found (w (tick st))); cbn [negb].
    + rewrite (bind_returns _ _ _ _ _ _ (click_step (frame_id frame) sel w st1)).
      destruct (await_call_step (OpClick (frame_id frame) sel 50) w st1)
        as (h2 & Fh2 & Hl2 & Ht2).
      set (st2 := snd (await_call (OpClick (frame_id frame) sel 50) w st1)) in *.
      destruct (rejects (w (tick st1))) eqn:Hr; cbn [negb].
      * destruct (IH st2) as (r & st' & l & Hrun & Hl & Fc & Hp & Ht & Hn & Hout).
        exists r, st', (ACall (OpQuery (frame_id frame) sel) :: h1 ++
                        ACall (OpClick (frame_id frame) sel 50) :: h2 ++ l).
        rewrite (calls_step _ h1 _ Fh1), (calls_step _ h2 _ Fh2).
        split; [exact Hrun |].
        split; [rewrite Hl, Hl2, Hl1, <- !(assoc_L (++)); reflexivity |].
        split; [repeat constructor; assumption |].
        split; [rewrite ?queried_query, ?queried_click; apply prefix_cons, Hp |].
        split; [rewrite Ht, Ht2, Ht1; cbn [length]; lia |].
        split; [cbn [length]; lia |].
        destruct r as [b | op |]; [| | exact Hout].
        -- destruct Hout as (_ & Hf & Htr).
           split; [intros _; split; [reflexivity | cbn [length]; lia] |].
           split; [intros Hb; rewrite ?queried_query, ?queried_click;
                   rewrite (Hf Hb); reflexivity |].
           intros Hb. destruct (Htr Hb) as (s & Hlast & Hq & Hrej). exists s.
           split; [do 2 apply last_cons_Some; exact Hlast |].
           split; [rewrite ?queried_query, ?queried_click; apply last_cons_Some; exact Hq
                  | exact Hrej].
        -- destruct Hout as (Hd & s & -> & Hs). split; [exact Hd |].
           exists s. split; [reflexivity |].
           rewrite ?queried_query, ?queried_click. apply prefix_cons, Hs.
      * exists (Returns true), st2, (ACall (OpQuery (frame_id frame) sel) :: h1 ++
                                     ACall (OpClick (frame_id frame) sel 50) :: h2 ++ []).
        rewrite (calls_step _ h1 _ Fh1), (calls_step _ h2 _ Fh2).
        split; [reflexivity |].
        split; [rewrite Hl2, Hl1, app_nil_r, <- !(assoc_L (++)); reflexivity |].
        split; [repeat constructor |].
        split; [rewrite ?queried_query, ?queried_click; apply prefix_cons, prefix_nil |].
        split; [rewrite Ht2, Ht1; cbn; lia |].
        split; [cbn; lia |].
        split; [intros _; split; [reflexivity | cbn; lia] |].
        split; [discriminate |].
        intros _. exists sel. split; [reflexivity |]. split; [reflexivity |].
        rewrite Ht2. cbn [pred]. exact Hr.
    + destruct (IH st1) as (r & st' & l & Hrun & Hl & Fc & Hp & Ht & Hn & Hout).
      exists r, st', (ACall (OpQuery (frame_id frame) sel) :: h1 ++ l).
      rewrite (calls_step _ h1 _ Fh1).
      split; [exact Hrun |].
      split; [rewrite Hl, Hl1, <- !(assoc_L (++)); reflexivity |].
      split; [constructor; [reflexivity | exact Fc] |].
      split; [rewrite ?queried_query, ?queried_click; apply prefix_cons, Hp |].
      split; [rewrite Ht, Ht1; cbn [length]; lia |].
      split; [cbn [length]; lia |].
      destruct r as [b | op |]; [| | exact Hout].
      * destruct Hout as (_ & Hf & Htr).
        split; [intros _; split; [reflexivity | cbn [length]; lia] |].
        split; [intros Hb; rewrite ?queried_query, ?queried_click;
                rewrite (Hf Hb); reflexivity |].
        intros Hb. destruct (Htr Hb) as (s & Hlast & Hq & Hrej). exists s.
        split; [apply last_cons_Some; exact Hlast |].
        split; [rewrite ?queried_query, ?queried_click; apply last_cons_Some; exact Hq
               | exact Hrej].
      * destruct Hout as (Hd & s & -> & Hs). split; [exact Hd |].
        exists s. split; [reflexivity |].
        rewrite ?queried_query, ?queried_click. apply prefix_cons, Hs.
Qed.


Lemma autoplayed_click_calls f cs :
  Forall (click_call f) cs -> omap autoplayed cs = [].
Proof.
  induction 1 as [|op cs Hop _ IH]; [reflexivity |].
  destruct op; try contradiction; exact IH.
Qed.

Lemma tryAutoplay_attached frame w st :
  attached_frame (page_state (w (tick st))) frame = true ->
  tryAutoplay frame w st =
  (Returns tt, snd (await_call (OpEvaluateAutoplay (frame_id frame)) w st)).
Proof.
  intros Ha. unfold tryAutoplay, try_catch, bind, frame_evaluate_autoplay. rewrite Ha.
  unfold await_call, ret. destruct (rejects (w (tick st))); reflexivity.
Qed.

Lemma tryAutoplay_detached frame w st :
  attached_frame (page_state (w (tick st))) frame = false ->
  tryAutoplay frame w st = (Returns tt, st).
Proof.
  intros Ha. unfold tryAutoplay, try_catch, bind, frame_evaluate_autoplay. rewrite Ha.
  reflexivity.
Qed.

(** One frame of an interaction round. *)
Lemma interact_frame_run (f : Frame) w st :
  exists r st' l,
    (tryCloseOverlays f >> tryPlay f) w st = (r, st') /\
    log st' = log st ++ l /\
    (length (calls l) <= 23)%nat /\
    tick st' = (tick st + length (calls l))%nat /\
    omap autoplayed (calls l) `sublist_of` [frame_id f] /\
    match r with
    | Returns _ =>
        (exists m, (tick st < m)%nat /\ attached_frame (page_state (w m)) f = true) /\
        ((forall m, (tick st <= m <= tick st')%nat ->
                    attached_frame (page_state (w m)) f = true) ->
         omap autoplayed (calls l) = [frame_id f])
    | Throws op =>
        omap autoplayed (calls l) = [] /\
        attached_frame (page_state (w (tick st'))) f = false /\
        exists sel, op = OpQuery (frame_id f) sel
    | OutOfFuel => False
    end.
Proof.
  destruct (tryClickSelectors_run f closeSelectors w st)
    as (r1 & st1 & l1 & H1 & L1 & F1 & _ & T1 & N1 & O1).
  change (length closeSelectors) with 5%nat in N1.
  unfold tryCloseOverlays, tryPlay. rewrite bind_assoc.
  destruct r1 as [b1 | op1 |]; [| | contradiction].
  2:{ exists (Throws op1), st1, l1.
      rewrite (bind_throws _ _ _ _ _ _ H1).
      split; [reflexivity |]. split; [exact L1 |]. split; [lia |]. split; [exact T1 |].
      rewrite (autoplayed_click_calls _ _ F1).
      split; [apply sublist_nil_l |].
      destruct O1 as (Hd & sel & -> & _).
      split; [reflexivity |]. split; [exact Hd | eauto]. }
  rewrite (bind_returns _ _ _ _ _ _ H1). unfold bind at 1. cbn [ret].
  destruct O1 as (Hfirst & _). destruct Hfirst as [_ Hone]; [discriminate |].
  destruct (tryClickSelectors_run f playSelectors w st1)
    as (r2 & st2 & l2 & H2 & L2 & F2 & _ & T2 & N2 & O2).
  change (length playSelectors) with 6%nat in N2.
  destruct r2 as [b2 | op2 |]; [| | contradiction].
  2:{ exists (Throws op2), st2, (l1 ++ l2).
      rewrite (bind_throws _ _ _ _ _ _ H2).
      split; [reflexivity |].
      split; [rewrite L2, L1, <- (assoc_L (++)); reflexivity |].
      split; [rewrite calls_app, length_app; lia |].
      split; [rewrite T2, T1, calls_app, length_app; lia |].
      rewrite calls_app, omap_app, (autoplayed_click_calls _ _ F1),
        (autoplayed_click_calls _ _ F2).
      split; [apply sublist_nil_l |].
      destruct O2 as (Hd & sel & -> & _).
      split; [reflexivity |]. split; [exact Hd | eauto]. }
  rewrite (bind_returns _ _ _ _ _ _ H2).
  destruct O2 as (Hplay & _). destruct Hplay as [Hatt _]; [discriminate |].
  assert (Hm : exists m, (tick st < m)%nat /\ attached_frame (page_state (w m)) f = true).
  { exists (tick st1). split; [lia | exact Hatt]. }
  destruct (attached_frame (page_state (w (tick st2))) f) eqn:Ha.
  - destruct (await_call_step (OpEvaluateAutoplay (frame_id f)) w st2)
      as (h & Fh & L3 & T3).
    exists (Returns tt), (snd (await_call (OpEvaluateAutoplay (frame_id f)) w st2)),
      (l1 ++ l2 ++ ACall (OpEvaluateAutoplay (frame_id f)) :: h).
    split; [apply tryAutoplay_attached, Ha |].
    split; [rewrite L3, L2, L1, <- !(assoc_L (++)); reflexivity |].
    rewrite !calls_app, !length_app, !omap_app, (calls_one _ h Fh),
      (autoplayed_click_calls _ _ F1), (autoplayed_click_calls _ _ F2).
    split; [cbn [length]; lia |].
    split; [rewrite T3, T2, T1; cbn [length]; lia |].
    split; [reflexivity |]. split; [exact Hm | reflexivity].
  - exists (Returns tt), st2, (l1 ++ l2).
    split; [apply tryAutoplay_detached, Ha |].
    split; [rewrite L2, L1, <- (assoc_L (++)); reflexivity |].
    rewrite calls_app, length_app, omap_app,
      (autoplayed_click_calls _ _ F1), (autoplayed_click_calls _ _ F2).
    split; [lia |]. split; [rewrite T2, T1; lia |].
    split; [apply sublist_nil_l |]. split; [exact Hm |].
    intros Hall. rewrite Hall in Ha; [discriminate | lia].
Qed.

(** The frames of a round, one after the other: the round stops at the
    first frame in which a lookup throws. *)
Lemma interact_frames_run (fs : list Frame) w : forall st,
  exists r st' l,
    for_each fs (fun f => tryCloseOverlays f >> tryPlay f) w st = (r, st') /\
    log st' = log st ++ l /\
    (length (calls l) <= 23 * length fs)%nat /\
    tick st' = (tick st + length (calls l))%nat /\
    match r with
    | Returns _ =>
        omap autoplayed (calls l) `sublist_of` map frame_id fs /\
        (forall f, f ∈ fs ->
                   exists m, (tick st < m)%nat /\
                             attached_frame (page_state (w m)) f = true) /\
        ((forall f m, f ∈ fs -> (tick st <= m <= tick st')%nat ->
                      attached_frame (page_state (w m)) f = true) ->
         omap autoplayed (calls l) = map frame_id fs)
    | Throws op =>
        exists fs1 f fs2 sel,
          fs = fs1 ++ f :: fs2 /\ op = OpQuery (frame_id f) sel /\
          omap autoplayed (calls l) `sublist_of` map frame_id fs1 /\
          attached_frame (page_state (w (tick st'))) f = false
    | OutOfFuel => False
    end.
Proof.
  induction fs as [|f fs IH]; intros st.
  - exists (Returns tt), st, []. rewrite app_nil_r.
    change (calls []) with (@nil DriverOp). cbn [for_each ret length map].
    split; [reflexivity |]. split; [reflexivity |]. split; [lia |]. split; [lia |].
    split; [reflexivity |]. split; [| reflexivity].
    intros f Hf. apply elem_of_nil in Hf. contradiction.
  - destruct (interact_frame_run f w st) as (r1 & st1 & l1 & H1 & L1 & N1 & T1 & S1 & O1).
    cbn [for_each].
    destruct r1 as [[] | op1 |]; [| | contradiction].
    2:{ exists (Throws op1), st1, l1.
        rewrite (bind_throws _ _ _ _ _ _ H1).
        split; [reflexivity |]. split; [exact L1 |].
        split; [cbn [length]; lia |]. split; [exact T1 |].
        destruct O1 as (A1 & Hd & sel & ->).
        exists [], f, fs, sel. split; [reflexivity |]. split; [reflexivity |].
        split; [rewrite A1; reflexivity | exact Hd]. }
    rewrite (bind_returns _ _ _ _ _ _ H1).
    destruct O1 as ((m1 & Hm1 & Hatt1) & A1).
    destruct (IH st1) as (r2 & st2 & l2 & H2 & L2 & N2 & T2 & O2).
    exists r2, st2, (l1 ++ l2).
    split; [exact H2 |].
    split; [rewrite L2, L1, <- (assoc_L (++)); reflexivity |].
    rewrite calls_app, length_app, omap_app.
    split; [cbn [length]; lia |].
    split; [rewrite T2, T1; lia |].
    destruct r2 as [[] | op2 |]; [| | exact O2].
    + destruct O2 as (S2 & Hall & A2).
      split; [exact (sublist_app _ _ _ _ S1 S2) |]. split.
      * intros g Hg. apply elem_of_cons in Hg as [-> | Hg]; [eauto |].
        destruct (Hall g Hg) as (m & Hm & Hatt). exists m. split; [lia | exact Hatt].
      * intros Hstay. rewrite A1, A2; [reflexivity | |].
        -- intros g m Hg Hm. apply Hstay; [right; exact Hg | lia].
        -- intros m Hm. apply Hstay; [left | lia].
    + destruct O2 as (fs1 & g & fs2 & sel & -> & -> & S2 & Hd).
      exists (f :: fs1), g, fs2, sel. split; [reflexivity |]. split; [reflexivity |].
      split; [exact (sublist_app _ _ _ _ S1 S2) | exact Hd].
Qed.

(** An interaction round. *)
Lemma tryInteractAllFrames_run (w : World) (st : St) :
  exists r st' l,
    tryInteractAllFrames w st = (r, st') /\
    log st' = log st ++ AFrames :: l /\
    Forall (fun a => stage a = false) l /\
    (length (calls l) <= 23 * length (frames (page_state (w (tick st)))))%nat /\
    tick st' = (tick st + length (calls l))%nat /\
    match r with
    | Returns _ =>
        omap autoplayed (calls l)
          `sublist_of` map frame_id (frames (page_state (w (tick st)))) /\
        (forall f, f ∈ frames (page_state (w (tick st))) ->
                   exists m, (tick st < m)%nat /\
                             attached_frame (page_state (w m)) f = true) /\
        ((forall f m, f ∈ frames (page_state (w (tick st))) ->
                      (tick st <= m <= tick st')%nat ->
                      attached_frame (page_state (w m)) f = true) ->
         omap autoplayed (calls l) = map frame_id (frames (page_state (w (tick st)))))
    | Throws op =>
        exists fs1 f fs2 sel,
          frames (page_state (w (tick st))) = fs1 ++ f :: fs2 /\
          op = OpQuery (frame_id f) sel /\
          omap autoplayed (calls l) `sublist_of` map frame_id fs1 /\
          attached_frame (page_state (w (tick st'))) f = false
    | OutOfFuel => False
    end.
Proof.
  set (fs := frames (page_state (w (tick st)))).
  destruct (interact_frames_run fs w (do_log AFrames st))
    as (r & st' & l & H & L & N & T & O).
  exists r, st', l. split; [exact H |].
  split; [rewrite L; cbn [do_log log]; rewrite <- (assoc_L (++)); reflexivity |].
  split; [| split; [exact N | split; [exact T | exact O]]].
  destruct (@keeps_interact_frames w _ _ (no_stage_stable w) True
              ltac:(keeps_side) (fun _ => True) fs ltac:(keeps_side) (do_log AFrames st))
    as [(l' & L' & F') _].
  rewrite H in L'. cbn [snd] in L'. rewrite L in L'.
  apply app_inv_head in L'. subst l'. exact F'.
Qed.

(** X6: an interaction round enumerates the frames once, at its start, and
    goes through that enumeration, the main frame first, with at most 23
    driver calls per frame (two per selector, one injection) and no wait.
    When it returns, every frame of the enumeration was still in the page
    after the round began, and the round has injected the autoplay script
    at most once per frame, in the order of the enumeration, whatever
    happened to the lookups and the clicks: exactly once in every frame
    when the frames stayed in the page throughout the round.  It throws
    when a frame of the enumeration has left the page at the moment of
    one of its lookups: only frames before that one have had their
    injection, that frame and the frames after it have none. *)
Theorem tryInteractAllFrames_spec (w : World) (st : St) :
  exists r st' l,
    tryInteractAllFrames w st = (r, st') /\
    log st' = log st ++ AFrames :: l /\
    Forall (fun a => stage a = false) l /\
    (length (calls l) <= 23 * length (frames (page_state (w (tick st)))))%nat /\
    tick st' = (tick st + length (calls l))%nat /\
    match r with
    | Returns _ =>
        omap autoplayed (calls l)
          `sublist_of` map frame_id (frames (page_state (w (tick st)))) /\
        (forall f, f ∈ frames (page_state (w (tick st))) ->
                   exists m, (tick st < m)%nat /\
                             attached_frame (page_state (w m)) f = true) /\
        ((forall f m, f ∈ frames (page_state (w (tick st))) ->
                      (tick st <= m <= tick st')%nat ->
                      attached_frame (page_state (w m)) f = true) ->
         omap autoplayed (calls l) = map frame_id (frames (page_state (w (tick st)))))
    | Throws op =>
        exists fs1 f fs2 sel,
          frames (page_state (w (tick st))) = fs1 ++ f :: fs2 /\
          op = OpQuery (frame_id f) sel /\
          omap autoplayed (calls l) `sublist_of` map frame_id fs1 /\
          attached_frame (page_state (w (tick st'))) f = false
    | OutOfFuel => False
    end.
Proof. apply tryInteractAllFrames_run. Qed.

(** ** Failures that the caller sees *)



(** X8: when the launch is rejected, both entry points throw that
    rejection and do nothing else: [browser] is still [null], so the
    [finally] block has no session to close. *)
Theorem launch_failure_propagates fuel targetUrl w t0 :
  rejects (w 0%nat) = true ->
  (exists stF,
      scrapeProvider fuel targetUrl w (fresh t0)
      = (Throws (OpLaunch true launchArgs), stF) /\
      log stF = [ACall (OpLaunch true launchArgs)])
  /\ (exists stF,
         scrapeProviderWithSubtitles fuel targetUrl w (fresh t0)
         = (Throws (OpLaunch true launchArgs), stF) /\
         log stF = [ACall (OpLaunch true launchArgs)]).
Proof.
  intros Hr. split; eexists.
  - unfold scrapeProvider, try_finally, scrapeProvider_try.
    unfold bind at 1. unfold launch. unfold bind at 1. unfold await_call.
    cbn [fresh tick]. rewrite Hr. cbn. split; reflexivity.
  - unfold scrapeProviderWithSubtitles, try_finally, scrapeProviderWithSubtitles_try.
    unfold bind at 1. unfold launch. unfold bind at 1. unfold await_call.
    cbn [fresh tick]. rewrite Hr. cbn. split; reflexivity.
Qed.

Lemma launch_failure_propagates_witness :
  (exists stF,
      scrapeProvider 21 (js "http://x/") world_no_browser (fresh 0)
      = (Throws (OpLaunch true launchArgs), stF) /\
      log stF = [ACall (OpLaunch true launchArgs)])
  /\ (exists stF,
         scrapeProviderWithSubtitles 21 (js "http://x/") world_no_browser (fresh 0)
         = (Throws (OpLaunch true launchArgs), stF) /\
         log stF = [ACall (OpLaunch true launchArgs)]).
Proof.
  apply (launch_failure_propagates 21 (js "http://x/") world_no_browser 0). reflexivity.
Defined.

(** The session up to the registration of the handlers. *)

Lemma await_call_unattached op w st :
  attached st = false ->
  snd (await_call op w st) = pass (Z.of_N (lag (w (tick st)))) (do_log (ACall op) st).
Proof. intros Ha. unfold await_call, deliver. cbn [snd pass do_log attached]. rewrite Ha. reflexivity. Qed.

Lemma await_call_inv op w st r st' :
  await_call op w st = (Returns r, st') -> st' = snd (await_call op w st).
Proof. intros H. rewrite H. reflexivity. Qed.

Lemma bootstrap_spec w st0 sa :
  bootstrap w st0 = (Returns tt, sa) ->
  attached st0 = false ->
  browser sa = true /\ attached sa = true /\
  m3u8Urls sa = m3u8Urls st0 /\ subUrls sa = subUrls st0 /\
  tick sa = (tick st0 + 7)%nat.
Proof.
  intros H Ha. unfold bootstrap, launch, createPage in H.
  bind_inv H. bind_inv Hm. unfold modify in Hm. injection Hm as _ <-.
  apply await_call_inv in Hm0. rewrite (await_call_unattached _ _ _ Ha) in Hm0. subst s0.
  bind_inv H.
  repeat match goal with
         | Hb : bind _ _ _ _ = (Returns _, _) |- _ => bind_inv Hb
         end.
  unfold ret in Hm. injection Hm as _ ->.
  unfold attachNetworkCollectors, modify in H. injection H as <-.
  apply await_call_inv in Hm0. rewrite await_call_unattached in Hm0 by exact Ha. subst s0.
  apply await_call_inv in Hm1. rewrite await_call_unattached in Hm1 by exact Ha. subst s1.
  apply await_call_inv in Hm2. rewrite await_call_unattached in Hm2 by exact Ha. subst s2.
  apply await_call_inv in Hm3. rewrite await_call_unattached in Hm3 by exact Ha. subst s3.
  apply await_call_inv in Hm4. rewrite await_call_unattached in Hm4 by exact Ha. subst s4.
  apply await_call_inv in Hm5. rewrite await_call_unattached in Hm5 by exact Ha. subst s.
  cbn. repeat split; try reflexivity. lia.
Qed.

Lemma scrapeProvider_try_from_bootstrap fuel targetUrl w st0 sa :
  bootstrap w st0 = (Returns tt, sa) ->
  scrapeProvider_try fuel targetUrl w st0 =
  (goto targetUrl >> delay PASSIVE_WAIT_MS >> escalate fuel) w sa.
Proof.
  intros H.
  rewrite <- (bind_returns bootstrap
                (fun _ => goto targetUrl >> delay PASSIVE_WAIT_MS >> escalate fuel)
                w st0 tt sa H).
  unfold scrapeProvider_try, bootstrap, escalate.
  rewrite bind_assoc. apply bind_cong; intros _ st1.
  rewrite bind_assoc. reflexivity.
Qed.

Lemma scrapeProviderWithSubtitles_try_from_bootstrap fuel targetUrl w st0 sa :
  bootstrap w st0 = (Returns tt, sa) ->
  scrapeProviderWithSubtitles_try fuel targetUrl w st0 =
  (goto targetUrl >> delay PASSIVE_WAIT_MS >> escalate_with_subtitles fuel) w sa.
Proof.
  intros H.
  rewrite <- (bind_returns bootstrap
                (fun _ => goto targetUrl >> delay PASSIVE_WAIT_MS >>
                          escalate_with_subtitles fuel)
                w st0 tt sa H).
  unfold scrapeProviderWithSubtitles_try, bootstrap, escalate_with_subtitles.
  rewrite bind_assoc. apply bind_cong; intros _ st1.
  rewrite bind_assoc. reflexivity.
Qed.

Lemma goto_rejected targetUrl w st :
  rejects (w (tick st)) = true ->
  goto targetUrl w st =
  (Throws (OpGoto targetUrl "domcontentloaded" 30000),
   snd (await_call (OpGoto targetUrl "domcontentloaded" 30000) w st)).
Proof.
  intros Hr. unfold goto. apply bind_throws. unfold await_call. rewrite Hr. reflexivity.
Qed.

Lemma finally_after_throw {A} (body : M A) w st0 op st1 :
  body w st0 = (Throws op, st1) ->
  browser st1 = true ->
  exists l, try_finally body teardown w st0 = (Throws op, snd (teardown w st1)) /\
            log (snd (teardown w st1)) = log st1 ++ ACall OpClose :: l /\
            Forall (fun a => handler_action a = true) l.
Proof.
  intros Hbody Hb. destruct (teardown_closes w st1 Hb) as (l & Hl & Fl).
  exists l. split; [| split; assumption].
  unfold try_finally. rewrite Hbody. pose proof (teardown_returns w st1) as Ht.
  destruct (teardown w st1) as [rt st2]. cbn [fst] in Ht. subst rt. reflexivity.
Qed.

(** X9: a rejected navigation is fatal to the call.  When the session is
    up and [page.goto] is rejected, both entry points close the browser
    and throw that rejection; they wait for nothing and interact with
    nothing. *)
Theorem navigation_failure_propagates fuel targetUrl w t0 sa :
  bootstrap w (fresh t0) = (Returns tt, sa) ->
  rejects (w (tick sa)) = true ->
  let nav := OpGoto targetUrl "domcontentloaded" 30000 in
  (exists stF l1 l2,
      scrapeProvider fuel targetUrl w (fresh t0) = (Throws nav, stF) /\
      log stF = log sa ++ ACall nav :: l1 ++ ACall OpClose :: l2 /\
      Forall (fun a => handler_action a = true) (l1 ++ l2))
  /\ (exists stF l1 l2,
         scrapeProviderWithSubtitles fuel targetUrl w (fresh t0) = (Throws nav, stF) /\
         log stF = log sa ++ ACall nav :: l1 ++ ACall OpClose :: l2 /\
         Forall (fun a => handler_action a = true) (l1 ++ l2)).
Proof.
  intros Hboot Hr nav.
  destruct (bootstrap_spec _ _ _ Hboot eq_refl) as (Hb & _).
  destruct (await_call_step nav w sa) as (l1 & F1 & L1 & _).
  assert (Hb1 : browser (snd (await_call nav w sa)) = true).
  { apply (@stable_call w _ _ (browser_kept_stable w) nav sa I Hb). }
  split.
  - destruct (finally_after_throw (scrapeProvider_try fuel targetUrl) w (fresh t0) nav
                (snd (await_call nav w sa))) as (l2 & H & L2 & F2); [| exact Hb1 |].
    { rewrite (scrapeProvider_try_from_bootstrap _ _ _ _ _ Hboot).
      apply bind_throws, goto_rejected, Hr. }
    eexists _, l1, l2. split; [exact H |].
    split; [rewrite L2, L1, <- (assoc_L (++)); reflexivity | apply Forall_app; auto].
  - destruct (finally_after_throw (scrapeProviderWithSubtitles_try fuel targetUrl) w
                (fresh t0) nav (snd (await_call nav w sa))) as (l2 & H & L2 & F2);
      [| exact Hb1 |].
    { rewrite (scrapeProviderWithSubtitles_try_from_bootstrap _ _ _ _ _ Hboot).
      apply bind_throws, goto_rejected, Hr. }
    eexists _, l1, l2. split; [exact H |].
    split; [rewrite L2, L1, <- (assoc_L (++)); reflexivity | apply Forall_app; auto].
Qed.

Lemma navigation_failure_propagates_witness :
  let sa := snd (bootstrap world_unreachable (fresh 0)) in
  let nav := OpGoto (js "http://x/") "domcontentloaded" 30000 in
  (exists stF l1 l2,
      scrapeProvider 21 (js "http://x/") world_unreachable (fresh 0) = (Throws nav, stF) /\
      log stF = log sa ++ ACall nav :: l1 ++ ACall OpClose :: l2 /\
      Forall (fun a => handler_action a = true) (l1 ++ l2))
  /\ (exists stF l1 l2,
         scrapeProviderWithSubtitles 21 (js "http://x/") world_unreachable (fresh 0)
         = (Throws nav, stF) /\
         log stF = log sa ++ ACall nav :: l1 ++ ACall OpClose :: l2 /\
         Forall (fun a => handler_action a = true) (l1 ++ l2)).
Proof.
  apply (navigation_failure_propagates 21 (js "http://x/") world_unreachable 0
           (snd (bootstrap world_unreachable (fresh 0)))).
  - vm_compute. reflexivity.
  - vm_compute. reflexivity.
Defined.

(** ** The result is what the traffic showed *)

Lemma foldl_handle_elem_m3u8 evs : forall st u,
  u ∈ m3u8Urls (foldl (fun st e => handle e st) st evs) <->
  u ∈ m3u8Urls st \/ exists e, e ∈ evs /\ u ∈ event_urls e /\ isM3U8 u = true.
Proof.
  induction evs as [|e evs IH]; intros st u; cbn [foldl].
  - split; [auto | intros [H | (e & He & _)]; [exact H |]].
    apply elem_of_nil in He. contradiction.
  - rewrite IH, handle_elem_m3u8. split.
    + intros [[H | [H1 H2]] | (e' & He' & H1 & H2)]; [auto | |].
      * right. exists e. split; [left | auto].
      * right. exists e'. split; [right; exact He' | auto].
    + intros [H | (e' & He' & H1 & H2)]; [auto |].
      apply elem_of_cons in He' as [-> | He']; [auto |]. right. eauto.
Qed.

Lemma foldl_handle_elem_sub evs : forall st u,
  u ∈ subUrls (foldl (fun st e => handle e st) st evs) <->
  u ∈ subUrls st \/ exists e, e ∈ evs /\ u ∈ event_urls e /\ isSubtitle u = true.
Proof.
  induction evs as [|e evs IH]; intros st u; cbn [foldl].
  - split; [auto | intros [H | (e & He & _)]; [exact H |]].
    apply elem_of_nil in He. contradiction.
  - rewrite IH, handle_elem_sub. split.
    + intros [[H | [H1 H2]] | (e' & He' & H1 & H2)]; [auto | |].
      * right. exists e. split; [left | auto].
      * right. exists e'. split; [right; exact He' | auto].
    + intros [H | (e' & He' & H1 & H2)]; [auto |].
      apply elem_of_cons in He' as [-> | He']; [auto |]. right. eauto.
Qed.

Lemma deliver_elem_m3u8 evs st u :
  u ∈ m3u8Urls (deliver evs st) <->
  u ∈ m3u8Urls st \/
  (attached st = true /\ exists e, e ∈ evs /\ u ∈ event_urls e /\ isM3U8 u = true).
Proof.
  unfold deliver. destruct (attached st).
  - rewrite foldl_handle_elem_m3u8. split.
    + intros [H | H]; [left; exact H | right; split; [reflexivity | exact H]].
    + intros [H | [_ H]]; [left; exact H | right; exact H].
  - split; [auto | intros [H | [H _]]; [exact H | discriminate]].
Qed.

Lemma deliver_elem_sub evs st u :
  u ∈ subUrls (deliver evs st) <->
  u ∈ subUrls st \/
  (attached st = true /\ exists e, e ∈ evs /\ u ∈ event_urls e /\ isSubtitle u = true).
Proof.
  unfold deliver. destruct (attached st).
  - rewrite foldl_handle_elem_sub. split.
    + intros [H | H]; [left; exact H | right; split; [reflexivity | exact H]].
    + intros [H | [_ H]]; [left; exact H | right; exact H].
  - split; [auto | intros [H | [H _]]; [exact H | discriminate]].
Qed.

Lemma shown_empty w lo u : ~ shown w lo lo u.
Proof. intros (n & e & Hn & _). lia. Qed.

Lemma shown_widen w lo hi lo' hi' u :
  (lo' <= lo)%nat -> (hi <= hi')%nat -> shown w lo hi u -> shown w lo' hi' u.
Proof. intros H1 H2 (n & e & Hn & H). exists n, e. split; [lia | exact H]. Qed.

Lemma records_exactly_same w D st st' :
  tick st' = tick st -> attached st' = attached st ->
  m3u8Urls st' = m3u8Urls st -> subUrls st' = subUrls st ->
  records_exactly w D st st'.
Proof.
  intros Ht Ha Hm Hs. unfold records_exactly. rewrite Ht, Ha, Hm, Hs.
  repeat split; auto. all: exfalso; eapply shown_empty; eassumption.
Qed.

Lemma records_exactly_trans w D st1 st2 st3 :
  records_exactly w D st1 st2 -> records_exactly w D st2 st3 ->
  records_exactly w D st1 st3.
Proof.
  intros (T1 & A1 & M1 & S1 & SM1 & SS1 & C1) (T2 & A2 & M2 & S2 & SM2 & SS2 & C2).
  split; [lia |]. split; [auto |]. split; [auto |]. split; [auto |].
  split; [| split].
  - intros u Hu. destruct (SM2 u Hu) as [H | [H1 H2]].
    + destruct (SM1 u H) as [H' | [H1 H2]]; [auto |].
      right. split; [exact H1 |]. eapply shown_widen; [| | exact H2]; lia.
    + right. split; [exact H1 |]. eapply shown_widen; [| | exact H2]; lia.
  - intros u Hu. destruct (SS2 u Hu) as [H | [[H1 H2] | H]]; [| | auto].
    + destruct (SS1 u H) as [H' | [[H1 H2] | H']]; [auto | | auto].
      right. left. split; [exact H1 |]. eapply shown_widen; [| | exact H2]; lia.
    + right. left. split; [exact H1 |]. eapply shown_widen; [| | exact H2]; lia.
  - intros Ha u (n & e & Hn & He & Hu).
    destruct (Nat.lt_ge_cases n (tick st2)) as [Hlt | Hge].
    + destruct (C1 Ha u) as [Hm Hs]; [exists n, e; split; [lia | auto] |].
      split; intros H; [apply M2, Hm, H | apply S2, Hs, H].
    + apply (C2 (A1 Ha) u). exists n, e. split; [lia | auto].
Qed.

Lemma records_exactly_step w D a z st :
  records_exactly w D st (deliver (traffic (w (tick st))) (pass z (do_log a st))).
Proof.
  set (st0 := pass z (do_log a st)).
  destruct (deliver_frame (traffic (w (tick st))) st0) as (Ht & _ & _ & Ha).
  unfold records_exactly. rewrite Ht, Ha. cbn [st0 pass do_log tick attached].
  split; [lia |]. split; [auto |].
  split; [intros u Hu; apply deliver_elem_m3u8; left; exact Hu |].
  split; [intros u Hu; apply deliver_elem_sub; left; exact Hu |].
  split; [| split].
  - intros u Hu. apply deliver_elem_m3u8 in Hu as [Hu | (_ & e & He & H1 & H2)]; [auto |].
    right. split; [exact H2 |]. exists (tick st), e. split; [lia | auto].
  - intros u Hu. apply deliver_elem_sub in Hu as [Hu | (_ & e & He & H1 & H2)]; [auto |].
    right. left. split; [exact H2 |]. exists (tick st), e. split; [lia | auto].
  - intros Hatt u (n & e & Hn & He & Hu).
    assert (n = tick st) as -> by lia.
    split; intros Hc; [apply deliver_elem_m3u8 | apply deliver_elem_sub];
      right; (split; [exact Hatt | eauto]).
Qed.

Lemma records_exactly_stable w D : Stable w (fun _ => True) (records_exactly w D).
Proof.
  split.
  - intros st. apply records_exactly_same; reflexivity.
  - apply records_exactly_trans.
  - intros op st _. apply records_exactly_step.
  - intros ms st _. apply records_exactly_step.
  - intros st _. apply records_exactly_same; reflexivity.
  - intros st. unfold records_exactly. cbn [set_attached tick attached m3u8Urls subUrls].
    repeat split; auto. all: exfalso; eapply shown_empty; eassumption.
  - intros st. apply records_exactly_same; reflexivity.
Qed.

Lemma no_duplicates_stable w : Stable w (fun _ => True) no_duplicates.
Proof.
  apply Stable_intro; unfold no_duplicates; try (intros; split; intros HN; exact HN).
  - intros st1 st2 st3 [H1 H2] [H3 H4]. split; auto.
  - intros n e u st _ _ _. split; [apply set_add_NoDup | auto].
  - intros n e u st _ _ _. split; [auto | apply set_add_NoDup].
Qed.

Section LogicAfterBootstrap.

Context (w : World) (C : Action -> Prop) (R : St -> St -> Prop) `{!Stable w C R}.
Context (F : Prop).

Hypothesis C_call : forall op, C (ACall op).
Hypothesis C_frames : C AFrames.
Hypothesis C_delay : forall ms, C (ADelay ms).

Lemma keeps_escalate_after_scan (E : DriverOp -> Prop) fuel :
  (forall f sel, E (OpQuery f sel)) ->
  F \/ (20 < fuel)%nat -> keeps w R E F (escalate_after_scan fuel).
Proof.
  intros HQ HF. unfold escalate_after_scan.
  assert (HI : keeps w R E F tryInteractAllFrames).
  { apply (@keeps_tryInteractAllFrames w C R _ F); auto. }
  apply (@keeps_bind w C R _ F); [apply (@keeps_gets w C R _ F) | intros size].
  apply (@keeps_bind w C R _ F).
  { destruct (size =? 0)%nat; [| apply (@keeps_ret w C R _ F)].
    apply (@keeps_bind w C R _ F); [exact HI | intros _; apply (@keeps_delay w C R _ F); auto]. }
  intros _.
  apply (@keeps_bind w C R _ F); [apply (@keeps_gets w C R _ F) | intros size'].
  apply (@keeps_bind w C R _ F).
  { destruct (size' =? 0)%nat; [| apply (@keeps_ret w C R _ F)].
    apply (@keeps_bind w C R _ F); [exact HI | intros _].
    apply (@keeps_poll_last w C R _ F); auto. }
  intros _.
  apply (@keeps_bind w C R _ F); [apply (@keeps_gets w C R _ F) | intros subs].
  apply (@keeps_bind w C R _ F); [apply (@keeps_gets w C R _ F) | intros m]. apply (@keeps_ret w C R _ F).
Qed.

Lemma keeps_navigation_on targetUrl fuel :
  F \/ (20 < fuel)%nat ->
  keeps w R (fun _ => True) F (goto targetUrl >> delay PASSIVE_WAIT_MS >> escalate fuel).
Proof.
  intros HF.
  apply (@keeps_bind w C R _ F); [apply (@keeps_goto w C R _ F); auto | intros _].
  apply (@keeps_bind w C R _ F); [apply (@keeps_delay w C R _ F); auto | intros _].
  apply (@keeps_escalate w C R _ F); auto.
Qed.

End LogicAfterBootstrap.

Lemma escalate_result fuel w st l st' :
  escalate fuel w st = (Returns l, st') -> l = m3u8Urls st'.
Proof.
  intros H. unfold escalate in H. bind_inv H.
  destruct (0 <? a)%nat.
  { unfold gets in H. injection H as <- <-. reflexivity. }
  do 3 bind_inv H. destruct (0 <? a2)%nat.
  { unfold gets in H. injection H as <- <-. reflexivity. }
  do 3 bind_inv H. unfold gets in H. injection H as <- <-. reflexivity.
Qed.

Lemma scrapeProvider_try_result fuel targetUrl w st l st' :
  scrapeProvider_try fuel targetUrl w st = (Returns l, st') -> l = m3u8Urls st'.
Proof.
  intros H. rewrite scrapeProvider_try_split in H. do 2 bind_inv H.
  apply escalate_result in H. exact H.
Qed.

Lemma scrapeProviderWithSubtitles_try_result fuel targetUrl w st res st' :
  scrapeProviderWithSubtitles_try fuel targetUrl w st = (Returns res, st') ->
  urls res = m3u8Urls st' /\ map url (subtitles res) = subUrls st'.
Proof.
  intros H. rewrite scrapeProviderWithSubtitles_try_split in H. do 2 bind_inv H.
  apply escalate_with_subtitles_result in H as [H1 H2]. split; [exact H1 |].
  rewrite H2, <- list_fmap_compose. apply list_fmap_id.
Qed.

Lemma scrapeProvider_try_bootstrap fuel targetUrl w st0 l st' :
  scrapeProvider_try fuel targetUrl w st0 = (Returns l, st') ->
  exists sa, bootstrap w st0 = (Returns tt, sa).
Proof.
  intros H. unfold scrapeProvider_try in H. do 3 bind_inv H.
  destruct a, a0, a1. exists s1. unfold bootstrap.
  rewrite (bind_returns _ _ _ _ _ _ Hm), (bind_returns _ _ _ _ _ _ Hm0). exact Hm1.
Qed.

Lemma scrapeProviderWithSubtitles_try_bootstrap fuel targetUrl w st0 res st' :
  scrapeProviderWithSubtitles_try fuel targetUrl w st0 = (Returns res, st') ->
  exists sa, bootstrap w st0 = (Returns tt, sa).
Proof.
  intros H. unfold scrapeProviderWithSubtitles_try in H. do 3 bind_inv H.
  destruct a, a0, a1. exists s1. unfold bootstrap.
  rewrite (bind_returns _ _ _ _ _ _ Hm), (bind_returns _ _ _ _ _ _ Hm0). exact Hm1.
Qed.

Lemma teardown_tick w st :
  browser st = true -> tick (snd (teardown w st)) = S (tick st).
Proof.
  intros Hb. destruct (await_call_step OpClose w st) as (h & _ & _ & Ht).
  rewrite <- Ht. unfold teardown, try_catch, bind, gets, ret. rewrite Hb.
  unfold await_call. destruct (rejects (w (tick st))); reflexivity.
Qed.

(** X10: a returned list never holds a URL twice: neither the list of
    [scrapeProvider], nor the manifest URLs and the subtitles of
    [scrapeProviderWithSubtitles]. *)
Theorem results_without_duplicates fuel targetUrl w t0 :
  (forall l stF,
      scrapeProvider fuel targetUrl w (fresh t0) = (Returns l, stF) -> NoDup l)
  /\ (forall res stF,
         scrapeProviderWithSubtitles fuel targetUrl w (fresh t0) = (Returns res, stF) ->
         NoDup (urls res) /\ NoDup (map url (subtitles res))).
Proof.
  split.
  - intros l stF H. apply try_finally_inv in H as (st2 & H & _).
    assert (K : keeps w no_duplicates (fun _ => True) True
                  (scrapeProvider_try fuel targetUrl)).
    { apply (@keeps_scrapeProvider_try w _ _ (no_duplicates_stable w)); keeps_side. }
    destruct (K (fresh t0)) as [[Hn _] _]. rewrite H in Hn. cbn [snd fresh m3u8Urls] in Hn.
    rewrite (scrapeProvider_try_result _ _ _ _ _ _ H). apply Hn, NoDup_nil_2.
  - intros res stF H. apply try_finally_inv in H as (st2 & H & _).
    assert (K : keeps w no_duplicates (fun _ => True) True
                  (scrapeProviderWithSubtitles_try fuel targetUrl)).
    { apply (@keeps_scrapeProviderWithSubtitles_try w _ _ (no_duplicates_stable w));
        keeps_side.
      intros u st _. split; [auto | apply set_add_NoDup]. }
    destruct (K (fresh t0)) as [[Hn Hs] _]. rewrite H in Hn, Hs.
    cbn [snd fresh m3u8Urls subUrls] in Hn, Hs.
    destruct (scrapeProviderWithSubtitles_try_result _ _ _ _ _ _ H) as [-> ->].
    split; [apply Hn | apply Hs]; apply NoDup_nil_2.
Qed.

(** X11: the list that [scrapeProvider] returns holds exactly the URLs
    that [isM3U8] accepts among those of the requests and responses that
    the page showed from the start of the navigation (reply 7 answers
    [page.goto]) to the end of the [try] block (the last reply answers
    [browser.close()]): nothing else, and none of them is missing. *)
Theorem result_is_the_manifest_traffic fuel targetUrl w t0 l stF :
  scrapeProvider fuel targetUrl w (fresh t0) = (Returns l, stF) ->
  forall u, u ∈ l <-> isM3U8 u = true /\ shown w 7 (pred (tick stF)) u.
Proof.
  intros H u. apply try_finally_inv in H as (st2 & H & Ht).
  destruct (scrapeProvider_try_bootstrap _ _ _ _ _ _ H) as (sa & Hboot).
  destruct (bootstrap_spec _ _ _ Hboot eq_refl) as (Hb & Ha & Hm & _ & Htick).
  cbn [fresh m3u8Urls tick] in Hm, Htick. cbn [Nat.add] in Htick.
  pose proof (scrapeProvider_try_result _ _ _ _ _ _ H) as ->.
  rewrite (scrapeProvider_try_from_bootstrap _ _ _ _ _ Hboot) in H.
  destruct (@keeps_navigation_on w _ _ (records_exactly_stable w (fun _ => False)) True
              ltac:(keeps_side) ltac:(keeps_side) ltac:(keeps_side) targetUrl fuel
              ltac:(keeps_side) sa) as [HR _].
  destruct (@keeps_navigation_on w _ _ (browser_kept_stable w) True
              ltac:(keeps_side) ltac:(keeps_side) ltac:(keeps_side) targetUrl fuel
              ltac:(keeps_side) sa) as [HB _].
  rewrite H in HR, HB. cbn [snd] in HR, HB.
  pose proof (teardown_tick w st2 (HB Hb)) as Htt. rewrite Ht in Htt. cbn [snd] in Htt.
  rewrite Htt. cbn [pred]. rewrite <- Htick.
  destruct HR as (_ & _ & _ & _ & Hsound & _ & Hcomplete). split.
  - intros Hu. destruct (Hsound u Hu) as [Hin | Hs]; [| exact Hs].
    rewrite Hm in Hin. apply elem_of_nil in Hin. contradiction.
  - intros [Hc Hs]. apply (Hcomplete Ha u Hs), Hc.
Qed.

Lemma result_is_the_manifest_traffic_witness :
  js "http://x/a.m3u8" ∈ [js "http://x/a.m3u8"] <->
  isM3U8 (js "http://x/a.m3u8") = true /\
  shown world_autoplay 7
    (pred (tick (snd (scrapeProvider 21 (js "http://x/") world_autoplay (fresh 0)))))
    (js "http://x/a.m3u8").
Proof.
  apply (result_is_the_manifest_traffic 21 (js "http://x/") world_autoplay 0
           [js "http://x/a.m3u8"]
           (snd (scrapeProvider 21 (js "http://x/") world_autoplay (fresh 0)))).
  vm_compute. reflexivity.
Defined.

Lemma escalate_with_subtitles_unfold fuel w st :
  escalate_with_subtitles fuel w st =
  (let* domSubs := evaluate_dom_subtitles in
   for_each domSubs (fun u => modify (add_sub u)) >> escalate_after_scan fuel) w st.
Proof. reflexivity. Qed.

Lemma for_each_add_sub (us : list jsstring) w : forall st,
  exists st',
    for_each us (fun u => modify (add_sub u)) w st = (Returns tt, st') /\
    tick st' = tick st /\ attached st' = attached st /\
    m3u8Urls st' = m3u8Urls st /\
    (forall u, u ∈ subUrls st' <-> u ∈ subUrls st \/ u ∈ us).
Proof.
  induction us as [|v us IH]; intros st.
  - exists st. cbn [for_each ret]. repeat split; auto.
    + intros [H | H]; [exact H | apply elem_of_nil in H; contradiction].
  - destruct (IH (add_sub v st)) as (st' & H & Ht & Ha & Hm & Hs).
    exists st'. split; [exact H |]. split; [exact Ht |]. split; [exact Ha |].
    split; [exact Hm |].
    intros u. rewrite Hs. cbn [add_sub subUrls]. rewrite elem_of_set_add, elem_of_cons.
    tauto.
Qed.

Lemma goto_tick targetUrl w st st' :
  goto targetUrl w st = (Returns tt, st') -> tick st' = S (tick st).
Proof.
  intros H. unfold goto in H. bind_inv H. unfold ret in H. injection H as <-.
  apply await_call_inv in Hm. subst s.
  destruct (await_call_step (OpGoto targetUrl "domcontentloaded" 30000) w st)
    as (_ & _ & _ & Ht). exact Ht.
Qed.

Lemma delay_tick ms w st : tick (snd (delay ms w st)) = S (tick st).
Proof.
  unfold delay. cbn [snd].
  destruct (deliver_frame (traffic (w (tick st)))
              (pass (Z.of_N ms + Z.of_N (lag (w (tick st)))) (do_log (ADelay ms) st)))
    as (-> & _). reflexivity.
Qed.

(** X12: what [scrapeProviderWithSubtitles] returns.  Its manifest URLs
    are exactly the URLs that [isM3U8] accepts in the traffic from the
    start of the navigation to the end of the [try] block.  Its subtitles
    are exactly the URLs that [isSubtitle] accepts in that traffic,
    together with what the scan finds in the main frame's document right
    after the passive wait (reply 9 answers [page.evaluate]); the scan's
    finds are not filtered by [isSubtitle]. *)
Theorem result_with_subtitles_is_traffic_and_scan fuel targetUrl w t0 res stF :
  scrapeProviderWithSubtitles fuel targetUrl w (fresh t0) = (Returns res, stF) ->
  forall u,
    (u ∈ urls res <-> isM3U8 u = true /\ shown w 7 (pred (tick stF)) u)
    /\ (u ∈ map url (subtitles res) <->
        (isSubtitle u = true /\ shown w 7 (pred (tick stF)) u) \/
        u ∈ dom_subtitle_script (document (mainFrame (page_state (w 9%nat))))).
Proof.
  intros H u. apply try_finally_inv in H as (st2 & H & Ht).
  destruct (scrapeProviderWithSubtitles_try_bootstrap _ _ _ _ _ _ H) as (sa & Hboot).
  destruct (bootstrap_spec _ _ _ Hboot eq_refl) as (Hb & Ha & Hm & Hs & Htick).
  cbn [fresh m3u8Urls subUrls tick] in Hm, Hs, Htick. cbn [Nat.add] in Htick.
  destruct (scrapeProviderWithSubtitles_try_result _ _ _ _ _ _ H) as [-> ->].
  rewrite (scrapeProviderWithSubtitles_try_from_bootstrap _ _ _ _ _ Hboot) in H.
  bind_inv H. bind_inv H. destruct a, a0.
  rewrite escalate_with_subtitles_unfold in H. bind_inv H. bind_inv H. destruct a0.
  pose proof (goto_tick _ _ _ _ Hm0) as Tg.
  assert (s0 = snd (delay PASSIVE_WAIT_MS w s)) as Es0 by (rewrite Hm1; reflexivity).
  pose proof (delay_tick PASSIVE_WAIT_MS w s) as Td. rewrite <- Es0 in Td.
  pose proof (evaluate_dom_subtitles_main_frame _ _ _ _ Hm2) as Ea.
  assert (Hnine : tick s0 = 9%nat) by lia. rewrite Hnine in Ea.
  set (D := fun v : jsstring => v ∈ a) in *.
  pose (S := records_exactly_stable w D).
  assert (R1 : records_exactly w D sa s).
  { destruct (@keeps_goto w _ _ S True ltac:(keeps_side) (fun _ => True) targetUrl
                ltac:(keeps_side) sa) as [HR _]. rewrite Hm0 in HR. exact HR. }
  assert (R2 : records_exactly w D s s0).
  { rewrite Es0. apply (@stable_delay w _ _ S). exact I. }
  assert (R3 : records_exactly w D s0 s1).
  { unfold evaluate_dom_subtitles in Hm2. bind_inv Hm2. unfold ret in Hm2.
    injection Hm2 as _ <-. apply await_call_inv in Hm4. subst s3.
    apply (@stable_call w _ _ S). exact I. }
  destruct (for_each_add_sub a w s1) as (s2' & Hf & Tf & Af & Mf & Sf).
  rewrite Hf in Hm3. injection Hm3 as ->.
  assert (R4 : records_exactly w D s1 s2).
  { unfold records_exactly. rewrite Tf, Af, Mf.
    split; [lia |]. split; [auto |]. split; [auto |].
    split; [intros v Hv; apply Sf; auto |].
    split; [auto |]. split.
    - intros v Hv. apply Sf in Hv as [Hv | Hv]; auto.
    - intros _ v Hv. exfalso. eapply shown_empty, Hv. }
  assert (R5 : records_exactly w D s2 st2).
  { destruct (@keeps_escalate_after_scan w _ _ S True ltac:(keeps_side) ltac:(keeps_side)
                ltac:(keeps_side) (fun _ => True) fuel ltac:(keeps_side)
                ltac:(keeps_side) s2) as [HR _].
    rewrite H in HR. exact HR. }
  pose proof (records_exactly_trans _ _ _ _ _
                (records_exactly_trans _ _ _ _ _
                   (records_exactly_trans _ _ _ _ _
                      (records_exactly_trans _ _ _ _ _ R1 R2) R3) R4) R5) as HR.
  assert (HB : browser st2 = true).
  { pose (B := browser_kept_stable w).
    destruct (@keeps_goto w _ _ B True ltac:(keeps_side) (fun _ => True) targetUrl
                ltac:(keeps_side) sa) as [B1 _]. rewrite Hm0 in B1.
    pose proof (@stable_delay w _ _ B PASSIVE_WAIT_MS s I) as B2. rewrite <- Es0 in B2.
    destruct (@keeps_escalate_with_subtitles w _ _ B True ltac:(keeps_side)
                ltac:(keeps_side) ltac:(keeps_side) ltac:(keeps_side) (fun _ => True) fuel
                ltac:(keeps_side) ltac:(keeps_side) ltac:(keeps_side)
                ltac:(intros ? ? _ Hx; exact Hx) s0) as [B3 _].
    rewrite escalate_with_subtitles_unfold in B3.
    rewrite (bind_returns _ _ _ _ _ _ Hm2), (bind_returns _ _ _ _ _ _ Hf), H in B3.
    apply B3, B2, B1, Hb. }
  pose proof (teardown_tick w st2 HB) as Htt. rewrite Ht in Htt. cbn [snd] in Htt.
  rewrite Htt. cbn [pred].
  destruct HR as (_ & _ & _ & _ & SoundM & SoundS & Complete).
  rewrite Htick in SoundM, SoundS, Complete.
  destruct R5 as (_ & _ & _ & Mono5 & _).
  split; split.
  - intros Hu. destruct (SoundM u Hu) as [Hin | Hx]; [| exact Hx].
    rewrite Hm in Hin. apply elem_of_nil in Hin. contradiction.
  - intros [Hc Hx]. apply (Complete Ha u Hx), Hc.
  - intros Hu. destruct (SoundS u Hu) as [Hin | [Hx | Hd]].
    + rewrite Hs in Hin. apply elem_of_nil in Hin. contradiction.
    + left. exact Hx.
    + right. rewrite <- Ea. exact Hd.
  - intros [[Hc Hx] | Hd].
    + apply (Complete Ha u Hx), Hc.
    + apply Mono5, Sf. right. rewrite <- Ea in Hd. exact Hd.
Qed.

Lemma result_with_subtitles_is_traffic_and_scan_witness :
  let stF := snd (scrapeProviderWithSubtitles 21 (js "http://x/") world_subtitles
                    (fresh 0)) in
  let res := {| urls := [js "http://x/a.m3u8"];
                subtitles := [ {| url := js "http://x/en.vtt"; label := None;
                                  lang := None |};
                               {| url := js "http://x/cap.vtt"; label := None;
                                  lang := None |} ] |} in
  let u := js "http://x/cap.vtt" in
  (u ∈ urls res <-> isM3U8 u = true /\ shown world_subtitles 7 (pred (tick stF)) u)
  /\ (u ∈ map url (subtitles res) <->
      (isSubtitle u = true /\ shown world_subtitles 7 (pred (tick stF)) u) \/
      u ∈ dom_subtitle_script
            (document (mainFrame (page_state (world_subtitles 9%nat))))).
Proof.
  apply (result_with_subtitles_is_traffic_and_scan 21 (js "http://x/") world_subtitles 0).
  vm_compute. reflexivity.
Defined.

(** ** How long a call takes *)

Lemma await_call_clock op w st :
  clock (snd (await_call op w st)) = (clock st + Z.of_N (lag (w (tick st))))%Z.
Proof.
  unfold await_call. cbn [snd].
  destruct (deliver_frame (traffic (w (tick st)))
              (pass (Z.of_N (lag (w (tick st)))) (do_log (ACall op) st)))
    as (_ & -> & _). reflexivity.
Qed.

Lemma later_stable w : Stable w (fun _ => True) later.
Proof.
  split; unfold later.
  - intros st. lia.
  - intros st1 st2 st3 [? ?] [? ?]. lia.
  - intros op st _. rewrite await_call_clock.
    destruct (await_call_step op w st) as (_ & _ & _ & ->). lia.
  - intros ms st _. rewrite delay_clock, delay_tick. lia.
  - intros st _. cbn. lia.
  - intros st. cbn. lia.
  - intros st. cbn. lia.
Qed.

(** The polling loop stops for one of two reasons. *)
Lemma poll_post w fuel : forall start st st',
  poll fuel start w st = (Returns tt, st') ->
  m3u8Urls st' <> [] \/ (5000 <= clock st' - start)%Z.
Proof.
  induction fuel as [|fuel IH]; intros start st st' H; [discriminate H |].
  rewrite poll_S in H. destruct (Z.ltb_spec (clock st - start) 5000) as [Hlt | Hge].
  - destruct (m3u8Urls st) as [|u us] eqn:Hm; cbn [length Nat.ltb Nat.leb] in H.
    + apply IH in H. exact H.
    + injection H as <-. left. rewrite Hm. discriminate.
  - injection H as <-. right. exact Hge.
Qed.

Lemma escalate_empty_takes_time fuel w st st' :
  escalate fuel w st = (Returns [], st') ->
  (clock st + 13000 <= clock st')%Z.
Proof.
  intros H. unfold escalate in H. bind_inv H.
  unfold gets in Hm. injection Hm as <- <-.
  destruct (m3u8Urls st) as [|u0 us0] eqn:E0; cbn [length Nat.ltb Nat.leb] in H;
    [| unfold gets in H; injection H as H _; rewrite E0 in H; discriminate H].
  bind_inv H. bind_inv H. bind_inv H.
  unfold gets in Hm1. injection Hm1 as <- <-.
  destruct (m3u8Urls s0) as [|u1 us1] eqn:E1; cbn [length Nat.ltb Nat.leb] in H;
    [| unfold gets in H; injection H as H _; rewrite E1 in H; discriminate H].
  bind_inv H. bind_inv H. bind_inv H.
  unfold Date_now, gets in Hm2. injection Hm2 as <- <-.
  unfold gets in H. injection H as H <-. destruct a3.
  destruct (poll_post _ _ _ _ _ Hm3) as [Hne | Hc]; [contradiction |].
  pose (L := later_stable w).
  destruct (@keeps_tryInteractAllFrames w _ _ L True ltac:(keeps_side) ltac:(keeps_side)
              (fun _ => True) ltac:(keeps_side) st) as [[L1 _] _]. rewrite Hm in L1. cbn [snd] in L1.
  assert (s0 = snd (delay CLICK_WAIT_MS w s)) as -> by (rewrite Hm0; reflexivity).
  pose proof (delay_clock CLICK_WAIT_MS w s) as L2.
  destruct (@keeps_tryInteractAllFrames w _ _ L True ltac:(keeps_side) ltac:(keeps_side)
              (fun _ => True) ltac:(keeps_side) (snd (delay CLICK_WAIT_MS w s))) as [[L3 _] _].
  rewrite Hm1 in L3. cbn [snd] in L3.
  change (Z.of_N CLICK_WAIT_MS) with 8000%Z in L2. lia.
Qed.

(** X13: no call of [scrapeProvider] returns before the passive wait is
    over, and the empty list is returned only after the three waits:
    6000 ms, 8000 ms and 5000 ms of polling. *)
Theorem scrapeProvider_takes_time fuel targetUrl w t0 l stF :
  scrapeProvider fuel targetUrl w (fresh t0) = (Returns l, stF) ->
  (t0 + 6000 <= clock stF)%Z /\ (l = [] -> (t0 + 19000 <= clock stF)%Z).
Proof.
  intros H. apply try_finally_inv in H as (st2 & H & Ht).
  pose (L := later_stable w).
  destruct (@keeps_teardown w _ _ L True ltac:(keeps_side) (fun _ => True) st2)
    as [[Lt _] _]. rewrite Ht in Lt. cbn [snd] in Lt.
  rewrite scrapeProvider_try_split in H. bind_inv H. bind_inv H.
  destruct (@keeps_launch w _ _ L True ltac:(keeps_side) (fun _ => True)
              ltac:(keeps_side) (fresh t0)) as [[L0 _] _].
  rewrite Hm in L0. cbn [snd fresh clock] in L0.
  unfold navigate in Hm0. do 3 bind_inv Hm0.
  destruct (@keeps_createPage w _ _ L True ltac:(keeps_side) (fun _ => True)
              ltac:(keeps_side) s) as [[L1 _] _].
  match goal with
  | Hc : createPage w s = _ |- _ => rewrite Hc in L1; cbn [snd] in L1
  end.
  match goal with
  | Ha : attachNetworkCollectors w ?x = (_, ?y) |- _ =>
      assert (clock y = clock x) as L1'
        by (unfold attachNetworkCollectors, modify in Ha; injection Ha; intros <- _;
            reflexivity)
  end.
  match goal with
  | Hg : goto targetUrl w ?x = (_, ?y) |- _ =>
      destruct (@keeps_goto w _ _ L True ltac:(keeps_side) (fun _ => True) targetUrl
                  ltac:(keeps_side) x) as [[L2 _] _];
      rewrite Hg in L2; cbn [snd] in L2
  end.
  match goal with
  | Hd : delay PASSIVE_WAIT_MS w ?x = (_, ?y) |- _ =>
      pose proof (delay_clock PASSIVE_WAIT_MS w x) as L3;
      rewrite Hd in L3; cbn [snd] in L3
  end.
  change (Z.of_N PASSIVE_WAIT_MS) with 6000%Z in L3.
  match goal with
  | He : escalate fuel w ?x = _ |- _ =>
      destruct (@keeps_escalate w _ _ L True ltac:(keeps_side) ltac:(keeps_side)
                  ltac:(keeps_side) (fun _ => True) fuel ltac:(keeps_side)
                  ltac:(keeps_side) x)
        as [[L4 _] _];
      rewrite He in L4; cbn [snd] in L4
  end.
  split; [lia |]. intros ->. apply escalate_empty_takes_time in H. lia.
Qed.

Lemma scrapeProvider_takes_time_witness :
  let stF := snd (scrapeProvider 21 (js "http://x/") world_silent (fresh 0)) in
  (0 + 6000 <= clock stF)%Z /\ (@nil jsstring = [] -> (0 + 19000 <= clock stF)%Z).
Proof.
  apply (scrapeProvider_takes_time 21 (js "http://x/") world_silent 0 []).
  vm_compute. reflexivity.
Defined.

(** ** The polling loop *)

Lemma poll_general w fuel : forall start st,
  (0 < fuel)%nat ->
  (5000 <= clock st - start + 250 * (Z.of_nat fuel - 1))%Z ->
  exists st' k,
    poll fuel start w st = (Returns tt, st') /\
    stages (log st') = stages (log st) ++ replicate k (ADelay 250) /\
    calls (log st') = calls (log st) /\
    (k = 0%nat \/ (clock st - start + 250 * Z.of_nat k < 5250)%Z) /\
    (m3u8Urls st' <> [] \/ (5000 <= clock st' - start)%Z) /\
    (m3u8Urls st <> [] -> st' = st).
Proof.
  induction fuel as [|fuel IH]; intros start st Hf Hc; [lia |].
  rewrite poll_S. destruct (Z.ltb_spec (clock st - start) 5000) as [Hlt | Hge].
  - destruct (m3u8Urls st) as [|u us] eqn:Hm; cbn [length Nat.ltb Nat.leb].
    + pose proof (delay_clock 250 w st) as Hd.
      pose proof (delay_stages 250 w st) as Hs.
      destruct (delay_log 250 w st) as (h & Hl & Fh).
      destruct (IH start (snd (delay 250 w st))) as (st' & k & Hp & Hs' & Hc' & Hk & Hpost & _);
        [lia | lia |].
      exists st', (S k). split; [exact Hp |].
      split; [rewrite Hs', Hs, <- (assoc_L (++)); reflexivity |].
      split; [rewrite Hc', Hl, calls_app; change (calls (ADelay 250 :: h)) with (calls h);
              rewrite (calls_handlers h Fh), app_nil_r; reflexivity |].
      split; [right; destruct Hk as [-> | Hk]; lia |].
      split; [exact Hpost | intros Hne; contradiction].
    + exists st, 0%nat. split; [reflexivity |].
      split; [cbn [replicate]; rewrite app_nil_r; reflexivity |].
      split; [reflexivity |]. split; [left; reflexivity |].
      split; [left; rewrite Hm; discriminate | reflexivity].
  - exists st, 0%nat. split; [reflexivity |].
    split; [cbn [replicate]; rewrite app_nil_r; reflexivity |].
    split; [reflexivity |]. split; [left; reflexivity |].
    split; [right; exact Hge | reflexivity].
Qed.

(** X14: the bounded poll.  Started at the current time with more than 20
    units of fuel, the loop ends; it waits at most 20 times 250 ms and
    makes no driver call; it does not wait at all when the manifest set is
    not empty; and when it ends, the manifest set is not empty or at least
    5000 ms have passed. *)
Theorem poll_spec fuel w st :
  (20 < fuel)%nat ->
  exists st' k,
    poll fuel (clock st) w st = (Returns tt, st') /\
    (k <= 20)%nat /\
    stages (log st') = stages (log st) ++ replicate k (ADelay 250) /\
    calls (log st') = calls (log st) /\
    (m3u8Urls st' <> [] \/ (5000 <= clock st' - clock st)%Z) /\
    (m3u8Urls st <> [] -> st' = st).
Proof.
  intros Hfuel.
  destruct (poll_general w fuel (clock st) st) as (st' & k & Hp & Hs & Hc & Hk & Hpost & Hi);
    [lia | lia |].
  exists st', k. split; [exact Hp |]. split; [destruct Hk as [-> | Hk]; lia |].
  auto.
Qed.

Lemma poll_spec_witness :
  exists st' k,
    poll 21 (clock (fresh 0)) world_silent (fresh 0) = (Returns tt, st') /\
    (k <= 20)%nat /\
    stages (log st') = stages (log (fresh 0)) ++ replicate k (ADelay 250) /\
    calls (log st') = calls (log (fresh 0)) /\
    (m3u8Urls st' <> [] \/ (5000 <= clock st' - clock (fresh 0))%Z) /\
    (m3u8Urls (fresh 0) <> [] -> st' = fresh 0).
Proof. apply (poll_spec 21 world_silent (fresh 0)). lia. Defined.

(** ** The subtitle-aware entry point with an early manifest *)

Lemma add_subs_log (us : list jsstring) w : forall st,
  exists l,
    log (snd (for_each us (fun u => modify (add_sub u)) w st)) = log st ++ l /\
    Forall (fun a => handler_action a = true) l /\
    browser (snd (for_each us (fun u => modify (add_sub u)) w st)) = browser st.
Proof.
  induction us as [|v us IH]; intros st.
  - exists []. cbn [for_each ret snd]. rewrite app_nil_r. auto.
  - destruct (IH (add_sub v st)) as (l & Hl & Fl & Hb).
    exists (AAddSub v :: l).
    change (for_each (v :: us) (fun u => modify (add_sub u)) w st)
      with (for_each us (fun u => modify (add_sub u)) w (add_sub v st)).
    rewrite Hl, Hb. cbn [add_sub log browser]. rewrite <- (assoc_L (++)).
    split; [reflexivity |]. split; [constructor; [reflexivity | exact Fl] | reflexivity].
Qed.

Lemma escalate_after_scan_found fuel w st :
  m3u8Urls st <> [] ->
  escalate_after_scan fuel w st =
  (Returns {| urls := m3u8Urls st;
              subtitles := map (fun u => {| url := u; label := None; lang := None |})
                               (subUrls st) |}, st).
Proof.
  intros Hne. unfold escalate_after_scan, bind, gets, ret.
  destruct (m3u8Urls st) as [|u us] eqn:Hm; [contradiction |].
  cbn [length Nat.eqb]. rewrite ?Hm. cbn [length Nat.eqb]. rewrite ?Hm. reflexivity.
Qed.

(** X15: the early exit of [scrapeProviderWithSubtitles].  If the manifest
    set is not empty once the passive wait is over and the subtitle scan
    is not rejected, the call returns after the scan without any
    interaction round and without further waits; the manifest URLs found
    by then come first in its result. *)
Theorem early_exit_with_subtitles fuel targetUrl w t0 st1 :
  session_start targetUrl w (fresh t0) = (Returns tt, st1) ->
  m3u8Urls st1 <> [] ->
  rejects (w (tick st1)) = false ->
  exists res stF,
    scrapeProviderWithSubtitles fuel targetUrl w (fresh t0) = (Returns res, stF) /\
    m3u8Urls st1 `prefix_of` urls res /\
    Forall (fun a => interaction a = false) (log stF) /\
    stages (log stF) = [ADelay PASSIVE_WAIT_MS].
Proof.
  intros Hstart Hne Hr.
  pose proof (session_start_browser _ _ _ _ Hstart) as Hb.
  destruct (session_start_no_interaction _ _ _ _ Hstart) as (l0 & Hl0 & Fl0).
  cbn [fresh log app] in Hl0.
  pose proof (session_start_stages _ _ _ _ Hstart) as Hs0. cbn [fresh log] in Hs0.
  change (stages []) with (@nil Action) in Hs0. cbn [app] in Hs0.
  pose proof (scrapeProviderWithSubtitles_try_from_start fuel _ _ _ _ Hstart) as Htry.
  set (s2 := snd (await_call OpEvaluateDomSubs w st1)).
  set (us := dom_subtitle_script (document (mainFrame (page_state (w (tick st1)))))).
  assert (He : evaluate_dom_subtitles w st1 = (Returns us, s2)).
  { unfold evaluate_dom_subtitles, bind, await_call, ret, s2, us. rewrite Hr. reflexivity. }
  destruct (await_call_step OpEvaluateDomSubs w st1) as (h & Fh & Lh & _). fold s2 in Lh.
  assert (Hb2 : browser s2 = true).
  { apply (@stable_call w _ _ (browser_kept_stable w) OpEvaluateDomSubs st1 I Hb). }
  assert (Hp2 : m3u8Urls st1 `prefix_of` m3u8Urls s2).
  { unfold s2.
    destruct (@stable_call w _ _ (sets_from_log_stable w) OpEvaluateDomSubs st1 eq_refl)
      as (l & _ & -> & _). apply replay_m3u8_prefix. }
  destruct (for_each_add_sub us w s2) as (s3 & Hf & _ & _ & Hm3 & _).
  destruct (add_subs_log us w s2) as (l3 & L3 & F3 & B3). rewrite Hf in L3, B3.
  cbn [snd] in L3, B3.
  assert (Hne3 : m3u8Urls s3 <> []).
  { rewrite Hm3. intros E. rewrite E in Hp2. apply prefix_nil_inv in Hp2. contradiction. }
  rewrite escalate_with_subtitles_unfold, (bind_returns _ _ _ _ _ _ He),
    (bind_returns _ _ _ _ _ _ Hf), (escalate_after_scan_found fuel w s3 Hne3) in Htry.
  pose proof (teardown_returns w s3) as Ht.
  destruct (teardown_closes w s3 (eq_trans B3 Hb2)) as (l4 & L4 & F4).
  eexists _, (snd (teardown w s3)). split; [| split; [| split]].
  - unfold scrapeProviderWithSubtitles, try_finally. rewrite Htry.
    destruct (teardown w s3) as [rt s4]. cbn [fst] in Ht. subst rt. reflexivity.
  - cbn [urls]. rewrite Hm3. exact Hp2.
  - rewrite L4, L3, Lh, Hl0.
    assert (Hh : forall l, Forall (fun a => handler_action a = true) l ->
                           Forall (fun a => interaction a = false) l).
    { intros l Hl. eapply Forall_impl; [exact Hl |].
      intros a Ha. destruct a; try discriminate Ha; reflexivity. }
    repeat (apply Forall_app; split); auto; constructor; auto.
  - rewrite L4, L3, Lh, !stages_app, Hs0.
    change (ACall OpEvaluateDomSubs :: h) with ([ACall OpEvaluateDomSubs] ++ h).
    change (ACall OpClose :: l4) with ([ACall OpClose] ++ l4).
    rewrite !stages_app, (stages_handlers h Fh), (stages_handlers l3 F3),
      (stages_handlers l4 F4).
    reflexivity.
Qed.

Lemma early_exit_with_subtitles_witness :
  let st1 := snd (session_start (js "http://x/") world_autoplay (fresh 0)) in
  exists res stF,
    scrapeProviderWithSubtitles 21 (js "http://x/") world_autoplay (fresh 0)
    = (Returns res, stF) /\
    m3u8Urls st1 `prefix_of` urls res /\
    Forall (fun a => interaction a = false) (log stF) /\
    stages (log stF) = [ADelay PASSIVE_WAIT_MS].
Proof.
  apply (early_exit_with_subtitles 21 (js "http://x/") world_autoplay 0
           (snd (session_start (js "http://x/") world_autoplay (fresh 0)))).
  - vm_compute. reflexivity.
  - vm_compute. discriminate.
  - vm_compute. reflexivity.
Defined.

(** ** Before the handlers are attached *)

(** X16: what the page requests while the browser is launched and the
    page is configured is not recorded.  When launch and bootstrap succeed
    from a fresh call, the log holds the launch, [newPage], the viewport,
    the user agent, the two timeouts and the request interception, in
    this order and with no handler action in between; both sets are still
    empty and the handlers are attached from then on. *)
Theorem traffic_before_attach_is_not_recorded w t0 sa :
  bootstrap w (fresh t0) = (Returns tt, sa) ->
  log sa = bootstrap_calls /\
  m3u8Urls sa = [] /\ subUrls sa = [] /\ attached sa = true.
Proof.
  intros H. destruct (bootstrap_spec _ _ _ H eq_refl) as (_ & Ha & Hm & Hs & _).
  split; [| auto].
  unfold bootstrap, launch, createPage in H.
  bind_inv H. bind_inv Hm0. unfold modify in Hm0. injection Hm0 as _ <-.
  apply await_call_inv in Hm1. rewrite await_call_unattached in Hm1 by reflexivity. subst s0.
  bind_inv H.
  repeat match goal with
         | Hb : bind _ _ _ _ = (Returns _, _) |- _ => bind_inv Hb
         end.
  unfold ret in Hm0. injection Hm0 as _ ->.
  unfold attachNetworkCollectors, modify in H. injection H as <-.
  repeat match goal with
         | Hc : await_call _ _ _ = (Returns _, ?y) |- _ =>
             apply await_call_inv in Hc;
             rewrite await_call_unattached in Hc by reflexivity; subst y
         end.
  reflexivity.
Qed.

Lemma traffic_before_attach_is_not_recorded_witness :
  let sa := snd (bootstrap world_eager (fresh 0)) in
  log sa = bootstrap_calls /\
  m3u8Urls sa = [] /\ subUrls sa = [] /\ attached sa = true.
Proof.
  apply (traffic_before_attach_is_not_recorded world_eager 0
           (snd (bootstrap world_eager (fresh 0)))).
  vm_compute. reflexivity.
Defined.

(** * Frames that leave the page *)

Lemma injections_app l1 l2 : injections (l1 ++ l2) = injections l1 ++ injections l2.
Proof. unfold injections. rewrite calls_app, omap_app. reflexivity. Qed.

Lemma injections_none l :
  Forall (fun a => interaction a = false) l -> injections l = [].
Proof.
  induction 1 as [|a l Ha _ IH]; [reflexivity |].
  destruct a as [op | | | | | |]; try exact IH.
  destruct op; try discriminate Ha; exact IH.
Qed.

Lemma injections_log_grows st st' :
  log_grows (fun a => interaction a = false) st st' ->
  injections (log st') = injections (log st).
Proof.
  intros (l & -> & Fl). rewrite injections_app, (injections_none l Fl). apply app_nil_r.
Qed.

Lemma stages_round st l :
  Forall (fun a => stage a = false) l ->
  stages (log st ++ AFrames :: l) = stages (log st) ++ [AFrames].
Proof.
  intros Fl. rewrite stages_app. f_equal.
  change (AFrames :: l) with ([AFrames] ++ l).
  rewrite stages_app, (stages_none l Fl). reflexivity.
Qed.

(** A round in which a frame of the enumeration is gone from the next
    reply on: the round does not return. *)
Lemma tryInteractAllFrames_detached w st f :
  f ∈ frames (page_state (w (tick st))) ->
  (forall m, (tick st < m)%nat -> attached_frame (page_state (w m)) f = false) ->
  exists g sel st' l,
    tryInteractAllFrames w st = (Throws (OpQuery g sel), st') /\
    log st' = log st ++ AFrames :: l /\
    Forall (fun a => stage a = false) l.
Proof.
  intros Hf Hgone.
  destruct (tryInteractAllFrames_run w st) as (r & st' & l & H & L & Fl & _ & _ & O).
  destruct r as [[] | op |]; [| | contradiction].
  - destruct O as (_ & Hall & _). destruct (Hall f Hf) as (m & Hm & Hatt).
    rewrite (Hgone m Hm) in Hatt. discriminate.
  - destruct O as (fs1 & g & fs2 & sel & _ & -> & _).
    exists (frame_id g), sel, st', l. auto.
Qed.

Lemma session_start_empty targetUrl w st0 st1 :
  no_manifest_traffic w ->
  session_start targetUrl w st0 = (Returns tt, st1) ->
  m3u8Urls st0 = [] -> m3u8Urls st1 = [].
Proof.
  intros Hw Hstart.
  destruct (@keeps_session_start w _ _ (stays_empty_stable w Hw) True
              ltac:(keeps_side) ltac:(keeps_side) (fun _ => True) targetUrl
              ltac:(keeps_side) st0) as [He _].
  rewrite Hstart in He. exact He.
Qed.

(** C5 (the code against the claim): a page that never shows a manifest
    URL does not always get the empty sequence.  [tryClickSelectors]
    means to swallow a failed lookup with [.catch(() => null)], but on a
    frame that has left the page [frame.$] throws before it returns the
    promise that [.catch] would guard.  When the session has started and
    a frame enumerated by the first interaction round is gone from the
    next reply on, [scrapeProvider] ends with the exception of a lookup:
    the manifest set is still empty, the call has gone no further than
    the first interaction round, and no result is returned. *)
Theorem detached_frame_lookup_escapes fuel targetUrl w t0 st1 f :
  no_manifest_traffic w ->
  session_start targetUrl w (fresh t0) = (Returns tt, st1) ->
  f ∈ frames (page_state (w (tick st1))) ->
  (forall m, (tick st1 < m)%nat -> attached_frame (page_state (w m)) f = false) ->
  exists g sel stF,
    scrapeProvider fuel targetUrl w (fresh t0) = (Throws (OpQuery g sel), stF) /\
    m3u8Urls stF = [] /\
    stages (log stF) = [ADelay PASSIVE_WAIT_MS; AFrames].
Proof.
  intros Hw Hstart Hf Hgone.
  pose proof (session_start_browser _ _ _ _ Hstart) as Hb.
  pose proof (session_start_stages _ _ _ _ Hstart) as Hs. cbn [fresh log] in Hs.
  pose proof (session_start_empty _ _ _ _ Hw Hstart eq_refl) as Hm.
  destruct (tryInteractAllFrames_detached w st1 f Hf Hgone)
    as (g & sel & st2 & l & Hround & Hl & Fl).
  assert (Hesc : escalate fuel w st1 = (Throws (OpQuery g sel), st2)).
  { unfold escalate. unfold bind at 1. cbn [gets].
    rewrite Hm. cbn [length Nat.ltb Nat.leb].
    apply bind_throws, Hround. }
  destruct (@keeps_tryInteractAllFrames w _ _ (stays_empty_stable w Hw) True
              ltac:(keeps_side) ltac:(keeps_side) (fun _ => True)
              ltac:(keeps_side) st1) as [He2 _].
  destruct (@keeps_tryInteractAllFrames w _ _ (browser_kept_stable w) True
              ltac:(keeps_side) ltac:(keeps_side) (fun _ => True)
              ltac:(keeps_side) st1) as [Hb2 _].
  rewrite Hround in He2, Hb2. cbn [snd] in He2, Hb2.
  pose proof (scrapeProvider_try_from_start fuel _ _ _ _ Hstart) as Htry.
  rewrite Hesc in Htry.
  destruct (finally_after_throw (scrapeProvider_try fuel targetUrl) w (fresh t0)
              (OpQuery g sel) st2 Htry (Hb2 Hb)) as (l2 & Hrun & Hl2 & Fl2).
  exists g, sel, (snd (teardown w st2)).
  split; [exact Hrun |]. split.
  - destruct (@keeps_teardown w _ _ (stays_empty_stable w Hw) True
                ltac:(keeps_side) (fun _ => True) st2) as [He3 _].
    apply He3, He2, Hm.
  - rewrite Hl2, stages_app.
    change (ACall OpClose :: l2) with ([ACall OpClose] ++ l2).
    rewrite stages_app, (stages_handlers l2 Fl2), Hl, (stages_round st1 l Fl), Hs.
    reflexivity.
Qed.

Lemma world_iframe_removed_no_manifest : no_manifest_traffic world_iframe_removed.
Proof. intros n e u He. cbn in He. apply elem_of_nil in He. contradiction. Qed.

Lemma detached_frame_lookup_escapes_witness :
  exists g sel stF,
    scrapeProvider 21 (js "http://x/") world_iframe_removed (fresh 0)
    = (Throws (OpQuery g sel), stF) /\
    m3u8Urls stF = [] /\
    stages (log stF) = [ADelay PASSIVE_WAIT_MS; AFrames].
Proof.
  assert (Ht : tick (snd (session_start (js "http://x/") world_iframe_removed (fresh 0)))
               = 9%nat) by (vm_compute; reflexivity).
  apply (detached_frame_lookup_escapes 21 (js "http://x/") world_iframe_removed 0
           (snd (session_start (js "http://x/") world_iframe_removed (fresh 0)))
           {| frame_id := 1; document := [track_element (js "http://x/cap.vtt")] |}).
  - exact world_iframe_removed_no_manifest.
  - vm_compute. reflexivity.
  - rewrite Ht. change (frames (page_state (world_iframe_removed 9%nat)))
      with (frames page_iframe_track).
    apply elem_of_cons. right. apply elem_of_cons. left. reflexivity.
  - rewrite Ht. intros m Hm. unfold world_iframe_removed.
    destruct (Nat.ltb_spec m 10); [lia | vm_compute; reflexivity].
Defined.

(** The run on that page: the main frame goes through its eleven lookups
    and its injection, and the first lookup in the nested frame, which is
    gone by then, ends the call. *)
Lemma scrapeProvider_on_world_iframe_removed :
  fst (scrapeProvider 21 (js "http://x/") world_iframe_removed (fresh 0))
  = Throws (OpQuery 1 "[class*=close]")
  /\ injections (log (snd (scrapeProvider 21 (js "http://x/") world_iframe_removed (fresh 0))))
     = [0%nat].
Proof. split; vm_compute; reflexivity. Qed.

(** ** The full escalation when the frames stay *)

Lemma interact_quiet w st :
  no_manifest_traffic w -> frames_stay w ->
  exists st' l,
    tryInteractAllFrames w st = (Returns tt, st') /\
    log st' = log st ++ AFrames :: l /\
    Forall (fun a => stage a = false) l /\
    injections l = map frame_id (frames (page_state (w (tick st)))) /\
    (tick st <= tick st')%nat /\
    stays_empty st st' /\ browser_kept st st'.
Proof.
  intros Hw Hstay.
  destruct (tryInteractAllFrames_run w st) as (r & st' & l & H & L & Fl & _ & T & O).
  destruct (@keeps_tryInteractAllFrames w _ _ (stays_empty_stable w Hw) True
              ltac:(keeps_side) ltac:(keeps_side) (fun _ => True)
              ltac:(keeps_side) st) as [He _].
  destruct (@keeps_tryInteractAllFrames w _ _ (browser_kept_stable w) True
              ltac:(keeps_side) ltac:(keeps_side) (fun _ => True)
              ltac:(keeps_side) st) as [Hb _].
  rewrite H in He, Hb. cbn [snd] in He, Hb.
  destruct r as [[] | op |]; [| | contradiction].
  - exists st', l. destruct O as (_ & _ & A).
    split; [exact H |]. split; [exact L |]. split; [exact Fl |].
    split; [| split; [lia |]; split; assumption].
    apply A. intros f m Hf Hm. apply (Hstay (tick st)); [lia | exact Hf].
  - exfalso. destruct O as (fs1 & f & fs2 & sel & Hfs & _ & _ & Hd).
    rewrite (Hstay (tick st) (tick st') f) in Hd; [discriminate | lia |].
    rewrite Hfs. apply elem_of_app. right. left.
Qed.

Lemma delay_injections ms w st :
  injections (log (snd (delay ms w st))) = injections (log st).
Proof.
  apply injections_log_grows.
  apply (@stable_delay w _ _ (no_interaction_stable w)). reflexivity.
Qed.

Lemma poll_injections fuel start w st :
  injections (log (snd (poll fuel start w st))) = injections (log st).
Proof.
  apply injections_log_grows.
  apply (@poll_core w _ _ (no_interaction_stable w) ltac:(keeps_side) fuel start st).
Qed.

Lemma escalate_quiet fuel w st :
  no_manifest_traffic w -> frames_stay w -> (20 < fuel)%nat -> m3u8Urls st = [] ->
  exists st' k n,
    escalate fuel w st = (Returns [], st') /\
    (1 <= k <= 20)%nat /\ (tick st < n)%nat /\
    stages (log st') =
      stages (log st) ++ [AFrames; ADelay CLICK_WAIT_MS; AFrames] ++ replicate k (ADelay 250) /\
    injections (log st') =
      injections (log st) ++ map frame_id (frames (page_state (w (tick st))))
                          ++ map frame_id (frames (page_state (w n))) /\
    browser_kept st st'.
Proof.
  intros Hw Hstay Hfuel Hm. unfold escalate. unfold bind at 1. cbn [gets].
  rewrite Hm. cbn [length Nat.ltb Nat.leb].
  destruct (interact_quiet w st Hw Hstay) as (st1 & l1 & H1 & L1 & F1 & A1 & T1 & E1 & B1).
  rewrite (bind_returns _ _ _ _ _ _ H1).
  destruct (delay_quiet CLICK_WAIT_MS w st1 Hw) as (st2 & H2 & S2 & E2 & B2 & _).
  rewrite (bind_returns _ _ _ _ _ _ H2).
  unfold bind at 1. cbn [gets]. rewrite (E2 (E1 Hm)). cbn [length Nat.ltb Nat.leb].
  destruct (interact_quiet w st2 Hw Hstay) as (st3 & l3 & H3 & L3 & F3 & A3 & T3 & E3 & B3).
  rewrite (bind_returns _ _ _ _ _ _ H3).
  unfold bind at 1. cbn [Date_now gets].
  destruct (poll_quiet w Hw fuel (clock st3) st3 (E3 (E2 (E1 Hm))))
    as (st4 & k & H4 & S4 & E4 & B4 & K1 & K2); [lia | lia |].
  rewrite (bind_returns _ _ _ _ _ _ H4). unfold gets. rewrite E4.
  assert (Hst2 : st2 = snd (delay CLICK_WAIT_MS w st1)) by (rewrite H2; reflexivity).
  assert (Hst4 : st4 = snd (poll fuel (clock st3) w st3)) by (rewrite H4; reflexivity).
  exists st4, k, (tick st2). split; [reflexivity |].
  split; [destruct K1 as [-> | K1]; lia |].
  split; [rewrite Hst2, delay_tick; lia |].
  split; [| split; [| intros H; apply B4, B3, B2, B1, H]].
  - rewrite S4, L3, (stages_round st2 l3 F3), S2, L1, (stages_round st l1 F1),
      <- !(assoc_L (++)). reflexivity.
  - rewrite Hst4, poll_injections, L3, injections_app.
    change (injections (AFrames :: l3)) with (injections l3).
    rewrite A3, Hst2, delay_injections, L1, injections_app.
    change (injections (AFrames :: l1)) with (injections l1).
    rewrite A1, <- !(assoc_L (++)). reflexivity.
Qed.

(** A page that stays the same keeps its frames. *)
Lemma constant_page_frames_stay (p : Page) (w : World) :
  (forall n, page_state (w n) = p) -> frames_stay w.
Proof.
  intros Hp n m f _ Hf. rewrite Hp in Hf. rewrite Hp.
  unfold attached_frame. apply bool_decide_eq_true.
  apply list_elem_of_fmap. exists f. auto.
Qed.

Lemma world_iframe_track_no_manifest : no_manifest_traffic world_iframe_track.
Proof. intros n e u He. cbn in He. apply elem_of_nil in He. contradiction. Qed.

(** X17: the whole escalation on a page that never shows a manifest URL
    and never loses a frame.  Once the session has started and the page
    has loaded, [scrapeProvider] returns the empty sequence: the stages
    of the call are the passive wait, an interaction round, the 8000 ms
    wait, a second interaction round and [k] waits of 250 ms with
    [1 <= k <= 20]; each round injects the autoplay script once in every
    frame that the page has when the round begins, the main frame first;
    the polling loop never runs out of fuel, and the outcome is a return,
    not an exception. *)
Theorem full_escalation_when_frames_stay fuel targetUrl w t0 st1 :
  (20 < fuel)%nat ->
  no_manifest_traffic w ->
  frames_stay w ->
  session_start targetUrl w (fresh t0) = (Returns tt, st1) ->
  exists stF k n,
    scrapeProvider fuel targetUrl w (fresh t0) = (Returns [], stF) /\
    (1 <= k <= 20)%nat /\ (tick st1 < n)%nat /\
    stages (log stF) =
      [ADelay PASSIVE_WAIT_MS; AFrames; ADelay CLICK_WAIT_MS; AFrames]
      ++ replicate k (ADelay 250) /\
    injections (log stF) =
      map frame_id (frames (page_state (w (tick st1))))
      ++ map frame_id (frames (page_state (w n))).
Proof.
  intros Hfuel Hw Hstay Hstart.
  pose proof (session_start_browser _ _ _ _ Hstart) as Hb.
  pose proof (session_start_stages _ _ _ _ Hstart) as Hs. cbn [fresh log] in Hs.
  pose proof (session_start_empty _ _ _ _ Hw Hstart eq_refl) as Hm.
  pose proof (injections_log_grows _ _ (session_start_no_interaction _ _ _ _ Hstart)) as Hi.
  cbn [fresh log] in Hi.
  destruct (escalate_quiet fuel w st1 Hw Hstay Hfuel Hm)
    as (st2 & k & n & He & Hk & Hn & Hs2 & Hi2 & Hb2).
  pose proof (scrapeProvider_try_from_start fuel _ _ _ _ Hstart) as Htry.
  rewrite He in Htry.
  pose proof (teardown_returns w st2) as Ht.
  destruct (teardown_closes w st2 (Hb2 Hb)) as (l & Hl & Fl).
  exists (snd (teardown w st2)), k, n.
  split; [| split; [exact Hk | split; [exact Hn | split]]].
  - unfold scrapeProvider, try_finally. rewrite Htry.
    destruct (teardown w st2) as [rt st3]. cbn [fst] in Ht. subst rt. reflexivity.
  - rewrite Hl, stages_app.
    change (ACall OpClose :: l) with ([ACall OpClose] ++ l).
    rewrite stages_app, (stages_handlers l Fl), Hs2, Hs.
    change (stages []) with (@nil Action).
    change (stages [ACall OpClose]) with (@nil Action).
    cbn [app]. rewrite app_nil_r. reflexivity.
  - rewrite Hl, injections_app.
    assert (Hc : injections (ACall OpClose :: l) = []).
    { apply injections_none. constructor; [reflexivity |].
      eapply Forall_impl; [exact Fl |].
      intros a Ha. destruct a; try discriminate Ha; reflexivity. }
    rewrite Hc, app_nil_r, Hi2, Hi. reflexivity.
Qed.

Lemma full_escalation_when_frames_stay_witness :
  exists stF k n,
    scrapeProvider 21 (js "http://x/") world_iframe_track (fresh 0) = (Returns [], stF) /\
    (1 <= k <= 20)%nat /\
    (tick (snd (session_start (js "http://x/") world_iframe_track (fresh 0))) < n)%nat /\
    stages (log stF) =
      [ADelay PASSIVE_WAIT_MS; AFrames; ADelay CLICK_WAIT_MS; AFrames]
      ++ replicate k (ADelay 250) /\
    injections (log stF) =
      map frame_id (frames (page_state (world_iframe_track
        (tick (snd (session_start (js "http://x/") world_iframe_track (fresh 0)))))))
      ++ map frame_id (frames (page_state (world_iframe_track n))).
Proof.
  apply (full_escalation_when_frames_stay 21 (js "http://x/") world_iframe_track 0
           (snd (session_start (js "http://x/") world_iframe_track (fresh 0)))).
  - lia.
  - exact world_iframe_track_no_manifest.
  - apply (constant_page_frames_stay page_iframe_track). intros n. reflexivity.
  - vm_compute. reflexivity.
Defined.
